(** * 1942 Air Combat: a shallow embedding of the simulation core

    The program is a single React component ([App]) whose per-frame
    [update] function mutates a handful of refs (player, enemies, bullets,
    power-ups, particles, timers) and a piece of React state ([gameState]).
    The embedding threads all of them through one record and keeps the
    phase order of [update].

    JavaScript numbers are modelled by exact rationals.  The only place
    where the source can leave the rationals is the division of the boss's
    targeted shot (0/0), so the fields that can receive that value carry a
    [num], a rational or NaN.  The arithmetic of the pause clock, on
    readings of [performance.now()], is the one place where the rounding
    of the results is kept: it goes through [Number_value] of the host. *)

From Stdlib Require Import QArith ZArith List String Ascii Bool Lia Lqa.
From Stdlib Require Import Qround Qreduction Qabs.
Import ListNotations.
Open Scope string_scope.
Open Scope list_scope.
Open Scope Q_scope.

(** ** Numbers *)

Module Num.

(** A JavaScript number under exact arithmetic: a rational, an infinity
    or NaN. *)
Inductive num : Type :=
| Fin (q : Q)
| PInf
| NInf
| NaN.

Definition isFinite (a : num) : bool :=
  match a with Fin _ => true | _ => false end.

Definition Qltb (x y : Q) : bool := negb (Qle_bool y x).
Definition Qgtb (x y : Q) : bool := Qltb y x.
Definition Qgeb (x y : Q) : bool := Qle_bool y x.

(** [Math.max] and [Math.min] on rationals. *)
Definition Qmax (x y : Q) : Q := if Qle_bool x y then y else x.
Definition Qmin (x y : Q) : Q := if Qle_bool x y then x else y.

Definition add (a b : num) : num :=
  match a, b with
  | Fin x, Fin y => Fin (x + y)
  | NaN, _ | _, NaN => NaN
  | PInf, NInf | NInf, PInf => NaN
  | PInf, _ | _, PInf => PInf
  | NInf, _ | _, NInf => NInf
  end.

Definition neg (a : num) : num :=
  match a with
  | Fin x => Fin (- x)
  | PInf => NInf
  | NInf => PInf
  | NaN => NaN
  end.

Definition sub (a b : num) : num := add a (neg b).

(** The infinity with the sign of [x], NaN for [x = 0]: the value of
    [x * Infinity]. *)
Definition signedInf (x : Q) : num :=
  if Qltb 0 x then PInf else if Qltb x 0 then NInf else NaN.

Definition mul (a b : num) : num :=
  match a, b with
  | Fin x, Fin y => Fin (x * y)
  | NaN, _ | _, NaN => NaN
  | Fin x, PInf | PInf, Fin x => signedInf x
  | Fin x, NInf | NInf, Fin x => signedInf (- x)
  | PInf, PInf | NInf, NInf => PInf
  | PInf, NInf | NInf, PInf => NInf
  end.

(** [x / y] for two finite operands: a zero divisor gives NaN for a zero
    dividend and a signed infinity otherwise. *)
Definition div (x y : Q) : num :=
  if Qeq_bool y 0 then signedInf x else Fin (x / y).

(** Comparisons: false as soon as one side is NaN. *)
Definition ltb (a b : num) : bool :=
  match a, b with
  | Fin x, Fin y => Qltb x y
  | NaN, _ | _, NaN => false
  | PInf, _ | _, NInf => false
  | NInf, _ | _, PInf => true
  end.
Definition gtb (a b : num) : bool := ltb b a.
Definition leb (a b : num) : bool :=
  match a, b with
  | Fin x, Fin y => Qle_bool x y
  | NaN, _ | _, NaN => false
  | NInf, _ | _, PInf => true
  | PInf, _ | _, NInf => false
  end.
Definition geb (a b : num) : bool := leb b a.

(** [Math.max] on numbers: NaN if either argument is NaN. *)
Definition max (a b : num) : num :=
  match a, b with
  | NaN, _ | _, NaN => NaN
  | _, _ => if leb a b then b else a
  end.

End Num.
Import Num.

(** ** Run status, crafts and the React state *)

Inductive Status : Type :=
| menu | playing | gameover | paused | countdown | shop.

Definition Status_eqb (a b : Status) : bool :=
  match a, b with
  | menu, menu | playing, playing | gameover, gameover
  | paused, paused | countdown, countdown | shop, shop => true
  | _, _ => false
  end.

(** [PlaneType] is a union of string literals; at run time a craft id is a
    string, and the value read back from storage is not checked against the
    union. *)
Definition PlaneType : Type := string.

Record PlaneData : Type := mkPlaneData {
  pd_id : PlaneType;
  pd_name : string;
  pd_description : string;
  pd_price : Q;
  pd_health : Q;
  pd_speed : Q;
  pd_fireRate : Q;
  pd_color : string
}.

Definition CANVAS_WIDTH : Q := 480.
Definition CANVAS_HEIGHT : Q := 640.

Definition PLANES : list PlaneData :=
  [ mkPlaneData "standard" "P-38 Lightning" "Balanced standard fighter."
      0 100 2.5 200 "#1d4ed8";
    mkPlaneData "light" "Swift Interceptor" "High speed, lower health."
      5000 70 3.8 150 "#10b981";
    mkPlaneData "heavy" "Flying Fortress" "Massive health, slower speed."
      15000 250 1.8 300 "#4b5563";
    mkPlaneData "tech" "Laser Prototype" "Advanced tech, high fire rate."
      30000 100 2.8 100 "#8b5cf6";
    mkPlaneData "blast" "Bomber Special" "Heavy damage, wide bullets."
      50000 150 2.2 400 "#f59e0b" ].

Record GameState : Type := mkGameState {
  status : Status;
  gs_score : Q;
  highScore : num;
  totalCurrency : num;
  ownedPlanes : list PlaneType;
  selectedPlane : PlaneType;
  countdownValue : option Z
}.

Definition gs_set_status (v : Status) (g : GameState) : GameState :=
  mkGameState v (gs_score g) (highScore g) (totalCurrency g)
              (ownedPlanes g) (selectedPlane g) (countdownValue g).

Definition gs_set_countdownValue (v : option Z) (g : GameState) : GameState :=
  mkGameState (status g) (gs_score g) (highScore g) (totalCurrency g)
              (ownedPlanes g) (selectedPlane g) v.

Definition gs_set_selectedPlane (v : PlaneType) (g : GameState) : GameState :=
  mkGameState (status g) (gs_score g) (highScore g) (totalCurrency g)
              (ownedPlanes g) v (countdownValue g).

(** ** Persisted preferences *)

(** What [localStorage.setItem] is asked to store, before serialisation. *)
Inductive Stored : Type :=
| StoredNum (n : num)
| StoredPlanes (l : list PlaneType)
| StoredId (s : PlaneType).

Definition StorageWrite : Type := (string * Stored)%type.

Module Persist.

Definition isWhiteSpace (c : ascii) : bool :=
  let n := nat_of_ascii c in
  ((9 <=? n) && (n <=? 13) || (n =? 32))%nat.

Fixpoint trimStart (s : string) : string :=
  match s with
  | String c r => if isWhiteSpace c then trimStart r else s
  | EmptyString => s
  end.

(** The value of a digit character in radix 10 or 16. *)
Definition digitValue (radix : Z) (c : ascii) : option Z :=
  let n := Z.of_nat (nat_of_ascii c) in
  let v :=
    if ((48 <=? n) && (n <=? 57))%Z then Some (n - 48)%Z
    else if ((97 <=? n) && (n <=? 102))%Z then Some (n - 87)%Z
    else if ((65 <=? n) && (n <=? 70))%Z then Some (n - 55)%Z
    else None in
  match v with
  | Some d => if (d <? radix)%Z then Some d else None
  | None => None
  end.

(** Reads the longest prefix of digits; [acc] is [None] until a digit has
    been seen. *)
Fixpoint digits (radix : Z) (s : string) (acc : option Z) : option Z :=
  match s with
  | String c r =>
      match digitValue radix c with
      | Some d =>
          digits radix r
            (Some (match acc with Some a => a * radix + d | None => d end)%Z)
      | None => acc
      end
  | EmptyString => acc
  end.

(** [parseInt(s)] with no radix argument: leading white space, an optional
    sign, an optional [0x] prefix, then digits; NaN when there is no
    digit.  White space is the ASCII subset. *)
Definition parseInt (s : string) : num :=
  let s1 := trimStart s in
  let '(sign, s2) :=
    match s1 with
    | String "-" r => ((-1)%Z, r)
    | String "+" r => (1%Z, r)
    | _ => (1%Z, s1)
    end in
  let '(radix, s3) :=
    match s2 with
    | String "0" (String "x" r) | String "0" (String "X" r) => (16%Z, r)
    | _ => (10%Z, s2)
    end in
  match digits radix s3 None with
  | Some n => Fin (inject_Z (sign * n))
  | None => NaN
  end.

(** [v ? f(v) : d] for a value read from storage: a string is truthy when
    it is present ([null] is [None]) and not empty. *)
Definition ifTruthy {A : Type} (v : option string) (f : string -> A) (d : A)
  : A :=
  match v with
  | Some (String c r) => f (String c r)
  | Some EmptyString | None => d
  end.

(** The four values read at start-up, as [localStorage.getItem] returns
    them: [None] is [null]. *)
Record Saved : Type := mkSaved {
  savedHighScore : option string;
  savedCurrency : option string;
  savedPlanes : option string;
  savedSelected : option string
}.

Section Init.

(** [JSON.parse] belongs to the host.  It is taken at the declared type
    of [ownedPlanes]; [None] is the [SyntaxError] it throws. *)
Variable JSON_parse : string -> option (list PlaneType).

(** The lazy initialiser of [useState<GameState>]; [None] when it
    throws. *)
Definition initGameState (sv : Saved) : option GameState :=
  let hs := ifTruthy (savedHighScore sv) parseInt (Fin 0) in
  let cur := ifTruthy (savedCurrency sv) parseInt (Fin 0) in
  let owned := ifTruthy (savedPlanes sv) JSON_parse (Some ["standard"]) in
  let sel := ifTruthy (savedSelected sv) (fun s => s) "standard" in
  match owned with
  | Some o => Some (mkGameState menu 0 hs cur o sel None)
  | None => None
  end.

End Init.

End Persist.

(** ** Numbers as decimal text *)

Module Decimal.

(** The character of a decimal digit. *)
Definition digitChar (d : Z) : ascii := ascii_of_nat (48 + Z.to_nat d).

(** The decimal digits of [n], most significant first, put in front of
    [acc]. *)
Fixpoint natDigits (fuel : nat) (n : Z) (acc : string) : string :=
  match fuel with
  | O => acc
  | S f =>
      let acc' := String (digitChar (n mod 10)) acc in
      if (n <? 10)%Z then acc' else natDigits f (n / 10) acc'
  end.

(** [n.toString()] for an integer [n] (below [10^21] in absolute value,
    where JavaScript switches to the exponent notation). *)
Definition intToString (z : Z) : string :=
  if (z <? 0)%Z
  then String "-" (natDigits (S (Z.to_nat (Z.log2 (- z)))) (- z) "")
  else natDigits (S (Z.to_nat (Z.log2 z))) z "".

End Decimal.

(** ** Hangar: select and purchase *)

Module Shop.

(** [Array.prototype.includes] on craft ids. *)
Definition includes (l : list PlaneType) (id : PlaneType) : bool :=
  existsb (String.eqb id) l.

Definition isOwned (g : GameState) (plane : PlaneData) : bool :=
  includes (ownedPlanes g) (pd_id plane).

Definition canAfford (g : GameState) (plane : PlaneData) : bool :=
  Num.geb (totalCurrency g) (Fin (pd_price plane)).

(** The click handler of the button of an owned craft. *)
Definition selectClick (plane : PlaneData) (g : GameState)
  : GameState * list StorageWrite :=
  (gs_set_selectedPlane (pd_id plane) g,
   [("1942_selectedPlane", StoredId (pd_id plane))]).

(** The click handler of the button of a craft that is not owned. *)
Definition purchaseClick (plane : PlaneData) (g : GameState)
  : GameState * list StorageWrite :=
  if canAfford g plane then
    let newOwned := (ownedPlanes g ++ [pd_id plane])%list in
    let newCurrency := Num.sub (totalCurrency g) (Fin (pd_price plane)) in
    (mkGameState (status g) (gs_score g) (highScore g) newCurrency
                 newOwned (pd_id plane) (countdownValue g),
     [("1942_ownedPlanes", StoredPlanes newOwned);
      ("1942_currency", StoredNum newCurrency);
      ("1942_selectedPlane", StoredId (pd_id plane))])
  else (g, []).

(** The card of a craft renders one of the two buttons; the purchase
    button is disabled when the craft cannot be afforded. *)
Definition cardClick (plane : PlaneData) (g : GameState)
  : GameState * list StorageWrite :=
  if isOwned g plane then selectClick plane g
  else if canAfford g plane then purchaseClick plane g
  else (g, []).

End Shop.

(** ** Entities *)

Inductive BuffType : Type := rapidFire | shield | spreadShot.

Definition BuffType_eqb (a b : BuffType) : bool :=
  match a, b with
  | rapidFire, rapidFire | shield, shield | spreadShot, spreadShot => true
  | _, _ => false
  end.

Inductive EnemyType : Type := basic | fast | heavy | boss.

Definition isBoss (ty : EnemyType) : bool :=
  match ty with boss => true | _ => false end.

Inductive Owner : Type := byPlayer | byEnemy.

Module Buff.

(** An entry of [activeBuffs]. *)
Record t : Type := mk {
  type : BuffType;
  endTime : Q
}.

Definition set_endTime (v : Q) (r : t) : t :=
  mk (type r) v.

End Buff.

Module Player.

(** [Player] of the type declarations. *)
Record t : Type := mk {
  x : Q;
  y : Q;
  width : Q;
  height : Q;
  speed : Q;
  type : PlaneType;
  health : Q;
  maxHealth : Q;
  score : Q;
  lastShot : Q;
  fireRate : Q;
  activeBuffs : list Buff.t
}.

Definition set_x (v : Q) (r : t) : t :=
  mk v (y r) (width r) (height r) (speed r) (type r) (health r)
     (maxHealth r) (score r) (lastShot r) (fireRate r) (activeBuffs r).

Definition set_y (v : Q) (r : t) : t :=
  mk (x r) v (width r) (height r) (speed r) (type r) (health r)
     (maxHealth r) (score r) (lastShot r) (fireRate r) (activeBuffs r).

Definition set_health (v : Q) (r : t) : t :=
  mk (x r) (y r) (width r) (height r) (speed r) (type r) v (maxHealth r)
     (score r) (lastShot r) (fireRate r) (activeBuffs r).

Definition set_score (v : Q) (r : t) : t :=
  mk (x r) (y r) (width r) (height r) (speed r) (type r) (health r)
     (maxHealth r) v (lastShot r) (fireRate r) (activeBuffs r).

Definition set_lastShot (v : Q) (r : t) : t :=
  mk (x r) (y r) (width r) (height r) (speed r) (type r) (health r)
     (maxHealth r) (score r) v (fireRate r) (activeBuffs r).

Definition set_activeBuffs (v : list Buff.t) (r : t) : t :=
  mk (x r) (y r) (width r) (height r) (speed r) (type r) (health r)
     (maxHealth r) (score r) (lastShot r) (fireRate r) v.

End Player.

Module Enemy.

(** [Enemy] of the type declarations. *)
Record t : Type := mk {
  x : Q;
  y : Q;
  width : Q;
  height : Q;
  speed : Q;
  type : EnemyType;
  health : Q;
  maxHealth : Q;
  lastShot : Q;
  fireRate : Q
}.

Definition set_x (v : Q) (r : t) : t :=
  mk v (y r) (width r) (height r) (speed r) (type r) (health r)
     (maxHealth r) (lastShot r) (fireRate r).

Definition set_y (v : Q) (r : t) : t :=
  mk (x r) v (width r) (height r) (speed r) (type r) (health r)
     (maxHealth r) (lastShot r) (fireRate r).

Definition set_health (v : Q) (r : t) : t :=
  mk (x r) (y r) (width r) (height r) (speed r) (type r) v (maxHealth r)
     (lastShot r) (fireRate r).

Definition set_lastShot (v : Q) (r : t) : t :=
  mk (x r) (y r) (width r) (height r) (speed r) (type r) (health r)
     (maxHealth r) v (fireRate r).

End Enemy.

Module Bullet.

(** [Bullet] of the type declarations.  The position can receive the
    velocity of a targeted shot, hence [num]; [vx] and [vy] are optional. *)
Record t : Type := mk {
  x : num;
  y : num;
  width : Q;
  height : Q;
  speed : Q;
  owner : Owner;
  damage : Q;
  vx : option num;
  vy : option num
}.

Definition set_x (v : num) (r : t) : t :=
  mk v (y r) (width r) (height r) (speed r) (owner r) (damage r) (vx r)
     (vy r).

Definition set_y (v : num) (r : t) : t :=
  mk (x r) v (width r) (height r) (speed r) (owner r) (damage r) (vx r)
     (vy r).

End Bullet.

Module PowerUp.

(** [PowerUp] of the type declarations. *)
Record t : Type := mk {
  x : Q;
  y : Q;
  width : Q;
  height : Q;
  speed : Q;
  type : BuffType
}.

Definition set_y (v : Q) (r : t) : t :=
  mk (x r) v (width r) (height r) (speed r) (type r).

End PowerUp.

Module Particle.

(** [Particle] of the type declarations; it is created at the position of
    a bullet or of an entity. *)
Record t : Type := mk {
  x : num;
  y : num;
  vx : Q;
  vy : Q;
  life : Q;
  color : string;
  size : Q
}.

Definition set_x (v : num) (r : t) : t :=
  mk v (y r) (vx r) (vy r) (life r) (color r) (size r).

Definition set_y (v : num) (r : t) : t :=
  mk (x r) v (vx r) (vy r) (life r) (color r) (size r).

Definition set_life (v : Q) (r : t) : t :=
  mk (x r) (y r) (vx r) (vy r) v (color r) (size r).

End Particle.

(** ** The host: mathematics, randomness, audio *)

(** A value of [Math.random()]: a rational of [[0, 1)], kept as a numerator
    reduced modulo its denominator. *)
Record Unit01 : Type := mkUnit01 { u_num : N; u_den : positive }.

Definition unitValue (u : Unit01) : Q :=
  ((Z.of_N (u_num u) mod Zpos (u_den u)) # (u_den u)).

(** The functions of [Math] that [update] calls.  [Math_random n] is the
    value of the [n]-th call of [Math.random()] since start-up.
    [Number_value x] is the Number that stands for the real [x]: the result
    of an addition or of a subtraction of two Numbers is the Number value of
    the exact result.  The simulation computes with exact numbers but for
    the pause clock, whose operands are readings of [performance.now()]:
    there the results go through [Number_value]. *)
Record Host : Type := mkHost {
  Math_sin : Q -> Q;
  Math_cos : Q -> Q;
  Math_sqrt : Q -> Q;
  Math_PI : Q;
  Math_random : nat -> Unit01;
  Number_value : Q -> Q
}.

(** The cues sent to [soundManager]. *)
Inductive Cue : Type :=
| playShoot | playEnemyShoot | playExplosion | playPowerUp | playHit.

Module Hud.

(** The projection handed to the presentation layer by [setHud]. *)
Record t : Type := mk {
  health : Q;
  score : Q;
  time : Z;
  activeBuffs : list Buff.t;
  bossHealth : option (Q * Q)
}.

End Hud.

(** ** The world: React state, refs, and the logs of the effects *)

Record World : Type := mkWorld {
  gameState : GameState;
  hud : Hud.t;
  player : Player.t;
  enemies : list Enemy.t;
  bullets : list Bullet.t;
  powerUps : list PowerUp.t;
  particles : list Particle.t;
  keys : string -> bool;
  lastEnemySpawn : Q;
  lastPowerUpSpawn : Q;
  lastBossDefeatedTime : Q;
  bossCount : Z;
  gameStartTime : Q;
  pauseStartTime : Q;
  totalPausedTime : Q;
  backgroundOffset : Q;
  randomCalls : nat;
  cues : list Cue;
  storage : list StorageWrite
}.

Definition set_gameState (v : GameState) (w : World) : World :=
  mkWorld v (hud w) (player w) (enemies w) (bullets w) (powerUps w)
          (particles w) (keys w) (lastEnemySpawn w) (lastPowerUpSpawn w)
          (lastBossDefeatedTime w) (bossCount w) (gameStartTime w)
          (pauseStartTime w) (totalPausedTime w) (backgroundOffset w)
          (randomCalls w) (cues w) (storage w).

Definition set_hud (v : Hud.t) (w : World) : World :=
  mkWorld (gameState w) v (player w) (enemies w) (bullets w) (powerUps w)
          (particles w) (keys w) (lastEnemySpawn w) (lastPowerUpSpawn w)
          (lastBossDefeatedTime w) (bossCount w) (gameStartTime w)
          (pauseStartTime w) (totalPausedTime w) (backgroundOffset w)
          (randomCalls w) (cues w) (storage w).

Definition set_player (v : Player.t) (w : World) : World :=
  mkWorld (gameState w) (hud w) v (enemies w) (bullets w) (powerUps w)
          (particles w) (keys w) (lastEnemySpawn w) (lastPowerUpSpawn w)
          (lastBossDefeatedTime w) (bossCount w) (gameStartTime w)
          (pauseStartTime w) (totalPausedTime w) (backgroundOffset w)
          (randomCalls w) (cues w) (storage w).

Definition set_enemies (v : list Enemy.t) (w : World) : World :=
  mkWorld (gameState w) (hud w) (player w) v (bullets w) (powerUps w)
          (particles w) (keys w) (lastEnemySpawn w) (lastPowerUpSpawn w)
          (lastBossDefeatedTime w) (bossCount w) (gameStartTime w)
          (pauseStartTime w) (totalPausedTime w) (backgroundOffset w)
          (randomCalls w) (cues w) (storage w).

Definition set_bullets (v : list Bullet.t) (w : World) : World :=
  mkWorld (gameState w) (hud w) (player w) (enemies w) v (powerUps w)
          (particles w) (keys w) (lastEnemySpawn w) (lastPowerUpSpawn w)
          (lastBossDefeatedTime w) (bossCount w) (gameStartTime w)
          (pauseStartTime w) (totalPausedTime w) (backgroundOffset w)
          (randomCalls w) (cues w) (storage w).

Definition set_powerUps (v : list PowerUp.t) (w : World) : World :=
  mkWorld (gameState w) (hud w) (player w) (enemies w) (bullets w) v
          (particles w) (keys w) (lastEnemySpawn w) (lastPowerUpSpawn w)
          (lastBossDefeatedTime w) (bossCount w) (gameStartTime w)
          (pauseStartTime w) (totalPausedTime w) (backgroundOffset w)
          (randomCalls w) (cues w) (storage w).

Definition set_particles (v : list Particle.t) (w : World) : World :=
  mkWorld (gameState w) (hud w) (player w) (enemies w) (bullets w)
          (powerUps w) v (keys w) (lastEnemySpawn w) (lastPowerUpSpawn w)
          (lastBossDefeatedTime w) (bossCount w) (gameStartTime w)
          (pauseStartTime w) (totalPausedTime w) (backgroundOffset w)
          (randomCalls w) (cues w) (storage w).

Definition set_keys (v : string -> bool) (w : World) : World :=
  mkWorld (gameState w) (hud w) (player w) (enemies w) (bullets w)
          (powerUps w) (particles w) v (lastEnemySpawn w) (lastPowerUpSpawn w)
          (lastBossDefeatedTime w) (bossCount w) (gameStartTime w)
          (pauseStartTime w) (totalPausedTime w) (backgroundOffset w)
          (randomCalls w) (cues w) (storage w).

Definition set_lastEnemySpawn (v : Q) (w : World) : World :=
  mkWorld (gameState w) (hud w) (player w) (enemies w) (bullets w)
          (powerUps w) (particles w) (keys w) v (lastPowerUpSpawn w)
          (lastBossDefeatedTime w) (bossCount w) (gameStartTime w)
          (pauseStartTime w) (totalPausedTime w) (backgroundOffset w)
          (randomCalls w) (cues w) (storage w).

Definition set_lastPowerUpSpawn (v : Q) (w : World) : World :=
  mkWorld (gameState w) (hud w) (player w) (enemies w) (bullets w)
          (powerUps w) (particles w) (keys w) (lastEnemySpawn w) v
          (lastBossDefeatedTime w) (bossCount w) (gameStartTime w)
          (pauseStartTime w) (totalPausedTime w) (backgroundOffset w)
          (randomCalls w) (cues w) (storage w).

Definition set_lastBossDefeatedTime (v : Q) (w : World) : World :=
  mkWorld (gameState w) (hud w) (player w) (enemies w) (bullets w)
          (powerUps w) (particles w) (keys w) (lastEnemySpawn w)
          (lastPowerUpSpawn w) v (bossCount w) (gameStartTime w)
          (pauseStartTime w) (totalPausedTime w) (backgroundOffset w)
          (randomCalls w) (cues w) (storage w).

Definition set_bossCount (v : Z) (w : World) : World :=
  mkWorld (gameState w) (hud w) (player w) (enemies w) (bullets w)
          (powerUps w) (particles w) (keys w) (lastEnemySpawn w)
          (lastPowerUpSpawn w) (lastBossDefeatedTime w) v (gameStartTime w)
          (pauseStartTime w) (totalPausedTime w) (backgroundOffset w)
          (randomCalls w) (cues w) (storage w).

Definition set_gameStartTime (v : Q) (w : World) : World :=
  mkWorld (gameState w) (hud w) (player w) (enemies w) (bullets w)
          (powerUps w) (particles w) (keys w) (lastEnemySpawn w)
          (lastPowerUpSpawn w) (lastBossDefeatedTime w) (bossCount w) v
          (pauseStartTime w) (totalPausedTime w) (backgroundOffset w)
          (randomCalls w) (cues w) (storage w).

Definition set_pauseStartTime (v : Q) (w : World) : World :=
  mkWorld (gameState w) (hud w) (player w) (enemies w) (bullets w)
          (powerUps w) (particles w) (keys w) (lastEnemySpawn w)
          (lastPowerUpSpawn w) (lastBossDefeatedTime w) (bossCount w)
          (gameStartTime w) v (totalPausedTime w) (backgroundOffset w)
          (randomCalls w) (cues w) (storage w).

Definition set_totalPausedTime (v : Q) (w : World) : World :=
  mkWorld (gameState w) (hud w) (player w) (enemies w) (bullets w)
          (powerUps w) (particles w) (keys w) (lastEnemySpawn w)
          (lastPowerUpSpawn w) (lastBossDefeatedTime w) (bossCount w)
          (gameStartTime w) (pauseStartTime w) v (backgroundOffset w)
          (randomCalls w) (cues w) (storage w).

Definition set_backgroundOffset (v : Q) (w : World) : World :=
  mkWorld (gameState w) (hud w) (player w) (enemies w) (bullets w)
          (powerUps w) (particles w) (keys w) (lastEnemySpawn w)
          (lastPowerUpSpawn w) (lastBossDefeatedTime w) (bossCount w)
          (gameStartTime w) (pauseStartTime w) (totalPausedTime w) v
          (randomCalls w) (cues w) (storage w).

Definition set_randomCalls (v : nat) (w : World) : World :=
  mkWorld (gameState w) (hud w) (player w) (enemies w) (bullets w)
          (powerUps w) (particles w) (keys w) (lastEnemySpawn w)
          (lastPowerUpSpawn w) (lastBossDefeatedTime w) (bossCount w)
          (gameStartTime w) (pauseStartTime w) (totalPausedTime w)
          (backgroundOffset w) v (cues w) (storage w).

Definition set_cues (v : list Cue) (w : World) : World :=
  mkWorld (gameState w) (hud w) (player w) (enemies w) (bullets w)
          (powerUps w) (particles w) (keys w) (lastEnemySpawn w)
          (lastPowerUpSpawn w) (lastBossDefeatedTime w) (bossCount w)
          (gameStartTime w) (pauseStartTime w) (totalPausedTime w)
          (backgroundOffset w) (randomCalls w) v (storage w).

Definition set_storage (v : list StorageWrite) (w : World) : World :=
  mkWorld (gameState w) (hud w) (player w) (enemies w) (bullets w)
          (powerUps w) (particles w) (keys w) (lastEnemySpawn w)
          (lastPowerUpSpawn w) (lastBossDefeatedTime w) (bossCount w)
          (gameStartTime w) (pauseStartTime w) (totalPausedTime w)
          (backgroundOffset w) (randomCalls w) (cues w) v.

(** ** Arrays *)

(** [arr.splice(i, 1)]. *)
Definition splice {A : Type} (i : nat) (l : list A) : list A :=
  firstn i l ++ skipn (S i) l.

(** The write of a mutated object back to its slot [i]. *)
Fixpoint store {A : Type} (i : nat) (v : A) (l : list A) : list A :=
  match l, i with
  | [], _ => []
  | _ :: r, O => v :: r
  | a :: r, S j => a :: store j v r
  end.

(** [arr.forEach(callback)]: the length is read once; index [k] is visited
    only if it is still inside the array, whatever the callback did to the
    array before.  [get] reads the array the loop runs over. *)
Section ForEach.

Context {St A : Type}.
Variable get : St -> list A.
Variable callback : A -> nat -> St -> St.

Definition visit (k : nat) (s : St) : St :=
  match nth_error (get s) k with
  | Some a => callback a k s
  | None => s
  end.

Fixpoint forEachFrom (n k : nat) (s : St) : St :=
  match n with
  | O => s
  | S n' => forEachFrom n' (S k) (visit k s)
  end.

Definition forEach (s : St) : St :=
  forEachFrom (List.length (get s)) 0 s.

End ForEach.

(** [a.x < b.x + b.width && a.x + a.width > b.x && a.y < b.y + b.height &&
    a.y + a.height > b.y] *)
Definition overlap (ax ay aw ah bx by_ bw bh : Q) : bool :=
  Qltb ax (bx + bw) && Qgtb (ax + aw) bx && Qltb ay (by_ + bh)
  && Qgtb (ay + ah) by_.

(** The same test with a bullet on the left. *)
Definition overlapNum (ax ay : num) (aw ah bx by_ bw bh : Q) : bool :=
  Num.ltb ax (Fin (bx + bw)) && Num.gtb (Num.add ax (Fin aw)) (Fin bx)
  && Num.ltb ay (Fin (by_ + bh)) && Num.gtb (Num.add ay (Fin ah)) (Fin by_).

Definition hasBuff (ty : BuffType) (l : list Buff.t) : bool :=
  existsb (fun b => BuffType_eqb (Buff.type b) ty) l.

(** [keysRef.current[code]], read as a condition. *)
Definition held (w : World) (code : string) : bool := keys w code.

Section Simulation.

Variable host : Host.

(** One call of [Math.random()]. *)
Definition random (w : World) : Q * World :=
  (unitValue (Math_random host (randomCalls w)),
   set_randomCalls (S (randomCalls w)) w).

Definition play (c : Cue) (w : World) : World :=
  set_cues (cues w ++ [c]) w.

Definition bossActive (w : World) : bool :=
  existsb (fun e => isBoss (Enemy.type e)) (enemies w).

(** [types[Math.floor(r * types.length)]] for the three enemy types. *)
Definition pickEnemyType (r : Q) : EnemyType :=
  match Qfloor (r * 3) with
  | 0%Z => basic
  | 1%Z => fast
  | _ => heavy
  end.

Definition pickBuffType (r : Q) : BuffType :=
  match Qfloor (r * 3) with
  | 0%Z => rapidFire
  | 1%Z => shield
  | _ => spreadShot
  end.

Definition spawnEnemy (timestamp : Q) (w : World) : World :=
  if bossActive w then w
  else
    let gameTime := timestamp - gameStartTime w in
    let difficultyFactor := Qmin (gameTime / 120000) 1 in
    let currentSpawnInterval := 3000 - difficultyFactor * 2200 in
    if Qgtb (timestamp - lastEnemySpawn w) currentSpawnInterval then
      let '(r1, w1) := random w in
      let type := pickEnemyType r1 in
      let '(r2, w2) := random w1 in
      let enemy :=
        Enemy.mk (r2 * (CANVAS_WIDTH - 40)) (-50) 40 40
          (match type with fast => 1.5 | heavy => 0.6 | _ => 1.0 end)
          type
          (match type with heavy => 50 | _ => 20 end)
          (match type with heavy => 50 | _ => 20 end)
          0
          (match type with heavy => 1500 | _ => 2500 end) in
      set_lastEnemySpawn timestamp (set_enemies (enemies w2 ++ [enemy]) w2)
    else w.

Definition spawnPowerUp (timestamp : Q) (w : World) : World :=
  if Qgtb (timestamp - lastPowerUpSpawn w) 8000 then
    let '(r1, w1) := random w in
    let type := pickBuffType r1 in
    let '(r2, w2) := random w1 in
    let pu := PowerUp.mk (r2 * (CANVAS_WIDTH - 30)) (-30) 30 30 1.2 type in
    set_lastPowerUpSpawn timestamp (set_powerUps (powerUps w2 ++ [pu]) w2)
  else w.

Definition spawnBoss (timestamp : Q) (w : World) : World :=
  let gameTime := timestamp - gameStartTime w in
  if bossActive w then w
  else if Qgtb (gameTime - lastBossDefeatedTime w) 60000 then
    let w1 := set_bossCount (bossCount w + 1)%Z w in
    let health := 500 + inject_Z (bossCount w1 - 1) * 300 in
    set_enemies
      (enemies w1 ++
         [Enemy.mk (CANVAS_WIDTH / 2 - 40) (-100) 80 80 0.4 boss
            health health 0 800])
      w1
  else w.

(** One particle of [createExplosion]: three calls of [Math.random()], in
    the order of the object literal. *)
Definition pushParticle (x y : num) (color : string) (w : World) : World :=
  let '(r1, w1) := random w in
  let '(r2, w2) := random w1 in
  let '(r3, w3) := random w2 in
  set_particles
    (particles w3 ++
       [Particle.mk x y ((r1 - 0.5) * 6) ((r2 - 0.5) * 6) 1 color
          (r3 * 4 + 2)])
    w3.

Definition createExplosion (x y : num) (color : string) (w : World) : World :=
  Nat.iter 15 (pushParticle x y color) w.

(** *** The phases of [update] while playing *)

Definition movePlayer (w : World) : World :=
  let p := player w in
  let p := if held w "ArrowLeft" || held w "KeyA"
           then Player.set_x (Player.x p - Player.speed p) p else p in
  let p := if held w "ArrowRight" || held w "KeyD"
           then Player.set_x (Player.x p + Player.speed p) p else p in
  let p := if held w "ArrowUp" || held w "KeyW"
           then Player.set_y (Player.y p - Player.speed p) p else p in
  let p := if held w "ArrowDown" || held w "KeyS"
           then Player.set_y (Player.y p + Player.speed p) p else p in
  let p := Player.set_x
             (Qmax 0 (Qmin (CANVAS_WIDTH - Player.width p) (Player.x p))) p in
  let p := Player.set_y
             (Qmax 0 (Qmin (CANVAS_HEIGHT - Player.height p) (Player.y p))) p in
  set_player p w.

Definition playerBullet (x y width height damage : Q) : Bullet.t :=
  Bullet.mk (Fin x) (Fin y) width height (-4.0) byPlayer damage None None.

Definition shoot (adjustedTimestamp : Q) (w : World) : World :=
  let p := player w in
  let hasRapidFire := hasBuff rapidFire (Player.activeBuffs p) in
  let hasSpreadShot := hasBuff spreadShot (Player.activeBuffs p) in
  let currentFireRate :=
    if hasRapidFire then Player.fireRate p / 2 else Player.fireRate p in
  if held w "Space"
     && Qgtb (adjustedTimestamp - Player.lastShot p) currentFireRate
  then
    let isBlast := String.eqb (Player.type p) "blast" in
    let isTech := String.eqb (Player.type p) "tech" in
    let bulletDamage := if isBlast then 25 else if isTech then 15 else 10 in
    let bulletWidth := if isBlast then 12 else 4 in
    let bulletHeight := if isTech then 25 else 12 in
    let new :=
      if hasSpreadShot then
        [ playerBullet
            (Player.x p + Player.width p / 2 - bulletWidth / 2) (Player.y p)
            bulletWidth bulletHeight bulletDamage;
          playerBullet (Player.x p) (Player.y p + 10)
            bulletWidth bulletHeight bulletDamage;
          playerBullet (Player.x p + Player.width p - bulletWidth)
            (Player.y p + 10) bulletWidth bulletHeight bulletDamage ]
      else
        [ playerBullet
            (Player.x p + Player.width p / 2 - bulletWidth / 2) (Player.y p)
            bulletWidth bulletHeight bulletDamage ] in
    let w := set_bullets (bullets w ++ new) w in
    let w := set_player (Player.set_lastShot adjustedTimestamp p) w in
    play playShoot w
  else w.

(** [player.activeBuffs.filter(b => b.endTime > adjustedTimestamp)] *)
Definition updateBuffs (adjustedTimestamp : Q) (w : World) : World :=
  set_player
    (Player.set_activeBuffs
       (filter (fun b => Qgtb (Buff.endTime b) adjustedTimestamp)
               (Player.activeBuffs (player w)))
       (player w))
    w.

(** [find] then the write through the reference it returns, or [push]. *)
Fixpoint applyBuff (ty : BuffType) (endTime : Q) (l : list Buff.t)
  : list Buff.t :=
  match l with
  | [] => [Buff.mk ty endTime]
  | b :: r =>
      if BuffType_eqb (Buff.type b) ty
      then Buff.set_endTime endTime b :: r
      else b :: applyBuff ty endTime r
  end.

Definition powerUpStep (adjustedTimestamp : Q)
           (pu : PowerUp.t) (index : nat) (w : World) : World :=
  let pu := PowerUp.set_y (PowerUp.y pu + PowerUp.speed pu) pu in
  let w := set_powerUps (store index pu (powerUps w)) w in
  let p := player w in
  let w :=
    if overlap (Player.x p) (Player.y p) (Player.width p) (Player.height p)
               (PowerUp.x pu) (PowerUp.y pu)
               (PowerUp.width pu) (PowerUp.height pu)
    then
      let w :=
        set_player
          (Player.set_activeBuffs
             (applyBuff (PowerUp.type pu) (adjustedTimestamp + 10000)
                        (Player.activeBuffs p)) p) w in
      let w := play playPowerUp w in
      let w := createExplosion
                 (Fin (PowerUp.x pu + PowerUp.width pu / 2))
                 (Fin (PowerUp.y pu + PowerUp.height pu / 2)) "#00ff00" w in
      set_powerUps (splice index (powerUps w)) w
    else w in
  if Qgtb (PowerUp.y pu) CANVAS_HEIGHT
  then set_powerUps (splice index (powerUps w)) w
  else w.

Definition updatePowerUps (adjustedTimestamp : Q) (w : World) : World :=
  forEach powerUps (powerUpStep adjustedTimestamp) w.

(** [a % b], the remainder with the sign of the dividend. *)
Definition Qtrunc (q : Q) : Z :=
  if Qltb q 0 then Qceiling q else Qfloor q.

Definition Qrem (a b : Q) : Q := a - b * inject_Z (Qtrunc (a / b)).

Definition pushBullet (b : Bullet.t) (w : World) : World :=
  set_bullets (bullets w ++ [b]) w.

(** Pattern 0: the five-way spread. *)
Definition bossSpread (e : Enemy.t) (w : World) : World :=
  fold_left
    (fun w angle =>
       pushBullet
         (Bullet.mk
            (Fin (Enemy.x e + Enemy.width e / 2 - 3))
            (Fin (Enemy.y e + Enemy.height e - 10))
            6 15 2.2 byEnemy 20
            (Some (Fin (Math_sin host angle * 2.5)))
            (Some (Fin (Math_cos host angle * 2.5))))
         w)
    [-0.4; -0.2; 0; 0.2; 0.4] w.

(** Pattern 1: the circular burst, [i] from 0 to 11. *)
Definition bossCircle (e : Enemy.t) (w : World) : World :=
  fold_left
    (fun w i =>
       let angle := (inject_Z (Z.of_nat i) / 12) * Math_PI host * 2 in
       pushBullet
         (Bullet.mk
            (Fin (Enemy.x e + Enemy.width e / 2 - 3))
            (Fin (Enemy.y e + Enemy.height e / 2))
            6 6 2.0 byEnemy 15
            (Some (Fin (Math_cos host angle * 2.0)))
            (Some (Fin (Math_sin host angle * 2.0))))
         w)
    (seq 0 12) w.

(** Pattern 2: the velocity of the shot aimed at the player. *)
Definition targetedVelocity (p : Player.t) (e : Enemy.t) : num * num :=
  let dx := (Player.x p + Player.width p / 2)
            - (Enemy.x e + Enemy.width e / 2) in
  let dy := (Player.y p + Player.height p / 2)
            - (Enemy.y e + Enemy.height e / 2) in
  let dist := Math_sqrt host (dx * dx + dy * dy) in
  (Num.mul (Num.div dx dist) (Fin 3.5), Num.mul (Num.div dy dist) (Fin 3.5)).

Definition bossTargeted (e : Enemy.t) (w : World) : World :=
  let '(vx, vy) := targetedVelocity (player w) e in
  pushBullet
    (Bullet.mk
       (Fin (Enemy.x e + Enemy.width e / 2 - 3))
       (Fin (Enemy.y e + Enemy.height e - 10))
       8 8 3.5 byEnemy 25 (Some vx) (Some vy))
    w.

(** [Math.floor((adjustedTimestamp / 5000) % 3)] *)
Definition bossPattern (adjustedTimestamp : Q) : Z :=
  Qfloor (Qrem (adjustedTimestamp / 5000) 3).

(** Movement and shooting of one enemy; returns the enemy as mutated. *)
Definition enemyAct (adjustedTimestamp : Q) (e : Enemy.t) (w : World)
  : Enemy.t * World :=
  if isBoss (Enemy.type e) then
    let e :=
      if Qltb (Enemy.y e) 80
      then Enemy.set_y (Enemy.y e + Enemy.speed e) e
      else
        let e := Enemy.set_x
                   (Enemy.x e
                    + Math_sin host (adjustedTimestamp / 1000) * 1.5) e in
        Enemy.set_x
          (Qmax 20 (Qmin (CANVAS_WIDTH - Enemy.width e - 20) (Enemy.x e))) e in
    if Qgtb (adjustedTimestamp - Enemy.lastShot e) (Enemy.fireRate e) then
      let pattern := bossPattern adjustedTimestamp in
      let w :=
        if (pattern =? 0)%Z then bossSpread e w
        else if (pattern =? 1)%Z then bossCircle e w
        else bossTargeted e w in
      (Enemy.set_lastShot adjustedTimestamp e, play playEnemyShoot w)
    else (e, w)
  else
    let e := Enemy.set_y (Enemy.y e + Enemy.speed e) e in
    if Qgtb (adjustedTimestamp - Enemy.lastShot e) (Enemy.fireRate e) then
      let w :=
        pushBullet
          (Bullet.mk
             (Fin (Enemy.x e + Enemy.width e / 2 - 2))
             (Fin (Enemy.y e + Enemy.height e))
             4 10 1.8 byEnemy 10 None None)
          w in
      (Enemy.set_lastShot adjustedTimestamp e, play playEnemyShoot w)
    else (e, w).

(** The body contact of an enemy with the player. *)
Definition enemyContact (e : Enemy.t) (w : World) : Enemy.t * World :=
  let p := player w in
  if overlap (Player.x p) (Player.y p) (Player.width p) (Player.height p)
             (Enemy.x e) (Enemy.y e) (Enemy.width e) (Enemy.height e)
  then
    let hasShield := hasBuff shield (Player.activeBuffs p) in
    let w :=
      if hasShield then w
      else play playHit
             (set_player (Player.set_health (Player.health p - 20) p) w) in
    let e := Enemy.set_health 0 e in
    let w := createExplosion
               (Fin (Enemy.x e + Enemy.width e / 2))
               (Fin (Enemy.y e + Enemy.height e / 2))
               (if hasShield then "#4299e1" else "#ff9900") w in
    (e, if hasShield then w else play playExplosion w)
  else (e, w).

Definition award (ty : EnemyType) : Q :=
  match ty with boss => 5000 | heavy => 500 | _ => 100 end.

(** The removal test of an enemy, with the award of the score. *)
Definition enemyRemoval (adjustedTimestamp : Q)
           (e : Enemy.t) (index : nat) (w : World) : World :=
  if Qgtb (Enemy.y e) CANVAS_HEIGHT || Qle_bool (Enemy.health e) 0 then
    let w :=
      if Qle_bool (Enemy.health e) 0 then
        let p := player w in
        let w := set_player
                   (Player.set_score
                      (Player.score p + award (Enemy.type e)) p) w in
        let w := createExplosion
                   (Fin (Enemy.x e + Enemy.width e / 2))
                   (Fin (Enemy.y e + Enemy.height e / 2))
                   (if isBoss (Enemy.type e) then "#f59e0b" else "#ff9900")
                   w in
        play playExplosion w
      else w in
    let w :=
      if isBoss (Enemy.type e)
      then set_lastBossDefeatedTime (adjustedTimestamp - gameStartTime w) w
      else w in
    set_enemies (splice index (enemies w)) w
  else w.

Definition enemyStep (adjustedTimestamp : Q)
           (enemy : Enemy.t) (index : nat) (w : World) : World :=
  let '(e, w) := enemyAct adjustedTimestamp enemy w in
  let '(e, w) := enemyContact e w in
  let w := set_enemies (store index e (enemies w)) w in
  enemyRemoval adjustedTimestamp e index w.

Definition updateEnemies (adjustedTimestamp : Q) (w : World) : World :=
  forEach enemies (enemyStep adjustedTimestamp) w.

(** The test of one player bullet against one enemy, inside the inner
    [forEach]; the state is the bullet being updated and the world. *)
Definition bulletHitsEnemy (enemy : Enemy.t) (i : nat)
           (s : Bullet.t * World) : Bullet.t * World :=
  let '(bullet, w) := s in
  if overlapNum (Bullet.x bullet) (Bullet.y bullet)
                (Bullet.width bullet) (Bullet.height bullet)
                (Enemy.x enemy) (Enemy.y enemy)
                (Enemy.width enemy) (Enemy.height enemy)
  then
    let enemy := Enemy.set_health
                   (Enemy.health enemy - Bullet.damage bullet) enemy in
    let w := set_enemies (store i enemy (enemies w)) w in
    let bullet := Bullet.set_y (Fin (-100)) bullet in
    (bullet, createExplosion (Bullet.x bullet) (Bullet.y bullet) "#ffffff" w)
  else (bullet, w).

Definition bulletHitsPlayer (bullet : Bullet.t) (w : World)
  : Bullet.t * World :=
  let p := player w in
  if overlapNum (Bullet.x bullet) (Bullet.y bullet)
                (Bullet.width bullet) (Bullet.height bullet)
                (Player.x p) (Player.y p) (Player.width p) (Player.height p)
  then
    let hasShield := hasBuff shield (Player.activeBuffs p) in
    let w :=
      if hasShield then w
      else play playHit
             (set_player
                (Player.set_health
                   (Player.health p - Bullet.damage bullet) p) w) in
    let bullet := Bullet.set_y (Fin (CANVAS_HEIGHT + 100)) bullet in
    (bullet,
     createExplosion (Bullet.x bullet) (Bullet.y bullet)
                     (if hasShield then "#4299e1" else "#ff0000") w)
  else (bullet, w).

Definition moveBullet (bullet : Bullet.t) : Bullet.t :=
  match Bullet.vx bullet, Bullet.vy bullet with
  | Some vx, Some vy =>
      Bullet.set_y (Num.add (Bullet.y bullet) vy)
        (Bullet.set_x (Num.add (Bullet.x bullet) vx) bullet)
  | _, _ =>
      Bullet.set_y (Num.add (Bullet.y bullet) (Fin (Bullet.speed bullet)))
                   bullet
  end.

Definition bulletOut (bullet : Bullet.t) : bool :=
  Num.ltb (Bullet.y bullet) (Fin (-50))
  || Num.gtb (Bullet.y bullet) (Fin (CANVAS_HEIGHT + 50))
  || Num.ltb (Bullet.x bullet) (Fin (-50))
  || Num.gtb (Bullet.x bullet) (Fin (CANVAS_WIDTH + 50)).

Definition bulletStep (bullet : Bullet.t) (bIndex : nat) (w : World) : World :=
  let bullet := moveBullet bullet in
  let '(bullet, w) :=
    match Bullet.owner bullet with
    | byPlayer =>
        forEach (fun s => enemies (snd s)) bulletHitsEnemy (bullet, w)
    | byEnemy => bulletHitsPlayer bullet w
    end in
  let w := set_bullets (store bIndex bullet (bullets w)) w in
  if bulletOut bullet
  then set_bullets (splice bIndex (bullets w)) w
  else w.

Definition updateBullets (w : World) : World :=
  forEach bullets bulletStep w.

Definition particleStep (p : Particle.t) (index : nat) (w : World) : World :=
  let p := Particle.set_x (Num.add (Particle.x p) (Fin (Particle.vx p))) p in
  let p := Particle.set_y (Num.add (Particle.y p) (Fin (Particle.vy p))) p in
  let p := Particle.set_life (Particle.life p - 0.02) p in
  let w := set_particles (store index p (particles w)) w in
  if Qle_bool (Particle.life p) 0
  then set_particles (splice index (particles w)) w
  else w.

Definition updateParticles (w : World) : World :=
  forEach particles particleStep w.

Definition updateBackground (w : World) : World :=
  set_backgroundOffset (Qrem (backgroundOffset w + 0.3) CANVAS_HEIGHT) w.

(** The reconciliation of the progression when the player is dead. *)
Definition checkGameOver (w : World) : World :=
  let p := player w in
  if Qle_bool (Player.health p) 0 then
    let prev := gameState w in
    let newScore := Player.score p in
    let newHighScore := Num.max (highScore prev) (Fin newScore) in
    let newTotalCurrency := Num.add (totalCurrency prev) (Fin newScore) in
    let w := set_storage
               (storage w ++
                  [("1942_highScore", StoredNum newHighScore);
                   ("1942_currency", StoredNum newTotalCurrency)]) w in
    set_gameState
      (mkGameState gameover newScore newHighScore newTotalCurrency
                   (ownedPlanes prev) (selectedPlane prev)
                   (countdownValue prev))
      w
  else w.

Definition updateHud (adjustedTimestamp : Q) (w : World) : World :=
  let p := player w in
  let activeBoss := find (fun e => isBoss (Enemy.type e)) (enemies w) in
  set_hud
    (Hud.mk (Player.health p) (Player.score p)
            (Qfloor ((adjustedTimestamp - gameStartTime w) / 1000))
            (Player.activeBuffs p)
            (match activeBoss with
             | Some b => Some (Enemy.health b, Enemy.maxHealth b)
             | None => None
             end))
    w.

(** The body of [update] after the status tests: everything below reads
    the time through [adjustedTimestamp] only. *)
Definition tick (adjustedTimestamp : Q) (w : World) : World :=
  let w := movePlayer w in
  let w := shoot adjustedTimestamp w in
  let w := spawnEnemy adjustedTimestamp w in
  let w := spawnPowerUp adjustedTimestamp w in
  let w := spawnBoss adjustedTimestamp w in
  let w := updateBuffs adjustedTimestamp w in
  let w := updatePowerUps adjustedTimestamp w in
  let w := updateEnemies adjustedTimestamp w in
  let w := updateBullets w in
  let w := updateParticles w in
  let w := updateBackground w in
  let w := checkGameOver w in
  updateHud adjustedTimestamp w.

(** *** [update], [resetGame], [togglePause] *)

(** One animation frame: the timestamp handed to the callback and the
    three readings of [performance.now()] that the countdown branch
    makes, in program order. *)
Record Frame : Type := mkFrame {
  timestamp : Q;
  now1 : Q;
  now2 : Q;
  now3 : Q
}.

(** [timestamp - totalPausedTimeRef.current]; the fraction is kept in
    lowest terms, a number having one representation. *)
Definition adjusted (timestamp : Q) (w : World) : Q :=
  Qred (Number_value host (timestamp - totalPausedTime w)).

Definition countdownSeconds (now : Q) (w : World) : Z :=
  (3 - Qfloor ((now - (pauseStartTime w + 500)) / 1000))%Z.

(** The [update] that the render loop calls is the one of the render in
    which the status last changed (the effect that starts the loop depends
    on [gameState.status] alone).  Its [gameState.status] is the current
    status; during a countdown its [gameState.countdownValue] is the 3 that
    [togglePause] wrote with the status, whatever digit has been written
    since. *)
Definition update (f : Frame) (w : World) : World :=
  match status (gameState w) with
  | paused => w
  | countdown =>
      let elapsedSincePause := now1 f - pauseStartTime w in
      let cs := countdownSeconds (now2 f) w in
      if (cs <=? 0)%Z then
        let w := set_totalPausedTime
                   (Number_value host
                      (totalPausedTime w
                       + Number_value host (now3 f - pauseStartTime w))) w in
        set_gameState (gs_set_status playing (gameState w)) w
      else if (cs =? 3)%Z then w
      else set_gameState (gs_set_countdownValue (Some cs) (gameState w)) w
  | playing => tick (adjusted (timestamp f) w) w
  | menu | gameover | shop => w
  end.

(** [PLANES.find(p => p.id === gameState.selectedPlane) || PLANES[0]] *)
Definition selectedPlaneData (g : GameState) : PlaneData :=
  match find (fun p => String.eqb (pd_id p) (selectedPlane g)) PLANES with
  | Some d => d
  | None => mkPlaneData "standard" "P-38 Lightning"
              "Balanced standard fighter." 0 100 2.5 200 "#1d4ed8"
  end.

Definition resetGame (now : Q) (w : World) : World :=
  let planeData := selectedPlaneData (gameState w) in
  let w := set_player
             (Player.mk (CANVAS_WIDTH / 2 - 20) (CANVAS_HEIGHT - 80) 40 40
                (pd_speed planeData) (pd_id planeData)
                (pd_health planeData) (pd_health planeData) 0 0
                (pd_fireRate planeData) []) w in
  let w := set_enemies [] w in
  let w := set_bullets [] w in
  let w := set_powerUps [] w in
  let w := set_particles [] w in
  let w := set_gameStartTime now w in
  let w := set_lastBossDefeatedTime 0 w in
  let w := set_bossCount 0%Z w in
  let w := set_totalPausedTime 0 w in
  let g := gameState w in
  let w := set_gameState
             (mkGameState playing 0 (highScore g) (totalCurrency g)
                (ownedPlanes g) (selectedPlane g) (countdownValue g)) w in
  set_hud (Hud.mk (pd_health planeData) 0 0%Z [] None) w.

Definition togglePause (now : Q) (w : World) : World :=
  match status (gameState w) with
  | playing =>
      set_gameState (gs_set_status paused (gameState w))
                    (set_pauseStartTime now w)
  | paused =>
      set_gameState
        (gs_set_countdownValue (Some 3%Z)
           (gs_set_status countdown (gameState w))) w
  | _ => w
  end.

(** *** Runs *)

(** What reaches the component: animation frames, key events, and the
    clicks on the buttons that the current status renders. *)
Inductive Event : Type :=
| AnimationFrame (f : Frame)
| KeyDown (code : string)
| KeyUp (code : string)
| ClickPause (now : Q)
| ClickStart (now : Q)
| ClickMenu
| ClickShop
| ClickCard (plane : PlaneData).

Definition setKey (code : string) (v : bool) (w : World) : World :=
  set_keys (fun c => if String.eqb c code then v else keys w c) w.

Definition step (ev : Event) (w : World) : World :=
  let st := status (gameState w) in
  match ev with
  | AnimationFrame f => update f w
  | KeyDown code => setKey code true w
  | KeyUp code => setKey code false w
  | ClickPause now =>
      match st with
      | playing | paused => togglePause now w
      | _ => w
      end
  | ClickStart now =>
      match st with
      | menu | gameover => resetGame now w
      | _ => w
      end
  | ClickMenu =>
      match st with
      | paused | shop => set_gameState (gs_set_status menu (gameState w)) w
      | _ => w
      end
  | ClickShop =>
      match st with
      | menu => set_gameState (gs_set_status shop (gameState w)) w
      | _ => w
      end
  | ClickCard plane =>
      match st with
      | shop =>
          let '(g, out) := Shop.cardClick plane (gameState w) in
          set_storage (storage w ++ out) (set_gameState g w)
      | _ => w
      end
  end.

Definition run (evs : list Event) (w : World) : World :=
  fold_left (fun w ev => step ev w) evs w.

End Simulation.

(** The refs and the React state as the first render creates them. *)
Definition initWorld (g : GameState) : World :=
  mkWorld g (Hud.mk 100 0 0%Z [] None)
    (Player.mk (CANVAS_WIDTH / 2 - 20) (CANVAS_HEIGHT - 80) 40 40 2.5
       "standard" 100 100 0 0 250 [])
    [] [] [] [] (fun _ => false) 0 0 0 0%Z 0 0 0 0 O [] [].

(** ** A host to run the model on *)

Module RefHost.

(** The square root rounded up to a multiple of [1 / (10^6 * den)]; exact
    at zero and on the squares of such multiples. *)
Definition sqrt (q : Q) : Q :=
  let d := Zpos (Qden q) in
  (Z.sqrt_up (Qnum q * d * 1000000000000) # (Qden q * 1000000)).

Definition PI : Q := 355 # 113.

(** The argument brought back to [[-PI, PI]]. *)
Definition reduce (x : Q) : Q :=
  x - 2 * PI * inject_Z (Qfloor ((x + PI) / (2 * PI))).

(** Sine and cosine by their Taylor polynomials of degree 9 and 8. *)
Definition sin (x : Q) : Q :=
  let y := Qred (reduce x) in
  let y2 := Qred (y * y) in
  Qred (y * (1 - y2 / 6 * (1 - y2 / 20 * (1 - y2 / 42 * (1 - y2 / 72))))).

Definition cos (x : Q) : Q :=
  let y := Qred (reduce x) in
  let y2 := Qred (y * y) in
  Qred (1 - y2 / 2 * (1 - y2 / 12 * (1 - y2 / 30 * (1 - y2 / 56)))).

(** A fixed sequence of draws. *)
Definition random (n : nat) : Unit01 :=
  mkUnit01 (N.of_nat (7 * n + 3)) 16.

(** A host of exact arithmetic: every real is its own Number value. *)
Definition host : Host := mkHost sin cos sqrt PI random (fun x => x).

(** [2^e <= q < 2^(e + 1)] for a positive [q]. *)
Definition exponent (q : Q) : Z :=
  let e := (Z.log2 (Qnum q) - Z.log2 (Zpos (Qden q)))%Z in
  if Qle_bool (Qpower 2 e) q then e else (e - 1)%Z.

(** The nearest integer, the even one of two that are equally near. *)
Definition roundEven (q : Q) : Z :=
  let f := Qfloor q in
  let r := q - inject_Z f in
  if Qltb r (1 # 2) then f
  else if Qltb (1 # 2) r then (f + 1)%Z
  else if Z.even f then f else (f + 1)%Z.

(** The binary64 number nearest to [q], ties to even: 53 significant bits.
    Overflow and the subnormal range are left out, the readings of a clock
    in milliseconds being far from both. *)
Definition binary64 (q : Q) : Q :=
  if Qeq_bool q 0 then 0
  else
    let a := Qabs q in
    let ulp := Qpower 2 (exponent a - 52) in
    let m := inject_Z (roundEven (a / ulp)) * ulp in
    Qred (if Qltb q 0 then - m else m).

(** The same host with the arithmetic of the pause clock in binary64. *)
Definition host64 : Host := mkHost sin cos sqrt PI random binary64.

End RefHost.


(** * Vocabulary of the properties

    Nothing below is part of the program: these are the notions that the
    statements about it are written in. *)

Module PersistFacts.

(** An entry that [getItem] reports as [null], or an empty string. *)
Definition absent (v : option string) : Prop := v = None \/ v = Some "".

End PersistFacts.

Section Vocabulary.

Variable host : Host.

(** *** The targeted shot *)

(** The two hypotheses on the square root of the host that the targeted
    shot depends on. *)
Definition sqrt_zero : Prop :=
  forall x, x == 0 -> Math_sqrt host x == 0.

Definition sqrt_positive : Prop :=
  forall x, 0 < x -> 0 < Math_sqrt host x.

(** The vector from the centre of the enemy to the centre of the player,
    and its length. *)
Definition centerDx (p : Player.t) (e : Enemy.t) : Q :=
  (Player.x p + Player.width p / 2) - (Enemy.x e + Enemy.width e / 2).

Definition centerDy (p : Player.t) (e : Enemy.t) : Q :=
  (Player.y p + Player.height p / 2) - (Enemy.y e + Enemy.height e / 2).

Definition centerDist (p : Player.t) (e : Enemy.t) : Q :=
  Math_sqrt host
    (centerDx p e * centerDx p e + centerDy p e * centerDy p e).

(** *** Explosions *)

(** The value of the [n]-th draw. *)
Definition rv (n : nat) : Q := unitValue (Math_random host n).

(** The particle made from the three draws that start at draw [n]. *)
Definition spark (x y : num) (color : string) (n : nat) : Particle.t :=
  Particle.mk x y ((rv n - 0.5) * 6) ((rv (S n) - 0.5) * 6) 1 color
              (rv (S (S n)) * 4 + 2).

(** The [k] particles made from the draws that start at draw [n]. *)
Fixpoint sparks (x y : num) (color : string) (n k : nat)
  : list Particle.t :=
  match k with
  | O => []
  | S k' => sparks x y color n k' ++ [spark x y color (3 * k' + n)]
  end.

(** *** The pause clock *)

(** The world with another pause clock and another React state. *)
Definition outside (ps tp : Q) (g : GameState) (w : World) : World :=
  set_pauseStartTime ps (set_totalPausedTime tp (set_gameState g w)).

Definition outside2 (ps tp : Q) (g : GameState) (s : Bullet.t * World)
  : Bullet.t * World :=
  (fst s, outside ps tp g (snd s)).

(** The phases of [tick] before the test of the end of the run. *)
Definition simulate (a : Q) (w : World) : World :=
  updateBackground
    (updateParticles
       (updateBullets host
          (updateEnemies host a
             (updatePowerUps host a
                (updateBuffs a
                   (spawnBoss a
                      (spawnPowerUp host a
                         (spawnEnemy host a (shoot a (movePlayer w)))))))))).

(** The world with another pause clock and another countdown digit. *)
Definition reclock (ps tp : Q) (cv : option Z) (w : World) : World :=
  outside ps tp (gs_set_countdownValue cv (gameState w)) w.

(** What two worlds must share to be in the same state of play: everything
    but the pause clock and the countdown digit. *)
Definition gameplay (w : World) : World := reclock 0 0 None w.

(** An event that happens [d] later on the wall clock. *)
Definition shiftFrame (d : Q) (f : Frame) : Frame :=
  mkFrame (timestamp f + d) (now1 f + d) (now2 f + d) (now3 f + d).

Definition shiftEvent (d : Q) (ev : Event) : Event :=
  match ev with
  | AnimationFrame f => AnimationFrame (shiftFrame d f)
  | ClickPause now => ClickPause (now + d)
  | ClickStart now => ClickStart (now + d)
  | KeyDown _ | KeyUp _ | ClickMenu | ClickShop | ClickCard _ => ev
  end.

(** A host on which the arithmetic of the pause clock is exact. *)
Definition exactClock : Prop := forall x : Q, Number_value host x = x.

(** The events that do not begin another run. *)
Definition keepsRun (ev : Event) : Prop :=
  match ev with ClickStart _ => False | _ => True end.

Definition pausing (w : World) : Prop :=
  status (gameState w) = paused \/ status (gameState w) = countdown.

(** Two worlds in the same state of play, whose wall clocks read [d1] and
    [d2] at the same moment of the play. *)
Definition sameRun (d1 d2 : Q) (w1 w2 : World) : Prop :=
  gameplay w1 = gameplay w2
  /\ totalPausedTime w1 - d1 == totalPausedTime w2 - d2
  /\ (pausing w1 -> pauseStartTime w1 - d1 == pauseStartTime w2 - d2).

(** *** The visits of the loops *)

(** What the shot of an enemy adds: bullets at the end of the array and
    cues; the rest of the world is as before. *)
Definition addsShots (w w' : World) : Prop :=
  exists bs cs, w' = set_cues (cues w ++ cs) (set_bullets (bullets w ++ bs) w).

(** The enemy as its own visit leaves it: moved, then zeroed by a contact. *)
Definition enemyAfter (t : Q) (a : Enemy.t) (w : World) : Enemy.t :=
  fst (enemyContact host (fst (enemyAct host t a w)) (snd (enemyAct host t a w))).

(** The removal test of the enemy loop. *)
Definition enemyGone (e : Enemy.t) : bool :=
  Qgtb (Enemy.y e) CANVAS_HEIGHT || Qle_bool (Enemy.health e) 0.

(** The bullet and the world after the move and the collision tests of the
    visit of [b]. *)
Definition bulletResolved (b : Bullet.t) (w : World) : Bullet.t * World :=
  match Bullet.owner (moveBullet b) with
  | byPlayer =>
      forEach (fun s => enemies (snd s)) (bulletHitsEnemy host) (moveBullet b, w)
  | byEnemy => bulletHitsPlayer host (moveBullet b) w
  end.

Definition bulletAfter (b : Bullet.t) (w : World) : Bullet.t :=
  fst (bulletResolved b w).

(** The power-up after its move, and the two removal tests of its visit. *)
Definition powerUpMoved (pu : PowerUp.t) : PowerUp.t :=
  PowerUp.set_y (PowerUp.y pu + PowerUp.speed pu) pu.

Definition powerUpTaken (pu : PowerUp.t) (w : World) : bool :=
  let p := player w in
  overlap (Player.x p) (Player.y p) (Player.width p) (Player.height p)
          (PowerUp.x (powerUpMoved pu)) (PowerUp.y (powerUpMoved pu))
          (PowerUp.width (powerUpMoved pu)) (PowerUp.height (powerUpMoved pu)).

Definition powerUpOut (pu : PowerUp.t) : bool :=
  Qgtb (PowerUp.y (powerUpMoved pu)) CANVAS_HEIGHT.

(** *** Buffs *)

Definition buffsOf (w : World) : list Buff.t := Player.activeBuffs (player w).

(** At most one entry per buff type. *)
Definition oneEntryPerType (w : World) : Prop :=
  NoDup (map Buff.type (buffsOf w)).

(** Every expiry was set at adjusted time [T] or before. *)
Definition expiriesBy (T : Q) (w : World) : Prop :=
  forall b, In b (buffsOf w) -> Buff.endTime b <= T + 10000.

End Vocabulary.

(** A world one frame before its end: a player with 10 health left, a basic
    enemy with 10 health left, a player bullet about to hit the enemy, a
    bullet far from everything, and an enemy bullet about to hit the
    player. *)
Definition lastFrameWorld : World :=
  let e := Enemy.mk 100 100 40 40 1.0 basic 10 20 5000 2500 in
  let p := Player.mk 220 560 40 40 2.5 "standard" 10 100 0 0 200 [] in
  let b1 := Bullet.mk (Fin 110) (Fin 110) 4 12 (-4.0) byPlayer 10 None None in
  let b2 := Bullet.mk (Fin 400) (Fin 300) 4 10 1.8 byEnemy 10 None None in
  let b3 := Bullet.mk (Fin 230) (Fin 570) 4 10 1.8 byEnemy 10 None None in
  set_lastEnemySpawn 5000
    (set_lastPowerUpSpawn 5000
       (set_bullets [b1; b2; b3]
          (set_enemies [e]
             (set_player p
                (initWorld (mkGameState playing 0 (Fin 0) (Fin 0)
                              ["standard"] "standard" None)))))).

(** *** Further notions *)

(** Everything that [update] may touch outside of play: the React state
    and the accumulator. *)
Definition entities (w : World) :=
  (player w, enemies w, bullets w, powerUps w, particles w,
   (lastEnemySpawn w, lastPowerUpSpawn w, lastBossDefeatedTime w, bossCount w),
   (gameStartTime w, backgroundOffset w, randomCalls w, cues w, storage w, hud w)).

(** The interval between two spawns of an enemy, as [spawnEnemy] computes
    it. *)
Definition spawnInterval (timestamp : Q) (w : World) : Q :=
  3000 - Qmin ((timestamp - gameStartTime w) / 120000) 1 * 2200.

(** The number of bosses in a collection. *)
Definition countBoss (l : list Enemy.t) : nat :=
  List.length (filter (fun e => isBoss (Enemy.type e)) l).

(** The test that gates a shot of the player. *)
Definition fires (t : Q) (w : World) : bool :=
  held w "Space"
  && Qgtb (t - Player.lastShot (player w))
          (if hasBuff rapidFire (Player.activeBuffs (player w))
           then Player.fireRate (player w) / 2
           else Player.fireRate (player w)).

(** Where the player is and how large it is. *)
Definition placeOf (w : World) : Q * Q * Q * Q :=
  (Player.x (player w), Player.y (player w),
   Player.width (player w), Player.height (player w)).

Definition inField (w : World) : Prop :=
  let p := player w in
  0 <= Player.x p /\ Player.x p <= CANVAS_WIDTH - Player.width p
  /\ 0 <= Player.y p /\ Player.y p <= CANVAS_HEIGHT - Player.height p.

Definition fitsField (w : World) : Prop :=
  Player.width (player w) <= CANVAS_WIDTH
  /\ Player.height (player w) <= CANVAS_HEIGHT.

Definition healthOf (w : World) : Q := Player.health (player w).

Definition shielded (w : World) : Prop :=
  hasBuff shield (Player.activeBuffs (player w)) = true.

Definition scoreOf (w : World) : Q := Player.score (player w).

(** A string of decimal digits. *)
Fixpoint allDigits (s : string) : Prop :=
  match s with
  | EmptyString => True
  | String c r => (exists d, (0 <= d < 10)%Z /\ c = Decimal.digitChar d) /\ allDigits r
  end.

(** The part of [parseInt] after the sign. *)
Definition unsigned (sign : Z) (s2 : string) : num :=
  let '(radix, s3) :=
    match s2 with
    | String "0" (String "x" r) | String "0" (String "X" r) => (16%Z, r)
    | _ => (10%Z, s2)
    end in
  match Persist.digits radix s3 None with
  | Some n => Fin (inject_Z (sign * n))
  | None => NaN
  end.

(** What is carried from one run to the next: the crafts owned are kept
    and a finite high score does not go down. *)
Definition keepsProgress (g g' : GameState) : Prop :=
  (exists more, ownedPlanes g' = ownedPlanes g ++ more)
  /\ (forall h, highScore g = Fin h ->
                exists h', highScore g' = Fin h' /\ h <= h').

(** A currency that is a number and not a debt. *)
Definition solvent (g : GameState) : Prop :=
  exists c, totalCurrency g = Fin c /\ 0 <= c.

(** The state in which no debt can arise: a currency that is a number and
    not negative, and a score that is not negative. *)
Definition sound (w : World) : Prop :=
  solvent (gameState w) /\ 0 <= scoreOf w.

(** The changes of status that one event can make. *)
Definition follows (s s' : Status) : bool :=
  match s, s' with
  | menu, (menu | playing | shop) => true
  | shop, (shop | menu) => true
  | playing, (playing | paused | gameover) => true
  | paused, (paused | countdown | menu) => true
  | countdown, (countdown | playing) => true
  | gameover, (gameover | playing) => true
  | _, _ => false
  end.

(** The React state of a first visit, in a given status. *)
Definition freshState (s : Status) : GameState :=
  mkGameState s 0 (Fin 0) (Fin 0) ["standard"] "standard" None.

(** A player under a shield that lasts until 12000. *)
Definition shieldedWorld : World :=
  set_player
    (Player.mk 220 560 40 40 2.5 "standard" 100 100 0 0 250
       [Buff.mk shield 12000])
    (initWorld (freshState playing)).

(** * Properties *)

(** ** Comparisons, maximum and minimum *)

Lemma Qltb_lt x y : Qltb x y = true <-> x < y.
Proof.
  unfold Qltb. rewrite negb_true_iff, <- not_true_iff_false, Qle_bool_iff.
  split; [apply Qnot_le_lt | apply Qlt_not_le].
Qed.

Lemma Qltb_ge x y : Qltb x y = false <-> y <= x.
Proof.
  unfold Qltb. rewrite negb_false_iff. apply Qle_bool_iff.
Qed.

Lemma Qmax_lub_l x y : x <= Qmax x y.
Proof.
  unfold Qmax. destruct (Qle_bool x y) eqn:E.
  - now apply Qle_bool_iff.
  - apply Qle_refl.
Qed.

Lemma Qmin_glb_l x y : Qmin x y <= x.
Proof.
  unfold Qmin. destruct (Qle_bool x y) eqn:E.
  - apply Qle_refl.
  - apply Qlt_le_weak, Qltb_lt. unfold Qltb. now rewrite E.
Qed.

Lemma Qmax_case x y : Qmax x y = x \/ Qmax x y = y.
Proof. unfold Qmax. destruct (Qle_bool x y); auto. Qed.

Lemma Qmin_case x y : Qmin x y = x \/ Qmin x y = y.
Proof. unfold Qmin. destruct (Qle_bool x y); auto. Qed.


(** ** Start-up from persisted values *)

Module PersistProofs.
Import Persist.
Import PersistFacts.


Lemma ifTruthy_absent {A : Type} (v : option string) (f : string -> A) (d : A) :
  absent v -> ifTruthy v f d = d.
Proof. intros [-> | ->]; reflexivity. Qed.

Lemma ifTruthy_present {A : Type} (s : string) (f : string -> A) (d : A) :
  s <> "" -> ifTruthy (Some s) f d = f s.
Proof. destruct s; [congruence | reflexivity]. Qed.

(** There is no handler around [JSON.parse]: when it throws on the stored
    list, the initialiser throws. *)
Lemma init_throws_with_parse (parse : string -> option (list PlaneType))
      (sv : Saved) (s : string) :
  savedPlanes sv = Some s -> s <> "" -> parse s = None ->
  initGameState parse sv = None.
Proof.
  intros Hs Hne Hp. unfold initGameState.
  rewrite Hs, (ifTruthy_present s _ _ Hne), Hp. reflexivity.
Qed.

(** A stored craft id is taken as it is. *)
Lemma init_selected_unchecked (parse : string -> option (list PlaneType))
      (sv : Saved) (s : string) (g : GameState) :
  savedSelected sv = Some s -> s <> "" ->
  initGameState parse sv = Some g -> selectedPlane g = s.
Proof.
  intros Hs Hne. unfold initGameState.
  rewrite Hs, (ifTruthy_present s _ _ Hne).
  destruct (ifTruthy (savedPlanes sv) parse _); [|discriminate].
  intros [= <-]. reflexivity.
Qed.

End PersistProofs.

(** C4, as stated, fails: with the non-numeric high score ["abc"] (and the
    three other entries missing, so that [JSON.parse] is not called) the
    initialiser does not throw, and the high score of the state it builds is
    NaN, the value of [parseInt], and not the default 0. *)
Lemma C4_nonnumeric_high_score_is_NaN :
  option_map highScore
    (Persist.initGameState (fun _ => None)
       (Persist.mkSaved (Some "abc") None None None)) = Some NaN
  /\ option_map highScore
       (Persist.initGameState (fun _ => None)
          (Persist.mkSaved (Some "abc") None None None)) <> Some (Fin 0).
Proof.
  split; [reflexivity | discriminate].
Qed.

(** C4, amended.  The initialiser guards each of the four entries on its
    own, by truthiness alone, and there is no handler around it.
    - Whenever it returns, the state is in the menu with score 0, and each
      entry that is missing or empty has its default: high score 0,
      currency 0, owned crafts [standard] alone, selected craft standard;
      a stored number is what [parseInt] makes of it (NaN without a leading
      digit), a stored list of crafts is what [JSON.parse] makes of it, and
      a stored craft id is taken as it is, unchecked.
    - It throws exactly when the list of owned crafts is stored and
      [JSON.parse] throws on it.
    - So with that entry missing or empty it returns, whatever the three
      others hold. *)
Theorem C4_defaults_for_missing_entries :
  forall (parse : string -> option (list PlaneType)) (sv : Persist.Saved),
    (forall g,
        Persist.initGameState parse sv = Some g ->
        status g = menu /\ gs_score g = 0 /\ countdownValue g = None
        /\ (PersistFacts.absent (Persist.savedHighScore sv) ->
            highScore g = Fin 0)
        /\ (forall s, Persist.savedHighScore sv = Some s -> s <> "" ->
                      highScore g = Persist.parseInt s)
        /\ (PersistFacts.absent (Persist.savedCurrency sv) ->
            totalCurrency g = Fin 0)
        /\ (forall s, Persist.savedCurrency sv = Some s -> s <> "" ->
                      totalCurrency g = Persist.parseInt s)
        /\ (PersistFacts.absent (Persist.savedPlanes sv) ->
            ownedPlanes g = ["standard"])
        /\ (forall s, Persist.savedPlanes sv = Some s -> s <> "" ->
                      parse s = Some (ownedPlanes g))
        /\ (PersistFacts.absent (Persist.savedSelected sv) ->
            selectedPlane g = "standard")
        /\ (forall s, Persist.savedSelected sv = Some s -> s <> "" ->
                      selectedPlane g = s))
    /\ (Persist.initGameState parse sv = None
        <-> exists s, Persist.savedPlanes sv = Some s /\ s <> ""
                      /\ parse s = None)
    /\ (PersistFacts.absent (Persist.savedPlanes sv) ->
        exists g, Persist.initGameState parse sv = Some g).
Proof.
  intros parse [hs cur pl sel]. unfold Persist.initGameState.
  cbn [Persist.savedHighScore Persist.savedCurrency Persist.savedPlanes
       Persist.savedSelected].
  split; [|split].
  - intros g Hg.
    assert (Ho : Persist.ifTruthy pl parse (Some ["standard"])
                 = Some (ownedPlanes g)).
    { destruct (Persist.ifTruthy pl parse _); [|discriminate].
      injection Hg as <-. reflexivity. }
    rewrite Ho in Hg. injection Hg as <-.
    cbn [status gs_score countdownValue highScore totalCurrency ownedPlanes
         selectedPlane] in *.
    split; [reflexivity|]. split; [reflexivity|]. split; [reflexivity|].
    split; [intros H; now rewrite PersistProofs.ifTruthy_absent|].
    split; [intros s [= ->] Hne; now rewrite PersistProofs.ifTruthy_present|].
    split; [intros H; now rewrite PersistProofs.ifTruthy_absent|].
    split; [intros s [= ->] Hne; now rewrite PersistProofs.ifTruthy_present|].
    split.
    { intros H. rewrite PersistProofs.ifTruthy_absent in Ho by exact H.
      now injection Ho as <-. }
    split.
    { intros s [= ->] Hne.
      now rewrite PersistProofs.ifTruthy_present in Ho by exact Hne. }
    split; [intros H; now rewrite PersistProofs.ifTruthy_absent|].
    intros s [= ->] Hne. now rewrite PersistProofs.ifTruthy_present.
  - split.
    + intros H. destruct pl as [[|c r]|]; cbn in H; try discriminate H.
      exists (String c r). split; [reflexivity|]. split; [discriminate|].
      destruct (parse (String c r)); [discriminate H | reflexivity].
    + intros (s & [= ->] & Hne & Hp).
      rewrite (PersistProofs.ifTruthy_present s _ _ Hne), Hp. reflexivity.
  - intros H. rewrite (PersistProofs.ifTruthy_absent _ parse _ H).
    eexists. reflexivity.
Qed.

(** The high score is missing, the currency and the selected craft are
    empty, and the list of crafts is not stored. *)
Lemma C4_defaults_for_missing_entries_witness :
  exists g,
    Persist.initGameState (fun _ => None)
      (Persist.mkSaved None (Some "") None (Some "")) = Some g
    /\ highScore g = Fin 0 /\ totalCurrency g = Fin 0
    /\ ownedPlanes g = ["standard"] /\ selectedPlane g = "standard".
Proof.
  destruct (C4_defaults_for_missing_entries (fun _ => None)
              (Persist.mkSaved None (Some "") None (Some "")))
    as (Hret & _ & Hex).
  destruct Hex as [g Hg]; [left; reflexivity|].
  destruct (Hret g Hg) as (_ & _ & _ & Hh & _ & Hc & _ & Ho & _ & Hs & _).
  exists g. split; [exact Hg|].
  split; [apply Hh; left; reflexivity|].
  split; [apply Hc; right; reflexivity|].
  split; [apply Ho; left; reflexivity|].
  apply Hs. right; reflexivity.
Defined.

(** ** The hangar *)

Module ShopFacts.
Import Shop.

Lemma cardClick_owned (plane : PlaneData) (g : GameState) :
  isOwned g plane = true -> cardClick plane g = selectClick plane g.
Proof. unfold cardClick. now intros ->. Qed.

Lemma cardClick_purchase (plane : PlaneData) (g : GameState) :
  isOwned g plane = false -> canAfford g plane = true ->
  cardClick plane g = purchaseClick plane g.
Proof. unfold cardClick. now intros -> ->. Qed.

Lemma cardClick_locked (plane : PlaneData) (g : GameState) :
  isOwned g plane = false -> canAfford g plane = false ->
  cardClick plane g = (g, []).
Proof. unfold cardClick. now intros -> ->. Qed.

(** A purchase needs a finite (or positively infinite) balance. *)
Lemma canAfford_not_NaN (plane : PlaneData) (g : GameState) :
  canAfford g plane = true -> totalCurrency g <> NaN.
Proof.
  unfold canAfford, Num.geb, Num.leb. destruct (totalCurrency g); congruence.
Qed.

End ShopFacts.

(** C9.  For every craft and every state of the shop, the click on the
    card of the craft
    - buys it when it is not owned and the currency covers its price: the
      currency becomes the currency minus the listed price, the owned list
      becomes the old list followed by this one id, the craft is selected,
      and nothing else changes;
    - selects it when it is already owned: the purchase code is not
      reached, currency and owned list are unchanged;
    - changes nothing and stores nothing when it is not owned and the
      currency does not cover its price. *)
Theorem C9_purchase_round_trip :
  forall (plane : PlaneData) (g : GameState),
    (Shop.isOwned g plane = false -> Shop.canAfford g plane = true ->
     let g' := fst (Shop.cardClick plane g) in
     totalCurrency g' = Num.sub (totalCurrency g) (Fin (pd_price plane))
     /\ (forall c, totalCurrency g = Fin c ->
                   totalCurrency g' = Fin (c - pd_price plane))
     /\ ownedPlanes g' = ownedPlanes g ++ [pd_id plane]
     /\ List.length (ownedPlanes g') = S (List.length (ownedPlanes g))
     /\ selectedPlane g' = pd_id plane
     /\ status g' = status g /\ gs_score g' = gs_score g
     /\ highScore g' = highScore g)
    /\ (Shop.isOwned g plane = true ->
        Shop.cardClick plane g = Shop.selectClick plane g
        /\ totalCurrency (fst (Shop.cardClick plane g)) = totalCurrency g
        /\ ownedPlanes (fst (Shop.cardClick plane g)) = ownedPlanes g)
    /\ (Shop.isOwned g plane = false -> Shop.canAfford g plane = false ->
        Shop.cardClick plane g = (g, [])).
Proof.
  intros plane g. split; [|split].
  - intros Ho Ha. rewrite (ShopFacts.cardClick_purchase _ _ Ho Ha).
    unfold Shop.purchaseClick. rewrite Ha. cbn.
    repeat split.
    + intros c ->. reflexivity.
    + rewrite length_app. cbn. lia.
  - intros Ho. rewrite (ShopFacts.cardClick_owned _ _ Ho). auto.
  - intros Ho Ha. apply ShopFacts.cardClick_locked; assumption.
Qed.

(** The [light] craft (5000) bought with 6200 in the bank. *)
Lemma C9_purchase_round_trip_witness :
  let g := mkGameState shop 0 (Fin 0) (Fin 6200) ["standard"] "standard" None in
  let plane := mkPlaneData "light" "Swift Interceptor"
                 "High speed, lower health." 5000 70 3.8 150 "#10b981" in
  totalCurrency (fst (Shop.cardClick plane g)) = Fin (6200 - 5000)
  /\ ownedPlanes (fst (Shop.cardClick plane g)) = ["standard"; "light"].
Proof.
  intros g plane.
  destruct (C9_purchase_round_trip plane g) as [Hbuy _].
  destruct (Hbuy eq_refl eq_refl) as (_ & Hc & Ho & _).
  split; [apply Hc; reflexivity | exact Ho].
Defined.

(** ** The spawner *)

Section SpawnFacts.

Variable host : Host.

Lemma bossActive_true_iff (w : World) :
  bossActive w = true <->
  exists e, In e (enemies w) /\ Enemy.type e = boss.
Proof.
  unfold bossActive. rewrite existsb_exists. split.
  - intros (e & Hin & Hb). exists e. split; [assumption|].
    destruct (Enemy.type e); cbn in Hb; congruence.
  - intros (e & Hin & Hb). exists e. split; [assumption|]. now rewrite Hb.
Qed.

Lemma spawnPowerUp_enemies (t : Q) (w : World) :
  enemies (spawnPowerUp host t w) = enemies w.
Proof.
  unfold spawnPowerUp. destruct (Qgtb _ _); reflexivity.
Qed.

(** What [spawnEnemy] can do to the enemies: nothing, or one more enemy
    at the end, which is not a boss and enters a field without boss. *)
Lemma spawnEnemy_enemies (t : Q) (w : World) :
  enemies (spawnEnemy host t w) = enemies w
  \/ exists e, enemies (spawnEnemy host t w) = enemies w ++ [e]
               /\ Enemy.type e <> boss /\ bossActive w = false.
Proof.
  unfold spawnEnemy. destruct (bossActive w) eqn:Hb; [now left|].
  destruct (Qgtb _ _); [|now left].
  right. cbn. eexists. split; [reflexivity|]. split; [|reflexivity].
  cbn. unfold pickEnemyType.
  destruct (Qfloor _) as [|[| |]|]; discriminate.
Qed.

End SpawnFacts.

(** C6.  While an enemy of type boss is in the collection, [spawnEnemy]
    leaves the world as it is, for every timestamp and every value of the
    spawn timer, and the enemies after the three spawn calls of the tick are
    the enemies before them.  Conversely, an enemy appended by [spawnEnemy]
    is basic, fast or heavy and there was no boss when it was appended. *)
Theorem C6_boss_excludes_enemy_spawn :
  forall (host : Host) (timestamp : Q) (w : World),
    ((exists e, In e (enemies w) /\ Enemy.type e = boss) ->
     spawnEnemy host timestamp w = w
     /\ enemies (spawnBoss timestamp
                   (spawnPowerUp host timestamp
                      (spawnEnemy host timestamp w))) = enemies w)
    /\ (enemies (spawnEnemy host timestamp w) <> enemies w ->
        (forall e, In e (enemies w) -> Enemy.type e <> boss)
        /\ exists e, enemies (spawnEnemy host timestamp w) = enemies w ++ [e]
                     /\ Enemy.type e <> boss).
Proof.
  intros host t w. split.
  - intros Hboss. apply bossActive_true_iff in Hboss.
    assert (Hs : spawnEnemy host t w = w)
      by (unfold spawnEnemy; now rewrite Hboss).
    split; [exact Hs|]. rewrite Hs.
    unfold spawnBoss.
    assert (Hb' : bossActive (spawnPowerUp host t w) = true).
    { unfold bossActive. now rewrite spawnPowerUp_enemies. }
    rewrite Hb'. apply spawnPowerUp_enemies.
  - intros Hne. destruct (spawnEnemy_enemies host t w) as [H | (e & He & Ht & Hb)];
      [contradiction|].
    split.
    + intros e' Hin Hty.
      assert (bossActive w = true)
        by (apply bossActive_true_iff; now exists e').
      congruence.
    + now exists e.
Qed.

Lemma C6_boss_excludes_enemy_spawn_witness :
  let b := Enemy.mk 200 80 80 80 0.4 boss 500 500 0 800 in
  let w := set_enemies [b]
             (initWorld (mkGameState playing 0 (Fin 0) (Fin 0)
                           ["standard"] "standard" None)) in
  spawnEnemy RefHost.host 90000 w = w.
Proof.
  intros b w.
  destruct (C6_boss_excludes_enemy_spawn RefHost.host 90000 w) as [H _].
  apply H. exists b. split; [left|]; reflexivity.
Defined.

(** ** Player movement *)

Section MoveFacts.

Lemma clamp_bounds (lo hi v : Q) :
  lo <= hi -> lo <= Qmax lo (Qmin hi v) /\ Qmax lo (Qmin hi v) <= hi.
Proof.
  intros Hle. split; [apply Qmax_lub_l|].
  destruct (Qmax_case lo (Qmin hi v)) as [-> | ->];
    [assumption | apply Qmin_glb_l].
Qed.

Lemma movePlayer_size (w : World) :
  Player.width (player (movePlayer w)) = Player.width (player w)
  /\ Player.height (player (movePlayer w)) = Player.height (player w).
Proof.
  unfold movePlayer.
  destruct (held w "ArrowLeft" || held w "KeyA"),
           (held w "ArrowRight" || held w "KeyD"),
           (held w "ArrowUp" || held w "KeyW"),
           (held w "ArrowDown" || held w "KeyS"); split; reflexivity.
Qed.

End MoveFacts.

(** C7.  After the movement phase the player is inside the playfield,
    whatever keys are held and wherever the player was: [0 <= x <=
    CANVAS_WIDTH - width] and [0 <= y <= CANVAS_HEIGHT - height], with
    [CANVAS_WIDTH = 480] and [CANVAS_HEIGHT = 640], for a player that fits
    in the playfield (the player is 40 by 40). *)
Theorem C7_player_in_bounds_after_movement :
  forall w : World,
    Player.width (player w) <= CANVAS_WIDTH ->
    Player.height (player w) <= CANVAS_HEIGHT ->
    let p := player (movePlayer w) in
    0 <= Player.x p /\ Player.x p <= CANVAS_WIDTH - Player.width p
    /\ 0 <= Player.y p /\ Player.y p <= CANVAS_HEIGHT - Player.height p
    /\ CANVAS_WIDTH == 480 /\ CANVAS_HEIGHT == 640.
Proof.
  intros w Hw Hh p.
  assert (Hx : 0 <= CANVAS_WIDTH - Player.width (player w)) by lra.
  assert (Hy : 0 <= CANVAS_HEIGHT - Player.height (player w)) by lra.
  subst p. unfold movePlayer.
  destruct (held w "ArrowLeft" || held w "KeyA"),
           (held w "ArrowRight" || held w "KeyD"),
           (held w "ArrowUp" || held w "KeyW"),
           (held w "ArrowDown" || held w "KeyS"); cbn;
    (split; [|split; [|split; [|split; [|split; reflexivity]]]]);
    try (apply clamp_bounds; assumption).
Qed.

Lemma C7_player_in_bounds_after_movement_witness :
  let w := setKey "ArrowLeft" true
             (setKey "KeyS" true
                (set_player
                   (Player.mk 1 599 40 40 2.5 "standard" 100 100 0 0 200 [])
                   (initWorld (mkGameState playing 0 (Fin 0) (Fin 0)
                                 ["standard"] "standard" None)))) in
  0 <= Player.x (player (movePlayer w))
  /\ Player.x (player (movePlayer w)) <= 440
  /\ 0 <= Player.y (player (movePlayer w))
  /\ Player.y (player (movePlayer w)) <= 600.
Proof.
  intros w.
  destruct (C7_player_in_bounds_after_movement w) as (H1 & H2 & H3 & H4 & _).
  - cbn. unfold CANVAS_WIDTH. lra.
  - cbn. unfold CANVAS_HEIGHT. lra.
  - repeat split; [exact H1 | | exact H3 |].
    + eapply Qle_trans; [exact H2|]. vm_compute. discriminate.
    + eapply Qle_trans; [exact H4|]. vm_compute. discriminate.
Defined.

(** ** The targeted shot of the boss *)

Section TargetedFacts.

Variable host : Host.



Lemma signedInf_zero (x : Q) : x == 0 -> signedInf x = NaN.
Proof.
  intros Hx. unfold signedInf.
  destruct (Qltb 0 x) eqn:E1.
  - apply Qltb_lt in E1. lra.
  - destruct (Qltb x 0) eqn:E2; [|reflexivity].
    apply Qltb_lt in E2. lra.
Qed.

Lemma div_zero_zero (x y : Q) : x == 0 -> y == 0 -> Num.div x y = NaN.
Proof.
  intros Hx Hy. unfold Num.div.
  apply Qeq_bool_iff in Hy. rewrite Hy. now apply signedInf_zero.
Qed.

Lemma div_nonzero (x y : Q) : ~ y == 0 -> Num.div x y = Fin (x / y).
Proof.
  intros Hy. unfold Num.div.
  destruct (Qeq_bool y 0) eqn:E; [|reflexivity].
  apply Qeq_bool_iff in E. contradiction.
Qed.

(** Coinciding centres: both components are 0/0. *)
Lemma targetedVelocity_zero_distance (p : Player.t) (e : Enemy.t) :
  sqrt_zero host -> centerDx p e == 0 -> centerDy p e == 0 ->
  targetedVelocity host p e = (NaN, NaN).
Proof.
  intros Hs Hx Hy. unfold targetedVelocity.
  fold (centerDx p e) (centerDy p e).
  assert (Hd : Math_sqrt host
                 (centerDx p e * centerDx p e + centerDy p e * centerDy p e)
               == 0).
  { apply Hs. rewrite Hx, Hy. reflexivity. }
  rewrite (div_zero_zero _ _ Hx Hd), (div_zero_zero _ _ Hy Hd).
  reflexivity.
Qed.

Lemma sum_squares_pos (a b : Q) : ~ (a == 0 /\ b == 0) -> 0 < a * a + b * b.
Proof.
  intros H.
  destruct (Qeq_dec a 0) as [Ha | Ha].
  - destruct (Qeq_dec b 0) as [Hb | Hb]; [tauto|]. nra.
  - nra.
Qed.

End TargetedFacts.

Module RefHostFacts.

Lemma sqrt_zero : sqrt_zero RefHost.host.
Proof.
  intros x Hx. cbn. unfold RefHost.sqrt.
  assert (Hn : Qnum x = 0%Z).
  { unfold Qeq in Hx. cbn in Hx. lia. }
  rewrite Hn. reflexivity.
Qed.

Lemma sqrt_positive : sqrt_positive RefHost.host.
Proof.
  intros x Hx. cbn. unfold RefHost.sqrt.
  assert (Hn : (0 < Qnum x)%Z).
  { unfold Qlt in Hx. cbn in Hx. lia. }
  unfold Qlt. cbn. rewrite Z.mul_1_r.
  apply Z.sqrt_up_pos. lia.
Qed.

End RefHostFacts.

(** C3, as stated, fails: there is no fallback.  A boss that reaches
    [(200, 80)] on this tick and a player at [(220, 100)] have the same
    centre [(240, 120)]; at adjusted time 10000 the pattern is 2, and the
    bullet that the boss pushes has NaN for both velocity components. *)
Lemma C3_zero_distance_velocity_is_NaN :
  let e := Enemy.mk 200 79.6 80 80 0.4 boss 500 500 0 800 in
  let p := Player.mk 220 100 40 40 2.5 "standard" 100 100 0 0 200 [] in
  let w := set_enemies [e]
             (set_player p
                (initWorld (mkGameState playing 0 (Fin 0) (Fin 0)
                              ["standard"] "standard" None))) in
  bossPattern 10000 = 2%Z
  /\ map (fun b => (Bullet.vx b, Bullet.vy b))
         (bullets (snd (enemyAct RefHost.host 10000 e w)))
     = [(Some NaN, Some NaN)]
  /\ map (fun b => Num.isFinite (fst b) || Num.isFinite (snd b))
         [targetedVelocity RefHost.host p (fst (enemyAct RefHost.host 10000 e w))]
     = [false].
Proof.
  vm_compute. repeat split.
Qed.

(** C3, amended.  The targeted shot (pattern 2) is one bullet of damage 25
    whose velocity is the vector from the centre of the boss to the centre
    of the player, divided by its length and multiplied by 3.5.  With a
    square root that is positive on positive numbers, both components are
    finite whenever the two centres differ.  There is no fallback: when the
    two centres coincide (and the square root of 0 is 0) both components are
    0/0, that is NaN. *)
Theorem C3_targeted_shot_velocity :
  forall (host : Host) (e : Enemy.t) (w : World),
    let p := player w in
    let dx := centerDx p e in
    let dy := centerDy p e in
    let dist := centerDist host p e in
    (exists b,
        bullets (bossTargeted host e w) = bullets w ++ [b]
        /\ Bullet.damage b = 25 /\ Bullet.owner b = byEnemy
        /\ (Bullet.vx b, Bullet.vy b)
           = (Some (fst (targetedVelocity host p e)),
              Some (snd (targetedVelocity host p e))))
    /\ (sqrt_positive host -> ~ (dx == 0 /\ dy == 0) ->
        0 < dist
        /\ targetedVelocity host p e
           = (Fin (dx / dist * 3.5), Fin (dy / dist * 3.5)))
    /\ (sqrt_zero host -> dx == 0 -> dy == 0 ->
        targetedVelocity host p e = (NaN, NaN)).
Proof.
  intros host e w p dx dy dist. split; [|split].
  - unfold bossTargeted. fold p.
    destruct (targetedVelocity host p e) as [vx vy] eqn:E. cbn.
    eexists. split; [reflexivity|]. cbn. auto.
  - intros Hpos Hne.
    assert (Hd : 0 < dist) by (apply Hpos, sum_squares_pos; exact Hne).
    split; [exact Hd|].
    unfold targetedVelocity. fold (centerDx p e) (centerDy p e).
    fold (centerDist host p e). fold dx dy dist.
    rewrite !div_nonzero by lra. reflexivity.
  - intros Hz Hx Hy. now apply targetedVelocity_zero_distance.
Qed.

(** A player at [(223, 104)] under the boss at [(200, 80)]: the vector
    between the centres is [(3, 4)], of length 5. *)
Lemma C3_targeted_shot_velocity_witness :
  let e := Enemy.mk 200 80 80 80 0.4 boss 500 500 0 800 in
  let p := Player.mk 223 104 40 40 2.5 "standard" 100 100 0 0 200 [] in
  let w := set_player p
             (initWorld (mkGameState playing 0 (Fin 0) (Fin 0)
                           ["standard"] "standard" None)) in
  exists vx vy,
    targetedVelocity RefHost.host p e = (Fin vx, Fin vy)
    /\ vx == 2.1 /\ vy == 2.8.
Proof.
  intros e p w.
  destruct (C3_targeted_shot_velocity RefHost.host e w) as (_ & H & _).
  destruct (H RefHostFacts.sqrt_positive) as [_ Hv].
  - cbn. intros [Hx _]. vm_compute in Hx. discriminate.
  - eexists _, _. split; [exact Hv|]. split; vm_compute; reflexivity.
Defined.

(** ** Pause, countdown, resumption *)

Section CountdownFacts.

Variable host : Host.

Lemma Qfloor_ge (x : Q) (n : Z) : (n <= Qfloor x)%Z <-> inject_Z n <= x.
Proof.
  split.
  - intros H. eapply Qle_trans; [|apply Qfloor_le].
    now rewrite <- Zle_Qle.
  - intros H. apply Qfloor_resp_le in H. now rewrite Qfloor_Z in H.
Qed.

Lemma Qdiv_1000_ge (x : Q) (n : Z) :
  inject_Z n <= x / 1000 <-> inject_Z n * 1000 <= x.
Proof.
  split; intros H.
  - apply (Qmult_le_compat_r _ _ 1000) in H; [|lra].
    setoid_replace (x / 1000 * 1000) with x in H by field. exact H.
  - apply Qle_shift_div_l; [lra | exact H].
Qed.

(** The digit is computed from the time since the pause began, not since
    the countdown began: it is 0 or less as soon as 3500 ms have passed
    since the player paused. *)
Lemma countdownSeconds_done (now : Q) (w : World) :
  (countdownSeconds now w <= 0)%Z <-> 3500 <= now - pauseStartTime w.
Proof.
  unfold countdownSeconds.
  assert (H : (3 - Qfloor ((now - (pauseStartTime w + 500)) / 1000) <= 0
               <-> 3 <= Qfloor ((now - (pauseStartTime w + 500)) / 1000))%Z)
    by lia.
  rewrite H, Qfloor_ge, Qdiv_1000_ge.
  change (inject_Z 3) with 3. split; intros H1; lra.
Qed.

Lemma update_countdown_resumes (f : Frame) (w : World) :
  status (gameState w) = countdown ->
  (countdownSeconds (now2 f) w <= 0)%Z ->
  update host f w
  = set_gameState (gs_set_status playing (gameState w))
      (set_totalPausedTime
         (Number_value host
            (totalPausedTime w
             + Number_value host (now3 f - pauseStartTime w))) w).
Proof.
  intros Hs Hc. unfold update. rewrite Hs.
  apply Z.leb_le in Hc. rewrite Hc. reflexivity.
Qed.

End CountdownFacts.

(** C2 at a pause of five seconds.  The player pauses at 1000 and asks to
    resume at 6000: the status becomes [countdown] with the digit 3.  On the
    first frame of the countdown, at 6016, the digit computed is
    [3 - floor((6016 - 1500) / 1000) = -1]: the status is [playing] at once,
    the digit 3 was never decremented, and no time passed in [countdown]. *)
Lemma C2_long_pause_skips_countdown :
  let w := initWorld (mkGameState playing 0 (Fin 0) (Fin 0)
                        ["standard"] "standard" None) in
  let w1 := step RefHost.host (ClickPause 1000) w in
  let w2 := step RefHost.host (ClickPause 6000) w1 in
  let w3 := step RefHost.host (AnimationFrame (mkFrame 6016 6016 6016 6016)) w2 in
  status (gameState w1) = paused
  /\ status (gameState w2) = countdown
  /\ countdownValue (gameState w2) = Some 3%Z
  /\ countdownSeconds 6016 w2 = (-1)%Z
  /\ status (gameState w3) = playing
  /\ countdownValue (gameState w3) = Some 3%Z.
Proof.
  vm_compute. repeat split.
Qed.

(** C2 at an immediate resumption.  The player pauses at 1000 and asks to
    resume at 1100.  The digit that the frames of the countdown compute is
    4 until 1500 (500 ms after the pause began), then 3, 2, 1 for one second
    each, and the play resumes at 4500: 3500 ms after the pause began, which
    is 3400 ms after the countdown began. *)
Lemma C2_countdown_is_timed_from_the_pause :
  let w := initWorld (mkGameState playing 0 (Fin 0) (Fin 0)
                        ["standard"] "standard" None) in
  let w2 := step RefHost.host (ClickPause 1100)
              (step RefHost.host (ClickPause 1000) w) in
  map (fun now => countdownSeconds now w2)
      [1116; 1499; 1500; 2499; 2500; 3499; 3500; 4499; 4500]
  = [4; 4; 3; 3; 2; 2; 1; 1; 0]%Z.
Proof.
  vm_compute. reflexivity.
Qed.

(** ** Loops and explosions *)

Section ForEachFacts.

Context {St A : Type}.
Variable get : St -> list A.
Variable callback : A -> nat -> St -> St.

(** A property kept by every call of the callback is kept by the loop. *)
Lemma forEachFrom_invariant (P : St -> Prop) :
  (forall a k s, P s -> P (callback a k s)) ->
  forall n k s, P s -> P (forEachFrom get callback n k s).
Proof.
  intros Hcb. induction n as [|n IH]; intros k s Hs; cbn; [exact Hs|].
  apply IH. unfold visit. destruct (nth_error (get s) k); auto.
Qed.

Lemma forEach_invariant (P : St -> Prop) :
  (forall a k s, P s -> P (callback a k s)) ->
  forall s, P s -> P (forEach get callback s).
Proof. intros Hcb s. apply forEachFrom_invariant, Hcb. Qed.

(** A transformation of the state that the callback does not see
    commutes with the loop. *)
Lemma forEachFrom_commute (T : St -> St) :
  (forall s, get (T s) = get s) ->
  (forall a k s, callback a k (T s) = T (callback a k s)) ->
  forall n k s,
    forEachFrom get callback n k (T s) = T (forEachFrom get callback n k s).
Proof.
  intros Hget Hcb. induction n as [|n IH]; intros k s; cbn; [reflexivity|].
  rewrite <- IH. f_equal. unfold visit. rewrite Hget.
  destruct (nth_error (get s) k); auto.
Qed.

Lemma forEach_commute (T : St -> St) :
  (forall s, get (T s) = get s) ->
  (forall a k s, callback a k (T s) = T (callback a k s)) ->
  forall s, forEach get callback (T s) = T (forEach get callback s).
Proof.
  intros Hget Hcb s. unfold forEach. rewrite Hget.
  now apply forEachFrom_commute.
Qed.

End ForEachFacts.

Section ExplosionFacts.

Variable host : Host.




Lemma pushParticles_eq (x y : num) (color : string) (k : nat) (w : World) :
  Nat.iter k (pushParticle host x y color) w
  = set_particles (particles w ++ sparks host x y color (randomCalls w) k)
      (set_randomCalls (3 * k + randomCalls w) w).
Proof.
  induction k as [|k IH].
  - destruct w; cbn. now rewrite app_nil_r.
  - rewrite Nat.iter_succ, IH. destruct w; cbn.
    unfold set_particles; cbn. f_equal.
    + rewrite <- app_assoc. reflexivity.
    + lia.
Qed.

(** An explosion appends fifteen particles and consumes forty-five draws;
    it touches nothing else. *)
Lemma createExplosion_eq (x y : num) (color : string) (w : World) :
  createExplosion host x y color w
  = set_particles (particles w ++ sparks host x y color (randomCalls w) 15)
      (set_randomCalls (45 + randomCalls w) w).
Proof. unfold createExplosion. now rewrite pushParticles_eq. Qed.

End ExplosionFacts.

(** ** The simulation does not see the pause clock

    [tick] reads the time through its argument only.  The lemmas below show
    that every phase commutes with a change of [pauseStartTimeRef],
    [totalPausedTimeRef] and [gameState.countdownValue]; two runs whose pauses
    last differently are then related step by step. *)


Ltac split_ifs :=
  repeat match goal with
         | |- context [if ?c then _ else _] => destruct c eqn:?
         end.

Arguments createExplosion : simpl never.
Section Outside.
Variable host : Host.
Variables (ps tp : Q) (g : GameState).
Local Abbreviation T := (outside ps tp g).

Lemma movePlayer_T w : movePlayer (T w) = T (movePlayer w).
Proof. unfold movePlayer, held. cbn. split_ifs; reflexivity. Qed.

Lemma createExplosion_T x y c w : createExplosion host x y c (T w) = T (createExplosion host x y c w).
Proof. rewrite !createExplosion_eq. reflexivity. Qed.

Lemma shoot_T a w : shoot a (T w) = T (shoot a w).
Proof. unfold shoot, held. cbn. split_ifs; reflexivity. Qed.

Lemma spawnEnemy_T a w : spawnEnemy host a (T w) = T (spawnEnemy host a w).
Proof. unfold spawnEnemy, bossActive. cbn. split_ifs; reflexivity. Qed.

Lemma powerUpStep_T a pu k w : powerUpStep host a pu k (T w) = T (powerUpStep host a pu k w).
Proof. unfold powerUpStep. cbn. 
  rewrite !createExplosion_eq. cbn.
 split_ifs; reflexivity. Qed.

Lemma updatePowerUps_T a w : updatePowerUps host a (T w) = T (updatePowerUps host a w).
Proof. unfold updatePowerUps. apply forEach_commute. reflexivity. intros; apply powerUpStep_T. Qed.


Lemma play_T c w : play c (T w) = T (play c w).
Proof. reflexivity. Qed.
Lemma pushBullet_T b w : pushBullet b (T w) = T (pushBullet b w).
Proof. reflexivity. Qed.

Lemma fold_left_T {B} (f : World -> B -> World) l :
  (forall w b, f (T w) b = T (f w b)) -> forall w, fold_left f l (T w) = T (fold_left f l w).
Proof. intros Hf. induction l; intros w; cbn; [reflexivity|]. now rewrite Hf, IHl. Qed.

Lemma bossSpread_T e w : bossSpread host e (T w) = T (bossSpread host e w).
Proof. unfold bossSpread. apply fold_left_T. reflexivity. Qed.
Lemma bossCircle_T e w : bossCircle host e (T w) = T (bossCircle host e w).
Proof. unfold bossCircle. apply fold_left_T. reflexivity. Qed.
Lemma bossTargeted_T e w : bossTargeted host e (T w) = T (bossTargeted host e w).
Proof. unfold bossTargeted. cbn [player outside set_pauseStartTime set_totalPausedTime set_gameState]. 
  destruct (targetedVelocity _ _ _). reflexivity. Qed.

Lemma enemyAct_T a e w :
  enemyAct host a e (T w) = (fst (enemyAct host a e w), T (snd (enemyAct host a e w))).
Proof.
  unfold enemyAct.
  repeat match goal with
         | |- context [if ?c then _ else _] => destruct c eqn:?
         end; cbn [fst snd]; rewrite ?bossSpread_T, ?bossCircle_T, ?bossTargeted_T; reflexivity.
Qed.

Lemma enemyContact_T e w :
  enemyContact host e (T w) = (fst (enemyContact host e w), T (snd (enemyContact host e w))).
Proof.
  unfold enemyContact. cbn [player outside set_pauseStartTime set_totalPausedTime set_gameState].
  destruct (overlap _ _ _ _ _ _ _ _); [|reflexivity].
  destruct (hasBuff _ _); cbn [fst snd]; rewrite !createExplosion_eq; reflexivity.
Qed.

Lemma enemyRemoval_T a e k w :
  enemyRemoval host a e k (T w) = T (enemyRemoval host a e k w).
Proof.
  unfold enemyRemoval.
  destruct (_ || _); [|reflexivity].
  destruct (Qle_bool _ _), (isBoss _); rewrite ?createExplosion_eq; reflexivity.
Qed.

Lemma enemyStep_T a e k w : enemyStep host a e k (T w) = T (enemyStep host a e k w).
Proof.
  unfold enemyStep. rewrite enemyAct_T.
  destruct (enemyAct host a e w) as [e1 w1]. cbn [fst snd].
  rewrite enemyContact_T.
  destruct (enemyContact host e1 w1) as [e2 w2]. cbn [fst snd].
  rewrite <- enemyRemoval_T. reflexivity.
Qed.

Lemma spawnPowerUp_T a w : spawnPowerUp host a (T w) = T (spawnPowerUp host a w).
Proof. unfold spawnPowerUp. cbn. split_ifs; reflexivity. Qed.
Lemma spawnBoss_T a w : spawnBoss a (T w) = T (spawnBoss a w).
Proof. unfold spawnBoss, bossActive. cbn. split_ifs; reflexivity. Qed.
Lemma updateBuffs_T a w : updateBuffs a (T w) = T (updateBuffs a w).
Proof. reflexivity. Qed.
Lemma updateEnemies_T a w : updateEnemies host a (T w) = T (updateEnemies host a w).
Proof. unfold updateEnemies. apply forEach_commute; [reflexivity|]. intros; apply enemyStep_T. Qed.


Lemma bulletHitsEnemy_T e i s : bulletHitsEnemy host e i (outside2 ps tp g s) = outside2 ps tp g (bulletHitsEnemy host e i s).
Proof.
  destruct s as [b w]. unfold bulletHitsEnemy, outside2. cbn [fst snd].
  destruct (overlapNum _ _ _ _ _ _ _ _); [|reflexivity].
  rewrite !createExplosion_eq. reflexivity.
Qed.

Lemma bulletHitsPlayer_T b w : bulletHitsPlayer host b (T w) = outside2 ps tp g (bulletHitsPlayer host b w).
Proof.
  unfold bulletHitsPlayer, outside2. cbn [player outside set_pauseStartTime set_totalPausedTime set_gameState].
  destruct (overlapNum _ _ _ _ _ _ _ _); [|reflexivity].
  destruct (hasBuff _ _); rewrite !createExplosion_eq; reflexivity.
Qed.

Lemma bulletStep_T b k w : bulletStep host b k (T w) = T (bulletStep host b k w).
Proof.
  unfold bulletStep.
  destruct (Bullet.owner (moveBullet b)).
  - change (moveBullet b, T w) with (outside2 ps tp g (moveBullet b, w)).
    rewrite (forEach_commute (fun s => enemies (snd s)) (bulletHitsEnemy host)
               (outside2 ps tp g));
      [| reflexivity | intros; apply bulletHitsEnemy_T].
    destruct (forEach _ _ _) as [b1 w1]. unfold outside2. cbn [fst snd].
    destruct (bulletOut b1); reflexivity.
  - rewrite bulletHitsPlayer_T.
    destruct (bulletHitsPlayer host (moveBullet b) w) as [b1 w1]. unfold outside2. cbn [fst snd].
    destruct (bulletOut b1); reflexivity.
Qed.

Lemma updateBullets_T w : updateBullets host (T w) = T (updateBullets host w).
Proof. unfold updateBullets. apply forEach_commute; [reflexivity|]. intros; apply bulletStep_T. Qed.

Lemma particleStep_T p k w : particleStep p k (T w) = T (particleStep p k w).
Proof. unfold particleStep. cbn. split_ifs; reflexivity. Qed.

Lemma updateParticles_T w : updateParticles (T w) = T (updateParticles w).
Proof. unfold updateParticles. apply forEach_commute; [reflexivity|]. intros; apply particleStep_T. Qed.

Lemma updateBackground_T w : updateBackground (T w) = T (updateBackground w).
Proof. reflexivity. Qed.

Lemma updateHud_T a w : updateHud a (T w) = T (updateHud a w).
Proof. reflexivity. Qed.



Lemma tick_simulate a w : tick host a w = updateHud a (checkGameOver (simulate host a w)).
Proof. reflexivity. Qed.

Lemma simulate_T a w : simulate host a (T w) = T (simulate host a w).
Proof.
  unfold simulate.
  rewrite movePlayer_T, shoot_T, spawnEnemy_T, spawnPowerUp_T, spawnBoss_T,
    updateBuffs_T, updatePowerUps_T, updateEnemies_T, updateBullets_T,
    updateParticles_T, updateBackground_T.
  reflexivity.
Qed.
End Outside.

Lemma outside_id w : outside (pauseStartTime w) (totalPausedTime w) (gameState w) w = w.
Proof. destruct w; reflexivity. Qed.



Lemma reclock_id w :
  reclock (pauseStartTime w) (totalPausedTime w) (countdownValue (gameState w)) w = w.
Proof. destruct w as [g ? ? ? ? ? ? ? ? ? ? ? ? ? ? ? ? ? ?]; destruct g; reflexivity. Qed.

Lemma gameplay_eq_reclock w1 w2 :
  gameplay w1 = gameplay w2 ->
  w2 = reclock (pauseStartTime w2) (totalPausedTime w2) (countdownValue (gameState w2)) w1.
Proof.
  intros H.
  change (reclock (pauseStartTime w2) (totalPausedTime w2) (countdownValue (gameState w2)) w1)
    with (reclock (pauseStartTime w2) (totalPausedTime w2) (countdownValue (gameState w2)) (gameplay w1)).
  rewrite H. symmetry. exact (reclock_id w2).
Qed.

Lemma checkGameOver_reclock ps tp cv w :
  checkGameOver (reclock ps tp cv w) = reclock ps tp cv (checkGameOver w).
Proof. unfold checkGameOver. cbn. destruct (Qle_bool _ _); reflexivity. Qed.

Lemma checkGameOver_status w :
  status (gameState (checkGameOver w)) = gameover
  \/ gameState (checkGameOver w) = gameState w.
Proof. unfold checkGameOver. destruct (Qle_bool _ _); [left|right]; reflexivity. Qed.

Section Finish.
Variable sim : World -> World.
Hypothesis sim_T : forall ps tp g w, sim (outside ps tp g w) = outside ps tp g (sim w).
Variable a : Q.

Lemma sim_outside w :
  pauseStartTime (sim w) = pauseStartTime w
  /\ totalPausedTime (sim w) = totalPausedTime w
  /\ gameState (sim w) = gameState w.
Proof.
  pose proof (sim_T (pauseStartTime w) (totalPausedTime w) (gameState w) w) as H.
  rewrite outside_id in H. rewrite H. repeat split.
Qed.

Lemma finish_reclock ps tp cv w :
  updateHud a (checkGameOver (sim (reclock ps tp cv w)))
  = reclock ps tp cv (updateHud a (checkGameOver (sim w))).
Proof.
  destruct (sim_outside w) as (_ & _ & Hg).
  assert (Hs : sim (reclock ps tp cv w) = reclock ps tp cv (sim w)).
  { unfold reclock. rewrite Hg. apply sim_T. }
  rewrite Hs, checkGameOver_reclock. reflexivity.
Qed.

Lemma finish_status w :
  status (gameState (updateHud a (checkGameOver (sim w)))) = gameover
  \/ status (gameState (updateHud a (checkGameOver (sim w)))) = status (gameState w).
Proof.
  destruct (sim_outside w) as (_ & _ & Hg).
  change (gameState (updateHud a (checkGameOver (sim w))))
    with (gameState (checkGameOver (sim w))).
  destruct (checkGameOver_status (sim w)) as [H | H]; [now left|right].
  rewrite H, Hg. reflexivity.
Qed.
End Finish.

Section TickClock.
Variable host : Host.

Lemma tick_reclock ps tp cv a w :
  tick host a (reclock ps tp cv w) = reclock ps tp cv (tick host a w).
Proof.
  exact (finish_reclock (simulate host a) (fun ps tp g w => simulate_T host ps tp g a w) a ps tp cv w).
Qed.

Lemma tick_status a w :
  status (gameState (tick host a w)) = gameover
  \/ status (gameState (tick host a w)) = status (gameState w).
Proof.
  exact (finish_status (simulate host a) (fun ps tp g w => simulate_T host ps tp g a w) a w).
Qed.

Lemma tick_clock a w :
  pauseStartTime (tick host a w) = pauseStartTime w
  /\ totalPausedTime (tick host a w) = totalPausedTime w.
Proof.
  pose proof (tick_reclock (pauseStartTime w) (totalPausedTime w) (countdownValue (gameState w)) a w) as H.
  rewrite reclock_id in H. rewrite H.
  generalize (tick host a w). intros w'. split; reflexivity.
Qed.

End TickClock.






Lemma cardClick_countdownValue plane cv g :
  Shop.cardClick plane (gs_set_countdownValue cv g)
  = (gs_set_countdownValue cv (fst (Shop.cardClick plane g)),
     snd (Shop.cardClick plane g)).
Proof.
  unfold Shop.cardClick, Shop.purchaseClick, Shop.isOwned, Shop.canAfford.
  cbn [ownedPlanes totalCurrency gs_set_countdownValue].
  destruct (Shop.includes _ _); [reflexivity|].
  destruct (Num.geb _ _); reflexivity.
Qed.

Lemma cardClick_status plane g :
  status (fst (Shop.cardClick plane g)) = status g.
Proof.
  unfold Shop.cardClick, Shop.purchaseClick.
  destruct (Shop.isOwned _ _); [reflexivity|].
  destruct (Shop.canAfford _ _); reflexivity.
Qed.

Section SameRunStep.
Variable host : Host.
Hypothesis Hexact : exactClock host.
Variables d1 d2 : Q.

Lemma countdownSeconds_shift now w ps1 tp1 cv1 ps2 tp2 cv2 :
  ps1 - d1 == ps2 - d2 ->
  countdownSeconds (now + d1) (reclock ps1 tp1 cv1 w)
  = countdownSeconds (now + d2) (reclock ps2 tp2 cv2 w).
Proof.
  intros H. unfold countdownSeconds.
  change (pauseStartTime (reclock ps1 tp1 cv1 w)) with ps1.
  change (pauseStartTime (reclock ps2 tp2 cv2 w)) with ps2.
  f_equal. apply Qfloor_comp.
  apply Qmult_comp; [|reflexivity]. lra.
Qed.

Lemma adjusted_shift t w ps1 tp1 cv1 ps2 tp2 cv2 :
  tp1 - d1 == tp2 - d2 ->
  adjusted host (t + d1) (reclock ps1 tp1 cv1 w)
  = adjusted host (t + d2) (reclock ps2 tp2 cv2 w).
Proof.
  intros H. unfold adjusted. rewrite !Hexact.
  change (totalPausedTime (reclock ps1 tp1 cv1 w)) with tp1.
  change (totalPausedTime (reclock ps2 tp2 cv2 w)) with tp2.
  apply Qred_complete. lra.
Qed.

Lemma sameRun_reclock w ps1 tp1 cv1 ps2 tp2 cv2 :
  tp1 - d1 == tp2 - d2 ->
  (pausing w -> ps1 - d1 == ps2 - d2) ->
  sameRun d1 d2 (reclock ps1 tp1 cv1 w) (reclock ps2 tp2 cv2 w).
Proof. intros Htp Hps. split; [reflexivity|]. split; assumption. Qed.

Lemma update_sameRun f w ps1 tp1 cv1 ps2 tp2 cv2 :
  tp1 - d1 == tp2 - d2 ->
  (pausing w -> ps1 - d1 == ps2 - d2) ->
  sameRun d1 d2 (update host (shiftFrame d1 f) (reclock ps1 tp1 cv1 w))
                (update host (shiftFrame d2 f) (reclock ps2 tp2 cv2 w)).
Proof.
  intros Htp Hps.
  pose proof (sameRun_reclock w ps1 tp1 cv1 ps2 tp2 cv2 Htp Hps) as G0.
  unfold update.
  change (status (gameState (reclock ps1 tp1 cv1 w))) with (status (gameState w)).
  change (status (gameState (reclock ps2 tp2 cv2 w))) with (status (gameState w)).
  destruct (status (gameState w)) eqn:Hst; try exact G0.
  - (* playing *)
    cbn [timestamp shiftFrame].
    rewrite (adjusted_shift _ w ps1 tp1 cv1 ps2 tp2 cv2 Htp).
    set (a := adjusted _ _ _).
    rewrite !tick_reclock.
    generalize (tick_status host a w). generalize (tick host a w). intros w' Hs.
    apply sameRun_reclock; [assumption|].
    intros [H | H]; rewrite Hst in Hs; destruct Hs; congruence.
  - (* countdown *)
    cbn [now2 now3 shiftFrame].
    assert (Hp : ps1 - d1 == ps2 - d2) by (apply Hps; now right).
    rewrite (countdownSeconds_shift _ w ps1 tp1 cv1 ps2 tp2 cv2 Hp).
    set (cs := countdownSeconds _ _).
    destruct (cs <=? 0)%Z.
    + rewrite !Hexact. split; [reflexivity|]. split.
      * change (tp1 + (now3 f + d1 - ps1) - d1 == tp2 + (now3 f + d2 - ps2) - d2).
        lra.
      * intros [H | H]; discriminate H.
    + assert (G : forall v1 v2,
                 sameRun d1 d2 (reclock ps1 tp1 v1 w) (reclock ps2 tp2 v2 w)).
      { intros v1 v2. now apply sameRun_reclock. }
      destruct (cs =? 3)%Z; [exact G0 | exact (G _ _)].
Qed.

Lemma step_sameRun ev w ps1 tp1 cv1 ps2 tp2 cv2 :
  keepsRun ev ->
  tp1 - d1 == tp2 - d2 ->
  (pausing w -> ps1 - d1 == ps2 - d2) ->
  sameRun d1 d2 (step host (shiftEvent d1 ev) (reclock ps1 tp1 cv1 w))
                (step host (shiftEvent d2 ev) (reclock ps2 tp2 cv2 w)).
Proof.
  intros Hk Htp Hps.
  pose proof (sameRun_reclock w ps1 tp1 cv1 ps2 tp2 cv2 Htp Hps) as G0.
  destruct ev as [f | code | code | now | now | | | plane]; cbn [shiftEvent step].
  - now apply update_sameRun.
  - exact (sameRun_reclock (setKey code true w) ps1 tp1 cv1 ps2 tp2 cv2 Htp Hps).
  - exact (sameRun_reclock (setKey code false w) ps1 tp1 cv1 ps2 tp2 cv2 Htp Hps).
  - change (status (gameState (reclock ps1 tp1 cv1 w))) with (status (gameState w)).
    change (status (gameState (reclock ps2 tp2 cv2 w))) with (status (gameState w)).
    unfold togglePause.
    change (status (gameState (reclock ps1 tp1 cv1 w))) with (status (gameState w)).
    change (status (gameState (reclock ps2 tp2 cv2 w))) with (status (gameState w)).
    destruct (status (gameState w)) eqn:Hst; try exact G0.
    + split; [reflexivity|]. split; [exact Htp|]. intros _.
      change (now + d1 - d1 == now + d2 - d2). lra.
    + split; [reflexivity|]. split; [exact Htp|]. intros _.
      apply Hps. now left.
  - destruct Hk.
  - change (status (gameState (reclock ps1 tp1 cv1 w))) with (status (gameState w)).
    change (status (gameState (reclock ps2 tp2 cv2 w))) with (status (gameState w)).
    destruct (status (gameState w)) eqn:Hst; try exact G0;
      (split; [reflexivity|]; split; [exact Htp|]; intros [H | H]; discriminate H).
  - change (status (gameState (reclock ps1 tp1 cv1 w))) with (status (gameState w)).
    change (status (gameState (reclock ps2 tp2 cv2 w))) with (status (gameState w)).
    destruct (status (gameState w)) eqn:Hst; try exact G0;
      (split; [reflexivity|]; split; [exact Htp|]; intros [H | H]; discriminate H).
  - change (status (gameState (reclock ps1 tp1 cv1 w))) with (status (gameState w)).
    change (status (gameState (reclock ps2 tp2 cv2 w))) with (status (gameState w)).
    destruct (status (gameState w)) eqn:Hst; try exact G0.
    change (gameState (reclock ps1 tp1 cv1 w))
      with (gs_set_countdownValue cv1 (gameState w)).
    change (gameState (reclock ps2 tp2 cv2 w))
      with (gs_set_countdownValue cv2 (gameState w)).
    rewrite !cardClick_countdownValue.
    pose proof (cardClick_status plane (gameState w)) as Hcs.
    destruct (Shop.cardClick plane (gameState w)) as [g out].
    cbn [fst snd] in *.
    split; [reflexivity|]. split; [exact Htp|].
    intros [H | H]; cbn in H; congruence.
Qed.
End SameRunStep.

Section SameRun.
Variable host : Host.
Hypothesis Hexact : exactClock host.

Lemma sameRun_step d1 d2 ev w1 w2 :
  keepsRun ev -> sameRun d1 d2 w1 w2 ->
  sameRun d1 d2 (step host (shiftEvent d1 ev) w1) (step host (shiftEvent d2 ev) w2).
Proof.
  intros Hk (Hg & Htp & Hps).
  rewrite (gameplay_eq_reclock w1 w2 Hg).
  rewrite <- (reclock_id w1) at 1.
  apply step_sameRun; assumption.
Qed.

Lemma sameRun_run d1 d2 evs :
  Forall keepsRun evs ->
  forall w1 w2, sameRun d1 d2 w1 w2 ->
  sameRun d1 d2 (run host (map (shiftEvent d1) evs) w1)
                (run host (map (shiftEvent d2) evs) w2).
Proof.
  induction 1 as [|ev evs Hk _ IH]; intros w1 w2 HR; [exact HR|].
  cbn [map]. unfold run in *. cbn [fold_left].
  apply IH. now apply sameRun_step.
Qed.

Lemma sameRun_pause_entry d1 d2 w1 w2 :
  sameRun d1 d2 w1 w2 -> pausing w1 ->
  pauseStartTime w1 - totalPausedTime w1 == pauseStartTime w2 - totalPausedTime w2.
Proof. intros (_ & Htp & Hps) Hp. specialize (Hps Hp). lra. Qed.

End SameRun.


(** C1 also fails by the rounding of the pause clock.  On [host64] the
    subtractions and the addition of the pause clock are those of binary64.
    The pause begins at the Number nearest to 1000.3 and is resumed on a
    frame at 5000 in one execution and at 20000 in the other; every reading
    is a Number, and the next frame comes the same time [d] after the
    resumption in both.  Its adjusted timestamp is above 8000 in the first
    execution and 8000 in the second: a power-up appears in the first
    alone. *)
Lemma C1_rounding_sees_the_pause_duration :
  let p := 4399365925057331 # 4398046511104 in
  let d := 1924062885235917 # 274877906944 in
  let w := step RefHost.host64 (ClickPause 2000)
             (step RefHost.host64 (ClickPause p)
                (initWorld (mkGameState playing 0 (Fin 0) (Fin 0)
                              ["standard"] "standard" None))) in
  let f1 := mkFrame 5000 5000 5000 5000 in
  let f2 := mkFrame 20000 20000 20000 20000 in
  let r1 := update RefHost.host64 f1 w in
  let r2 := update RefHost.host64 f2 w in
  let e1 := step RefHost.host64
              (shiftEvent (now3 f1) (AnimationFrame (mkFrame d d d d))) r1 in
  let e2 := step RefHost.host64
              (shiftEvent (now3 f2) (AnimationFrame (mkFrame d d d d))) r2 in
  RefHost.binary64 p == p
  /\ RefHost.binary64 (d + 5000) == d + 5000
  /\ RefHost.binary64 (d + 20000) == d + 20000
  /\ status (gameState w) = countdown
  /\ (countdownSeconds (now2 f1) w <= 0)%Z
  /\ (countdownSeconds (now2 f2) w <= 0)%Z
  /\ 8000 < adjusted RefHost.host64 (d + now3 f1) r1
  /\ adjusted RefHost.host64 (d + now3 f2) r2 = 8000
  /\ List.length (powerUps e1) = 1%nat
  /\ powerUps e2 = []
  /\ gameplay e1 <> gameplay e2.
Proof.
  cbv zeta.
  split; [vm_compute; reflexivity|]. split; [vm_compute; reflexivity|].
  split; [vm_compute; reflexivity|]. split; [reflexivity|].
  split; [vm_compute; discriminate|]. split; [vm_compute; discriminate|].
  split; [vm_compute; reflexivity|]. split; [vm_compute; reflexivity|].
  split; [vm_compute; reflexivity|]. split; [vm_compute; reflexivity|].
  intros H.
  apply (f_equal (fun w => List.length (powerUps w))) in H.
  vm_compute in H. discriminate H.
Qed.



(** ** Removal while iterating *)

Section ListFacts.
Context {A : Type}.

Lemma store_length (i : nat) (v : A) (l : list A) : List.length (store i v l) = List.length l.
Proof. revert i; induction l as [|a l IH]; intros [|i]; cbn; auto. Qed.

Lemma firstn_store (i j : nat) (v : A) (l : list A) :
  (j <= i)%nat -> firstn j (store i v l) = firstn j l.
Proof.
  revert i j; induction l as [|a l IH]; intros [|i] [|j] H; cbn; auto; try lia.
  f_equal. apply IH. lia.
Qed.

Lemma firstn_splice (i j : nat) (l : list A) :
  (j <= i)%nat -> firstn j (splice i l) = firstn j l.
Proof.
  intros H. unfold splice.
  destruct (Nat.le_gt_cases (List.length l) i) as [Hl | Hl].
  - rewrite (firstn_all2 (n := i)) by lia.
    rewrite skipn_all2 by lia. now rewrite app_nil_r.
  - rewrite firstn_app, firstn_firstn, length_firstn.
    replace (Nat.min j i) with j by lia.
    replace (j - Nat.min i (List.length l))%nat with 0%nat by lia.
    cbn. now rewrite app_nil_r.
Qed.

Lemma store_app (pre : list A) (a v : A) (post : list A) :
  store (List.length pre) v (pre ++ a :: post) = pre ++ v :: post.
Proof. induction pre as [|x pre IH]; cbn; [reflexivity|]. now rewrite IH. Qed.

Lemma splice_app (pre : list A) (a : A) (post : list A) :
  splice (List.length pre) (pre ++ a :: post) = pre ++ post.
Proof.
  unfold splice. induction pre as [|x pre IH]; cbn; [reflexivity|].
  f_equal. exact IH.
Qed.

Lemma nth_error_app_mid (pre : list A) (a : A) (post : list A) :
  nth_error (pre ++ a :: post) (List.length pre) = Some a.
Proof. induction pre; cbn; auto. Qed.
End ListFacts.

Section Skip.
Context {St A : Type}.
Variable get : St -> list A.
Variable callback : A -> nat -> St -> St.

(** The callback at index [j] leaves the slots before [j] alone. *)
Hypothesis callback_prefix :
  forall a j s, nth_error (get s) j = Some a ->
                firstn j (get (callback a j s)) = firstn j (get s).

Lemma forEachFrom_prefix n k s :
  firstn k (get (forEachFrom get callback n k s)) = firstn k (get s).
Proof.
  revert k s. induction n as [|n IH]; intros k s; cbn; [reflexivity|].
  assert (H := IH (S k) (visit get callback k s)).
  apply (f_equal (firstn k)) in H. rewrite !firstn_firstn in H.
  replace (Nat.min k (S k)) with k in H by lia.
  rewrite H. unfold visit.
  destruct (nth_error (get s) k) eqn:E; [|reflexivity].
  now apply callback_prefix.
Qed.

Lemma forEachFrom_beyond n k s :
  (List.length (get s) <= k)%nat -> forEachFrom get callback n k s = s.
Proof.
  revert k s. induction n as [|n IH]; intros k s H; cbn; [reflexivity|].
  unfold visit. assert (E : nth_error (get s) k = None) by now apply nth_error_None.
  rewrite E. apply IH. lia.
Qed.

Lemma forEachFrom_skips n s pre a b post :
  get s = pre ++ a :: b :: post ->
  get (callback a (List.length pre) s) = pre ++ b :: post ->
  let s' := forEachFrom get callback (S n) (List.length pre) s in
  s' = forEachFrom get callback n (S (List.length pre))
         (callback a (List.length pre) s)
  /\ firstn (S (List.length pre)) (get s') = pre ++ [b]
  /\ (post = [] -> s' = callback a (List.length pre) s).
Proof.
  intros Hs Hcb s'.
  assert (E : s' = forEachFrom get callback n (S (List.length pre))
                     (callback a (List.length pre) s)).
  { subst s'. cbn. unfold visit. rewrite Hs, nth_error_app_mid. reflexivity. }
  split; [exact E|]. split.
  - rewrite E, forEachFrom_prefix, Hcb.
    change (b :: post) with ([b] ++ post). rewrite app_assoc.
    replace (S (List.length pre)) with (List.length (pre ++ [b]))
      by (rewrite length_app; cbn; lia).
    rewrite firstn_app, firstn_all, Nat.sub_diag. cbn. now rewrite app_nil_r.
  - intros ->. rewrite E. apply forEachFrom_beyond.
    rewrite Hcb, length_app. cbn. lia.
Qed.
End Skip.


Section LoopShapes.
Variable host : Host.

Lemma splice_store {A} (i : nat) (v : A) (l : list A) :
  splice i (store i v l) = splice i l.
Proof.
  unfold splice. revert i. induction l as [|a l IH]; intros [|i]; cbn; auto.
  f_equal. apply IH.
Qed.

Lemma set_bullets_id w : set_bullets (bullets w ++ []) w = w.
Proof. destruct w; cbn. unfold set_bullets; cbn. now rewrite app_nil_r. Qed.

Lemma fold_pushBullet {B} (f : B -> Bullet.t) (l : list B) (w : World) :
  fold_left (fun w x => pushBullet (f x) w) l w
  = set_bullets (bullets w ++ map f l) w.
Proof.
  revert w. induction l as [|x l IH]; intros w; cbn [fold_left map].
  - symmetry. apply set_bullets_id.
  - rewrite IH. destruct w; unfold pushBullet, set_bullets; cbn.
    now rewrite <- app_assoc.
Qed.


Lemma addsShots_refl w : addsShots w w.
Proof.
  exists [], []. destruct w; unfold set_cues, set_bullets; cbn.
  now rewrite !app_nil_r.
Qed.

Lemma enemyAct_adds t e w : addsShots w (snd (enemyAct host t e w)).
Proof.
  unfold enemyAct.
  destruct (isBoss (Enemy.type e)).
  - match goal with |- context [if Qgtb ?a ?b then _ else _] => destruct (Qgtb a b) end;
      [|apply addsShots_refl].
    cbn [snd]. unfold bossSpread, bossCircle, bossTargeted.
    destruct (_ =? 0)%Z; [|destruct (_ =? 1)%Z].
    + rewrite fold_pushBullet. eexists _, [playEnemyShoot]. reflexivity.
    + rewrite fold_pushBullet. eexists _, [playEnemyShoot]. reflexivity.
    + destruct (targetedVelocity _ _ _). eexists [_], [playEnemyShoot]. reflexivity.
  - match goal with |- context [if Qgtb ?a ?b then _ else _] => destruct (Qgtb a b) end;
      [|apply addsShots_refl].
    eexists [_], [playEnemyShoot]. reflexivity.
Qed.



Lemma enemyContact_enemies e w : enemies (snd (enemyContact host e w)) = enemies w.
Proof.
  unfold enemyContact. destruct (overlap _ _ _ _ _ _ _ _); [|reflexivity].
  destruct (hasBuff _ _); cbn [snd]; rewrite createExplosion_eq; reflexivity.
Qed.

Lemma enemyRemoval_enemies t e i w :
  enemies (enemyRemoval host t e i w)
  = if enemyGone e then splice i (enemies w) else enemies w.
Proof.
  unfold enemyRemoval, enemyGone. destruct (_ || _); [|reflexivity].
  destruct (Qle_bool _ _), (isBoss _); rewrite ?createExplosion_eq; reflexivity.
Qed.

Lemma enemyStep_enemies t a i w :
  enemies (enemyStep host t a i w)
  = if enemyGone (enemyAfter host t a w)
    then splice i (enemies w)
    else store i (enemyAfter host t a w) (enemies w).
Proof.
  unfold enemyStep, enemyAfter.
  destruct (enemyAct_adds t a w) as (bs & cs & Hw).
  destruct (enemyAct host t a w) as [e1 w1]. cbn [fst snd] in *.
  pose proof (enemyContact_enemies e1 w1) as Hc.
  destruct (enemyContact host e1 w1) as [e2 w2]. cbn [fst snd] in *.
  rewrite enemyRemoval_enemies. cbn [enemies set_enemies].
  rewrite Hc, Hw. cbn [enemies set_cues set_bullets].
  destruct (enemyGone e2); [apply splice_store | reflexivity].
Qed.

End LoopShapes.

Section LoopShapes2.
Variable host : Host.

Lemma bulletHitsEnemy_bullets e i s :
  bullets (snd (bulletHitsEnemy host e i s)) = bullets (snd s).
Proof.
  destruct s as [b w]. unfold bulletHitsEnemy.
  destruct (overlapNum _ _ _ _ _ _ _ _); [|reflexivity].
  cbn [snd]. rewrite createExplosion_eq. reflexivity.
Qed.

Lemma bulletHitsPlayer_bullets b w :
  bullets (snd (bulletHitsPlayer host b w)) = bullets w.
Proof.
  unfold bulletHitsPlayer.
  destruct (overlapNum _ _ _ _ _ _ _ _); [|reflexivity].
  destruct (hasBuff _ _); cbn [snd]; rewrite createExplosion_eq; reflexivity.
Qed.



Lemma bulletResolved_bullets b w :
  bullets (snd (bulletResolved host b w)) = bullets w.
Proof.
  unfold bulletResolved. destruct (Bullet.owner _).
  - apply (forEach_invariant (fun s => enemies (snd s)) (bulletHitsEnemy host)
             (fun s => bullets (snd s) = bullets w)); [|reflexivity].
    intros e k s Hs. now rewrite bulletHitsEnemy_bullets.
  - apply bulletHitsPlayer_bullets.
Qed.

Lemma bulletStep_bullets b i w :
  bullets (bulletStep host b i w)
  = if bulletOut (bulletAfter host b w)
    then splice i (bullets w)
    else store i (bulletAfter host b w) (bullets w).
Proof.
  unfold bulletStep, bulletAfter.
  pose proof (bulletResolved_bullets b w) as Hb. unfold bulletResolved in *.
  destruct (Bullet.owner (moveBullet b)).
  - destruct (forEach _ _ _) as [b1 w1]. cbn [fst snd] in *.
    destruct (bulletOut b1); cbn [bullets set_bullets]; rewrite Hb;
      [apply splice_store | reflexivity].
  - destruct (bulletHitsPlayer _ _ _) as [b1 w1]. cbn [fst snd] in *.
    destruct (bulletOut b1); cbn [bullets set_bullets]; rewrite Hb;
      [apply splice_store | reflexivity].
Qed.




Lemma powerUpStep_powerUps t pu i w :
  powerUps (powerUpStep host t pu i w)
  = let l1 := store i (powerUpMoved pu) (powerUps w) in
    let l2 := if powerUpTaken pu w then splice i l1 else l1 in
    if powerUpOut pu then splice i l2 else l2.
Proof.
  unfold powerUpStep, powerUpTaken, powerUpOut.
  fold (powerUpMoved pu).
  cbn [player set_powerUps].
  destruct (overlap _ _ _ _ _ _ _ _);
    destruct (Qgtb _ _); rewrite ?createExplosion_eq; reflexivity.
Qed.

Lemma particleStep_particles p i w :
  let p' := Particle.set_life (Particle.life p - 0.02)
              (Particle.set_y (Num.add (Particle.y p) (Fin (Particle.vy p)))
                 (Particle.set_x (Num.add (Particle.x p) (Fin (Particle.vx p))) p)) in
  particles (particleStep p i w)
  = if Qle_bool (Particle.life p') 0
    then splice i (particles w)
    else store i p' (particles w).
Proof.
  unfold particleStep. cbn.
  destruct (Qle_bool _ _); [apply splice_store | reflexivity].
Qed.

(** Each callback leaves the slots before its own index alone. *)
Lemma enemyStep_prefix t a j w :
  firstn j (enemies (enemyStep host t a j w)) = firstn j (enemies w).
Proof.
  rewrite enemyStep_enemies.
  destruct (enemyGone _); [apply firstn_splice | apply firstn_store]; lia.
Qed.

Lemma bulletStep_prefix b j w :
  firstn j (bullets (bulletStep host b j w)) = firstn j (bullets w).
Proof.
  rewrite bulletStep_bullets.
  destruct (bulletOut _); [apply firstn_splice | apply firstn_store]; lia.
Qed.

Lemma powerUpStep_prefix t pu j w :
  firstn j (powerUps (powerUpStep host t pu j w)) = firstn j (powerUps w).
Proof.
  rewrite powerUpStep_powerUps. cbv zeta.
  destruct (powerUpTaken pu w), (powerUpOut pu);
    rewrite ?firstn_splice, ?firstn_store by lia; reflexivity.
Qed.

End LoopShapes2.

Lemma powerUp_taken_not_out (pu : PowerUp.t) (w : World) :
  Player.y (player w) + Player.height (player w) <= CANVAS_HEIGHT ->
  powerUpTaken pu w = true -> powerUpOut pu = false.
Proof.
  unfold powerUpTaken, powerUpOut, overlap. intros Hin Ht.
  apply andb_prop in Ht as [_ Ht]. unfold Qgtb in *.
  apply Qltb_lt in Ht. apply Qltb_ge. lra.
Qed.

(** C10, as stated, fails: the entity that is skipped is skipped by its own
    loop, not by the rest of the tick.  The enemy [a] is dead and [b]
    follows it in the array; a bullet of the player lies on [b].  The loop
    of the enemies removes [a] and does not visit [b], which keeps its place
    and its health 20.  The loop of the bullets, later in the same tick,
    tests the bullet against every enemy: it collides with [b], whose health
    is 10 at the end of the tick, and the bullet is gone. *)
Lemma C10_skipped_enemy_is_hit_in_the_same_tick :
  let a := Enemy.mk 100 100 40 40 1.0 heavy 0 50 1000 1500 in
  let b := Enemy.mk 300 100 40 40 1.0 basic 20 20 1000 2500 in
  let s := Bullet.mk (Fin 310) (Fin 114) 4 12 (-4.0) byPlayer 10 None None in
  let w := set_bullets [s]
             (set_enemies [a; b]
                (initWorld (mkGameState playing 0 (Fin 0) (Fin 0)
                              ["standard"] "standard" None))) in
  enemies (updateEnemies RefHost.host 1000 w) = [b]
  /\ map Enemy.health (enemies (tick RefHost.host 1000 w)) = [10]
  /\ map Enemy.y (enemies (tick RefHost.host 1000 w)) = [100]
  /\ bullets (tick RefHost.host 1000 w) = [].
Proof.
  vm_compute. repeat split.
Qed.

(** C10, amended: the skip is that of the entity's own loop.  In each of
    the three loops (enemies, bullets, power-ups), take the loop at index
    [i], with the array holding [a] at [i] and [b] at [i + 1], and let the
    visit of [a] remove [a] (an enemy that is dead or below the field, a
    bullet out of bounds, a power-up picked up or out of bounds).  Then the
    loop goes on at index [i + 1] of the spliced array: [b], now at index
    [i], is not handed to the callback in this loop.  At the end of the loop
    [b] is at index [i] as it was before: not moved, with the same last-shot
    time and the same health, and still in the array even if it is itself
    dead or out of bounds.  When [b] was the last entity, the loop ends with
    the visit of [a]: no score is awarded for [b] in this loop.  The other
    loops of the tick see [b] as they see any entity. *)
Theorem C10_removal_skips_next :
  forall (host : Host) (t : Q) (n : nat) (w : World),
    (forall pre a b post,
        enemies w = pre ++ a :: b :: post ->
        enemyGone (enemyAfter host t a w) = true ->
        let i := List.length pre in
        let w' := forEachFrom enemies (enemyStep host t) (S n) i w in
        w' = forEachFrom enemies (enemyStep host t) n (S i)
               (enemyStep host t a i w)
        /\ firstn (S i) (enemies w') = pre ++ [b]
        /\ (post = [] -> w' = enemyStep host t a i w))
    /\ (forall pre a b post,
           bullets w = pre ++ a :: b :: post ->
           bulletOut (bulletAfter host a w) = true ->
           let i := List.length pre in
           let w' := forEachFrom bullets (bulletStep host) (S n) i w in
           w' = forEachFrom bullets (bulletStep host) n (S i)
                  (bulletStep host a i w)
           /\ firstn (S i) (bullets w') = pre ++ [b]
           /\ (post = [] -> w' = bulletStep host a i w))
    /\ (forall pre a b post,
           powerUps w = pre ++ a :: b :: post ->
           xorb (powerUpTaken a w) (powerUpOut a) = true ->
           let i := List.length pre in
           let w' := forEachFrom powerUps (powerUpStep host t) (S n) i w in
           w' = forEachFrom powerUps (powerUpStep host t) n (S i)
                  (powerUpStep host t a i w)
           /\ firstn (S i) (powerUps w') = pre ++ [b]
           /\ (post = [] -> w' = powerUpStep host t a i w)).
Proof.
  intros host t n w. split; [|split]; intros pre a b post Hl Hgone i w'.
  - apply (forEachFrom_skips enemies (enemyStep host t)
             (fun a j s _ => enemyStep_prefix host t a j s) n w pre a b post Hl).
    rewrite enemyStep_enemies, Hgone, Hl. apply splice_app.
  - apply (forEachFrom_skips bullets (bulletStep host)
             (fun a j s _ => bulletStep_prefix host a j s) n w pre a b post Hl).
    rewrite bulletStep_bullets, Hgone, Hl. apply splice_app.
  - apply (forEachFrom_skips powerUps (powerUpStep host t)
             (fun a j s _ => powerUpStep_prefix host t a j s) n w pre a b post Hl).
    rewrite powerUpStep_powerUps, Hl. cbv zeta.
    destruct (powerUpTaken a w), (powerUpOut a); try discriminate Hgone;
      rewrite ?splice_store; apply splice_app.
Qed.

Lemma C10_two_dead_enemies :
  let a := Enemy.mk 100 100 40 40 1.0 heavy 0 50 1000 1500 in
  let b := Enemy.mk 300 100 40 40 1.0 basic 0 20 1000 2500 in
  let w := set_enemies [a; b]
             (initWorld (mkGameState playing 0 (Fin 0) (Fin 0)
                           ["standard"] "standard" None)) in
  let w' := updateEnemies RefHost.host 1000 w in
  enemies w' = [b] /\ Player.score (player w') == 500.
Proof. vm_compute. split; reflexivity. Qed.

Lemma C10_removal_skips_next_witness :
  let a := Enemy.mk 100 100 40 40 1.0 heavy 0 50 1000 1500 in
  let b := Enemy.mk 300 100 40 40 1.0 basic 0 20 1000 2500 in
  let w := set_enemies [a; b]
             (initWorld (mkGameState playing 0 (Fin 0) (Fin 0)
                           ["standard"] "standard" None)) in
  firstn 1 (enemies (forEachFrom enemies (enemyStep RefHost.host 1000) 2 0 w))
  = [b].
Proof.
  intros a b w.
  destruct (C10_removal_skips_next RefHost.host 1000 1 w) as [He _].
  destruct (He [] a b [] eq_refl) as (_ & H & _); [vm_compute; reflexivity|].
  exact H.
Defined.

(** ** Score *)

Section ScoreFacts.
Variable host : Host.

Lemma enemyAct_type t a w : Enemy.type (fst (enemyAct host t a w)) = Enemy.type a.
Proof.
  unfold enemyAct. destruct (isBoss (Enemy.type a)).
  - destruct (Qltb _ _);
      match goal with |- context [if Qgtb ?a ?b then _ else _] => destruct (Qgtb a b) end;
      reflexivity.
  - match goal with |- context [if Qgtb ?a ?b then _ else _] => destruct (Qgtb a b) end;
      reflexivity.
Qed.

Lemma enemyContact_type e w : Enemy.type (fst (enemyContact host e w)) = Enemy.type e.
Proof.
  unfold enemyContact. destruct (overlap _ _ _ _ _ _ _ _); [|reflexivity].
  destruct (hasBuff _ _); reflexivity.
Qed.

Lemma enemyAfter_type t a w : Enemy.type (enemyAfter host t a w) = Enemy.type a.
Proof. unfold enemyAfter. now rewrite enemyContact_type, enemyAct_type. Qed.

Lemma enemyAct_player t a w : player (snd (enemyAct host t a w)) = player w.
Proof. destruct (enemyAct_adds host t a w) as (bs & cs & ->). reflexivity. Qed.

Lemma enemyContact_score e w :
  Player.score (player (snd (enemyContact host e w))) = Player.score (player w).
Proof.
  unfold enemyContact. destruct (overlap _ _ _ _ _ _ _ _); [|reflexivity].
  destruct (hasBuff _ _); cbn [snd]; rewrite createExplosion_eq; reflexivity.
Qed.

Lemma enemyRemoval_score t e i w :
  Player.score (player (enemyRemoval host t e i w))
  = if Qle_bool (Enemy.health e) 0
    then Player.score (player w) + award (Enemy.type e)
    else Player.score (player w).
Proof.
  unfold enemyRemoval.
  destruct (Qle_bool (Enemy.health e) 0) eqn:Hh.
  - rewrite orb_true_r. destruct (isBoss _); rewrite createExplosion_eq; reflexivity.
  - rewrite orb_false_r. destruct (Qgtb _ _); [|reflexivity].
    destruct (isBoss _); reflexivity.
Qed.

Lemma enemyStep_score t a i w :
  Player.score (player (enemyStep host t a i w))
  = if Qle_bool (Enemy.health (enemyAfter host t a w)) 0
    then Player.score (player w) + award (Enemy.type a)
    else Player.score (player w).
Proof.
  rewrite <- (enemyAfter_type t a w).
  unfold enemyStep, enemyAfter.
  pose proof (enemyAct_player t a w) as Hp.
  destruct (enemyAct host t a w) as [e1 w1]. cbn [fst snd] in *.
  pose proof (enemyContact_score e1 w1) as Hc.
  destruct (enemyContact host e1 w1) as [e2 w2]. cbn [fst snd] in *.
  rewrite enemyRemoval_score. cbn [player set_enemies].
  rewrite Hc, Hp. reflexivity.
Qed.

(** A body contact leaves the enemy with health 0. *)
Lemma enemyContact_health e w :
  overlap (Player.x (player w)) (Player.y (player w))
          (Player.width (player w)) (Player.height (player w))
          (Enemy.x e) (Enemy.y e) (Enemy.width e) (Enemy.height e) = true ->
  Enemy.health (fst (enemyContact host e w)) = 0.
Proof.
  intros H. unfold enemyContact. rewrite H.
  destruct (hasBuff _ _); reflexivity.
Qed.

Lemma bulletHitsEnemy_player e i s :
  player (snd (bulletHitsEnemy host e i s)) = player (snd s).
Proof.
  destruct s as [b w]. unfold bulletHitsEnemy.
  destruct (overlapNum _ _ _ _ _ _ _ _); [|reflexivity].
  cbn [snd]. rewrite createExplosion_eq. reflexivity.
Qed.

Lemma bulletHitsPlayer_score b w :
  Player.score (player (snd (bulletHitsPlayer host b w))) = Player.score (player w).
Proof.
  unfold bulletHitsPlayer.
  destruct (overlapNum _ _ _ _ _ _ _ _); [|reflexivity].
  destruct (hasBuff _ _); cbn [snd]; rewrite createExplosion_eq; reflexivity.
Qed.

Lemma bulletResolved_score b w :
  Player.score (player (snd (bulletResolved host b w))) = Player.score (player w).
Proof.
  unfold bulletResolved. destruct (Bullet.owner _).
  - apply (forEach_invariant (fun s => enemies (snd s)) (bulletHitsEnemy host)
             (fun s => Player.score (player (snd s)) = Player.score (player w)));
      [|reflexivity].
    intros e k s Hs. now rewrite bulletHitsEnemy_player.
  - apply bulletHitsPlayer_score.
Qed.

Lemma bulletStep_score b i w :
  Player.score (player (bulletStep host b i w)) = Player.score (player w).
Proof.
  unfold bulletStep.
  pose proof (bulletResolved_score b w) as Hb. unfold bulletResolved in Hb.
  destruct (Bullet.owner (moveBullet b)).
  - destruct (forEach _ _ _) as [b1 w1]. cbn [fst snd] in *.
    destruct (bulletOut b1); exact Hb.
  - destruct (bulletHitsPlayer _ _ _) as [b1 w1]. cbn [fst snd] in *.
    destruct (bulletOut b1); exact Hb.
Qed.

(** The bullet loop does not touch the score: an enemy that a bullet kills
    is not awarded by the hit. *)
Lemma updateBullets_score w :
  Player.score (player (updateBullets host w)) = Player.score (player w).
Proof.
  unfold updateBullets.
  apply (forEach_invariant bullets (bulletStep host)
           (fun s => Player.score (player s) = Player.score (player w)));
    [|reflexivity].
  intros b k s Hs. now rewrite bulletStep_score.
Qed.

Lemma update_gameover f w :
  status (gameState w) = gameover -> update host f w = w.
Proof. intros H. unfold update. now rewrite H. Qed.

End ScoreFacts.


(** C8, as stated, fails: a kill on the last frame of a run is never
    awarded.  In [lastFrameWorld] the frame at 5016 lets the player bullet
    bring the enemy to health 0 and the enemy bullet bring the player to
    health 0.  The status is [gameover], the dead enemy is still in the
    collection and the score is 0 (the final score recorded is 0 as well);
    no later frame changes anything, and the next start empties the
    collection and resets the score. *)
Lemma C8_kill_on_last_frame_is_never_awarded :
  let w1 := update RefHost.host (mkFrame 5016 5016 5016 5016) lastFrameWorld in
  status (gameState w1) = gameover
  /\ (exists e, enemies w1 = [e] /\ Enemy.type e = basic
                /\ Qle_bool (Enemy.health e) 0 = true)
  /\ Player.score (player w1) == 0
  /\ gs_score (gameState w1) == 0
  /\ (forall f, update RefHost.host f w1 = w1)
  /\ (forall now, enemies (resetGame now w1) = []
                  /\ Player.score (player (resetGame now w1)) == 0).
Proof.
  intros w1.
  assert (Hst : status (gameState w1) = gameover) by (vm_compute; reflexivity).
  split; [exact Hst|]. split.
  - eexists. split; [vm_compute; reflexivity|]. split; reflexivity.
  - split; [vm_compute; reflexivity|]. split; [vm_compute; reflexivity|]. split.
    + intros f. now apply update_gameover.
    + intros now. split; reflexivity.
Qed.

(** C8, amended.  The score is awarded by the visit of the enemy loop that
    removes the enemy.  Let [e] be the enemy [a] as its own visit leaves it
    (moved, and with health 0 if its body touches the player).  If the
    health of [e] is 0 or less, the score grows by exactly the award of the
    type of [a] (boss 5000, heavy 500, basic and fast 100) and [a] is
    spliced out in that same visit, so that it is not visited, and not
    awarded, again.  If the health of [e] is above 0 the score is unchanged,
    and [a] is spliced out exactly when it is below the field: leaving
    south awards nothing.  The bullet loop never changes the score: an
    enemy that a bullet kills is awarded by its next visit of the enemy
    loop, when there is one. *)
Theorem C8_award_at_the_removing_visit :
  forall (host : Host) (t : Q) (a : Enemy.t) (i : nat) (w : World),
    let e := enemyAfter host t a w in
    let w' := enemyStep host t a i w in
    Enemy.type e = Enemy.type a
    /\ (Qle_bool (Enemy.health e) 0 = true ->
        Player.score (player w')
        = Player.score (player w) + award (Enemy.type a)
        /\ enemies w' = splice i (enemies w))
    /\ (Qle_bool (Enemy.health e) 0 = false ->
        Player.score (player w') = Player.score (player w)
        /\ enemies w' = if Qgtb (Enemy.y e) CANVAS_HEIGHT
                        then splice i (enemies w)
                        else store i e (enemies w))
    /\ (let m := fst (enemyAct host t a w) in
        overlap (Player.x (player w)) (Player.y (player w))
                (Player.width (player w)) (Player.height (player w))
                (Enemy.x m) (Enemy.y m) (Enemy.width m) (Enemy.height m)
        = true ->
        Enemy.health e = 0)
    /\ (award boss == 5000 /\ award heavy == 500
        /\ award basic == 100 /\ award fast == 100)
    /\ Player.score (player (updateBullets host w)) = Player.score (player w).
Proof.
  intros host t a i w e w'. subst e w'.
  split; [apply enemyAfter_type|]. split; [|split; [|split; [|split]]].
  - intros Hh. rewrite enemyStep_score, enemyStep_enemies, Hh.
    unfold enemyGone. rewrite Hh, orb_true_r. split; reflexivity.
  - intros Hh. rewrite enemyStep_score, enemyStep_enemies, Hh.
    unfold enemyGone. rewrite Hh, orb_false_r. split; reflexivity.
  - intros m Hov. unfold enemyAfter. apply enemyContact_health.
    rewrite enemyAct_player. exact Hov.
  - repeat split; reflexivity.
  - apply updateBullets_score.
Qed.

(** A heavy enemy that the previous frame left with health 0. *)
Lemma C8_award_at_the_removing_visit_witness :
  let a := Enemy.mk 100 100 40 40 0.6 heavy 0 50 1000 1500 in
  let w := set_enemies [a]
             (initWorld (mkGameState playing 0 (Fin 0) (Fin 0)
                           ["standard"] "standard" None)) in
  Player.score (player (enemyStep RefHost.host 1016 a 0 w)) = 0 + 500
  /\ enemies (enemyStep RefHost.host 1016 a 0 w) = [].
Proof.
  intros a w.
  destruct (C8_award_at_the_removing_visit RefHost.host 1016 a 0 w)
    as (_ & H & _).
  apply H. vm_compute. reflexivity.
Defined.

(** ** Buffs *)


Section BuffFrame.
Variable host : Host.

Lemma movePlayer_buffs w : buffsOf (movePlayer w) = buffsOf w.
Proof.
  unfold movePlayer, buffsOf.
  destruct (held w "ArrowLeft" || held w "KeyA"),
           (held w "ArrowRight" || held w "KeyD"),
           (held w "ArrowUp" || held w "KeyW"),
           (held w "ArrowDown" || held w "KeyS"); reflexivity.
Qed.

Lemma shoot_buffs t w : buffsOf (shoot t w) = buffsOf w.
Proof.
  unfold shoot, buffsOf.
  destruct (held w "Space" && _); reflexivity.
Qed.

Lemma spawnEnemy_buffs t w : buffsOf (spawnEnemy host t w) = buffsOf w.
Proof.
  unfold spawnEnemy, buffsOf. destruct (bossActive w); [reflexivity|].
  destruct (Qgtb _ _); reflexivity.
Qed.

Lemma spawnPowerUp_buffs t w : buffsOf (spawnPowerUp host t w) = buffsOf w.
Proof. unfold spawnPowerUp, buffsOf. destruct (Qgtb _ _); reflexivity. Qed.

Lemma spawnBoss_buffs t w : buffsOf (spawnBoss t w) = buffsOf w.
Proof.
  unfold spawnBoss, buffsOf. destruct (bossActive w); [reflexivity|].
  destruct (Qgtb _ _); reflexivity.
Qed.

Lemma enemyContact_buffs e w : buffsOf (snd (enemyContact host e w)) = buffsOf w.
Proof.
  unfold enemyContact, buffsOf. destruct (overlap _ _ _ _ _ _ _ _); [|reflexivity].
  destruct (hasBuff _ _); cbn [snd]; rewrite createExplosion_eq; reflexivity.
Qed.

Lemma enemyRemoval_buffs t e i w : buffsOf (enemyRemoval host t e i w) = buffsOf w.
Proof.
  unfold enemyRemoval, buffsOf. destruct (_ || _); [|reflexivity].
  destruct (Qle_bool _ _), (isBoss _); rewrite ?createExplosion_eq; reflexivity.
Qed.

Lemma enemyStep_buffs t a i w : buffsOf (enemyStep host t a i w) = buffsOf w.
Proof.
  unfold enemyStep.
  pose proof (enemyAct_player host t a w) as Hp.
  destruct (enemyAct host t a w) as [e1 w1]. cbn [fst snd] in *.
  pose proof (enemyContact_buffs e1 w1) as Hc.
  destruct (enemyContact host e1 w1) as [e2 w2]. cbn [fst snd] in *.
  rewrite enemyRemoval_buffs. unfold buffsOf in *. cbn [player set_enemies].
  now rewrite Hc, Hp.
Qed.

Lemma updateEnemies_buffs t w : buffsOf (updateEnemies host t w) = buffsOf w.
Proof.
  unfold updateEnemies.
  apply (forEach_invariant enemies (enemyStep host t)
           (fun s => buffsOf s = buffsOf w)); [|reflexivity].
  intros a k s Hs. now rewrite enemyStep_buffs.
Qed.

Lemma bulletHitsPlayer_buffs b w :
  buffsOf (snd (bulletHitsPlayer host b w)) = buffsOf w.
Proof.
  unfold bulletHitsPlayer, buffsOf.
  destruct (overlapNum _ _ _ _ _ _ _ _); [|reflexivity].
  destruct (hasBuff _ _); cbn [snd]; rewrite createExplosion_eq; reflexivity.
Qed.

Lemma bulletResolved_buffs b w : buffsOf (snd (bulletResolved host b w)) = buffsOf w.
Proof.
  unfold bulletResolved. destruct (Bullet.owner _).
  - apply (forEach_invariant (fun s => enemies (snd s)) (bulletHitsEnemy host)
             (fun s => buffsOf (snd s) = buffsOf w)); [|reflexivity].
    intros e k s Hs. unfold buffsOf in *. now rewrite bulletHitsEnemy_player.
  - apply bulletHitsPlayer_buffs.
Qed.

Lemma bulletStep_buffs b i w : buffsOf (bulletStep host b i w) = buffsOf w.
Proof.
  unfold bulletStep.
  pose proof (bulletResolved_buffs b w) as Hb. unfold bulletResolved in Hb.
  destruct (Bullet.owner (moveBullet b)).
  - destruct (forEach _ _ _) as [b1 w1]. cbn [fst snd] in *.
    destruct (bulletOut b1); exact Hb.
  - destruct (bulletHitsPlayer _ _ _) as [b1 w1]. cbn [fst snd] in *.
    destruct (bulletOut b1); exact Hb.
Qed.

Lemma updateBullets_buffs w : buffsOf (updateBullets host w) = buffsOf w.
Proof.
  unfold updateBullets.
  apply (forEach_invariant bullets (bulletStep host)
           (fun s => buffsOf s = buffsOf w)); [|reflexivity].
  intros b k s Hs. now rewrite bulletStep_buffs.
Qed.

Lemma particleStep_buffs p i w : buffsOf (particleStep p i w) = buffsOf w.
Proof.
  unfold particleStep, buffsOf.
  match goal with |- context [if ?c then _ else _] => destruct c end; reflexivity.
Qed.

Lemma updateParticles_buffs w : buffsOf (updateParticles w) = buffsOf w.
Proof.
  unfold updateParticles.
  apply (forEach_invariant particles particleStep
           (fun s => buffsOf s = buffsOf w)); [|reflexivity].
  intros b k s Hs. now rewrite particleStep_buffs.
Qed.

Lemma updateHud_buffs t w : buffsOf (updateHud t w) = buffsOf w.
Proof. reflexivity. Qed.

Lemma updateBackground_buffs w : buffsOf (updateBackground w) = buffsOf w.
Proof. reflexivity. Qed.

Lemma checkGameOver_buffs w : buffsOf (checkGameOver w) = buffsOf w.
Proof. unfold checkGameOver, buffsOf. destruct (Qle_bool _ _); reflexivity. Qed.

Lemma updateBuffs_buffs t w :
  buffsOf (updateBuffs t w)
  = filter (fun b => Qgtb (Buff.endTime b) t) (buffsOf w).
Proof. reflexivity. Qed.

Lemma powerUpStep_buffs t pu i w :
  buffsOf (powerUpStep host t pu i w)
  = if powerUpTaken pu w
    then applyBuff (PowerUp.type pu) (t + 10000) (buffsOf w)
    else buffsOf w.
Proof.
  unfold powerUpStep, powerUpTaken, buffsOf.
  fold (powerUpMoved pu). cbn [player set_powerUps].
  destruct (overlap _ _ _ _ _ _ _ _);
    destruct (Qgtb _ _); rewrite ?createExplosion_eq; reflexivity.
Qed.

(** A property of the buff list that expiry and pick-up keep is kept by the
    whole tick. *)
Section Invariant.
Variable t : Q.
Variable P : list Buff.t -> Prop.
Hypothesis P_filter :
  forall l, P l -> P (filter (fun b => Qgtb (Buff.endTime b) t) l).
Hypothesis P_apply :
  forall ty l, P l -> P (applyBuff ty (t + 10000) l).

Lemma updatePowerUps_buffs_invariant w :
  P (buffsOf w) -> P (buffsOf (updatePowerUps host t w)).
Proof.
  unfold updatePowerUps.
  apply (forEach_invariant powerUps (powerUpStep host t)
           (fun s => P (buffsOf s))).
  intros pu k s Hs. rewrite powerUpStep_buffs.
  destruct (powerUpTaken pu s); [now apply P_apply | exact Hs].
Qed.

Lemma tick_buffs_invariant w :
  P (buffsOf w) -> P (buffsOf (tick host t w)).
Proof.
  intros H. rewrite tick_simulate, updateHud_buffs, checkGameOver_buffs.
  unfold simulate.
  rewrite updateBackground_buffs, updateParticles_buffs, updateBullets_buffs,
    updateEnemies_buffs.
  apply updatePowerUps_buffs_invariant.
  rewrite updateBuffs_buffs. apply P_filter.
  now rewrite spawnBoss_buffs, spawnPowerUp_buffs, spawnEnemy_buffs,
    shoot_buffs, movePlayer_buffs.
Qed.
End Invariant.

End BuffFrame.

Section ApplyBuff.

Lemma BuffType_eqb_eq a b : BuffType_eqb a b = true <-> a = b.
Proof. destruct a, b; cbn; split; congruence. Qed.

Lemma hasBuff_In ty l : hasBuff ty l = true <-> In ty (map Buff.type l).
Proof.
  unfold hasBuff. rewrite existsb_exists, in_map_iff. split.
  - intros (b & Hin & Hb). apply BuffType_eqb_eq in Hb. now exists b.
  - intros (b & Hb & Hin). exists b. split; [assumption|]. now apply BuffType_eqb_eq.
Qed.

Lemma applyBuff_types ty e l :
  map Buff.type (applyBuff ty e l)
  = if hasBuff ty l then map Buff.type l else map Buff.type l ++ [ty].
Proof.
  unfold hasBuff. induction l as [|b l IH]; cbn; [reflexivity|].
  destruct (BuffType_eqb (Buff.type b) ty) eqn:E; cbn.
  - reflexivity.
  - rewrite IH. destruct (existsb _ l); reflexivity.
Qed.

Lemma applyBuff_length ty e l :
  hasBuff ty l = true -> List.length (applyBuff ty e l) = List.length l.
Proof.
  intros H. rewrite <- (length_map Buff.type), applyBuff_types, H.
  apply length_map.
Qed.

Lemma applyBuff_absent ty e l :
  hasBuff ty l = false -> applyBuff ty e l = l ++ [Buff.mk ty e].
Proof.
  unfold hasBuff. induction l as [|b l IH]; cbn; [reflexivity|].
  destruct (BuffType_eqb (Buff.type b) ty); cbn; [discriminate|].
  intros H. now rewrite IH.
Qed.

Lemma applyBuff_NoDup ty e l :
  NoDup (map Buff.type l) -> NoDup (map Buff.type (applyBuff ty e l)).
Proof.
  intros H. rewrite applyBuff_types.
  destruct (hasBuff ty l) eqn:E; [exact H|].
  apply NoDup_app; [exact H | repeat constructor; intros [] |].
  intros x Hx [<- | []].
  apply hasBuff_In in Hx. congruence.
Qed.

Lemma applyBuff_others ty e l b :
  In b l -> Buff.type b <> ty -> In b (applyBuff ty e l).
Proof.
  induction l as [|c l IH]; cbn; [tauto|].
  intros [-> | Hin] Hne.
  - destruct (BuffType_eqb (Buff.type b) ty) eqn:E.
    + apply BuffType_eqb_eq in E. contradiction.
    + now left.
  - destruct (BuffType_eqb (Buff.type c) ty); right; auto.
Qed.

Lemma applyBuff_In ty e l b' :
  In b' (applyBuff ty e l) ->
  (Buff.type b' = ty /\ Buff.endTime b' = e) \/ In b' l.
Proof.
  induction l as [|c l IH]; cbn.
  - intros [<- | []]. now left.
  - destruct (BuffType_eqb (Buff.type c) ty) eqn:E.
    + intros [<- | Hin]; [left | right; now right].
      apply BuffType_eqb_eq in E. now split.
    + intros [<- | Hin]; [right; now left|].
      destruct (IH Hin) as [H | H]; [now left | right; now right].
Qed.

(** With one entry per type, the entry of the type picked up carries the
    new expiry. *)
Lemma applyBuff_refreshed ty e l b' :
  NoDup (map Buff.type l) ->
  In b' (applyBuff ty e l) -> Buff.type b' = ty -> Buff.endTime b' = e.
Proof.
  induction l as [|c l IH]; cbn.
  - intros _ [<- | []] _. reflexivity.
  - intros Hnd. inversion Hnd as [|x xs Hnin Hnd']; subst.
    destruct (BuffType_eqb (Buff.type c) ty) eqn:E.
    + apply BuffType_eqb_eq in E.
      intros [<- | Hin] Hty; [reflexivity|].
      exfalso. apply Hnin. rewrite E, <- Hty. now apply in_map.
    + intros [<- | Hin] Hty.
      * apply BuffType_eqb_eq in Hty. congruence.
      * now apply IH.
Qed.

Lemma applyBuff_present ty e l :
  exists b', In b' (applyBuff ty e l) /\ Buff.type b' = ty /\ Buff.endTime b' = e.
Proof.
  induction l as [|c l IH]; cbn.
  - eexists. split; [now left|]. split; reflexivity.
  - destruct (BuffType_eqb (Buff.type c) ty) eqn:E.
    + exists (Buff.set_endTime e c). split; [now left|].
      apply BuffType_eqb_eq in E. now split.
    + destruct IH as (b' & Hin & H). exists b'. split; [now right | exact H].
Qed.

Lemma expiry_keeps_types_distinct (t : Q) (l : list Buff.t) :
  NoDup (map Buff.type l) ->
  NoDup (map Buff.type (filter (fun b => Qgtb (Buff.endTime b) t) l)).
Proof.
  intros Hnd. induction l as [|b l IH]; cbn; [constructor|].
  inversion Hnd as [|x xs Hnin Hnd']; subst.
  destruct (Qgtb (Buff.endTime b) t); cbn; [|now apply IH].
  constructor; [|now apply IH].
  intros Hin. apply Hnin.
  apply in_map_iff in Hin as (c & Hc & Hin).
  apply filter_In in Hin as [Hin _]. rewrite <- Hc. now apply in_map.
Qed.

End ApplyBuff.



Section BuffRun.
Variable host : Host.

Lemma tick_oneEntryPerType t w :
  oneEntryPerType w -> oneEntryPerType (tick host t w).
Proof.
  apply (tick_buffs_invariant host t (fun l => NoDup (map Buff.type l))).
  - intros l. apply expiry_keeps_types_distinct.
  - intros ty l. apply applyBuff_NoDup.
Qed.

Lemma tick_expiriesBy T t w :
  T <= t -> expiriesBy T w -> expiriesBy t (tick host t w).
Proof.
  intros HT H. unfold expiriesBy.
  refine (tick_buffs_invariant host t
            (fun l => forall b, In b l -> Buff.endTime b <= t + 10000)
            _ _ w _).
  - intros l Hl b Hb. apply filter_In in Hb as [Hb _]. auto.
  - intros ty l Hl b Hb. destruct (applyBuff_In _ _ _ _ Hb) as [[_ ->] | Hin];
      [apply Qle_refl | auto].
  - intros b Hb. specialize (H b Hb). lra.
Qed.

Lemma step_oneEntryPerType ev w :
  oneEntryPerType w -> oneEntryPerType (step host ev w).
Proof.
  intros H. destruct ev as [f | code | code | now | now | | | plane];
    cbn [step]; try exact H.
  - unfold update. destruct (status (gameState w)); try exact H.
    + now apply tick_oneEntryPerType.
    + destruct (_ <=? 0)%Z; [exact H|].
      destruct (_ =? 3)%Z; exact H.
  - unfold togglePause. destruct (status (gameState w)); exact H.
  - destruct (status (gameState w)); try exact H; constructor.
  - destruct (status (gameState w)); exact H.
  - destruct (status (gameState w)); exact H.
  - destruct (status (gameState w)); try exact H.
    destruct (Shop.cardClick plane (gameState w)). exact H.
Qed.

Lemma run_oneEntryPerType evs w :
  oneEntryPerType w -> oneEntryPerType (run host evs w).
Proof.
  revert w. induction evs as [|ev evs IH]; intros w H; [exact H|].
  unfold run in *. cbn [fold_left]. apply IH. now apply step_oneEntryPerType.
Qed.

End BuffRun.

(** C5, as stated, fails: a pick-up of an active type does not always
    extend the expiry strictly.  Two shields [a] and [c] lie on the player,
    with another power-up between them in the array.  In the loop of one
    tick, at adjusted time 5000, the visit of [a] picks it up (expiry 15000)
    and removes it; the visit of index 1 then finds [c], picks it up while
    the shield is active, and writes the same expiry 15000: the expiry is
    not later than it was. *)
Lemma C5_second_pickup_in_a_tick_does_not_extend :
  let a := PowerUp.mk 225 565 30 30 1.2 shield in
  let b := PowerUp.mk 20 100 30 30 1.2 rapidFire in
  let c := PowerUp.mk 230 570 30 30 1.2 shield in
  let w := set_powerUps [a; b; c]
             (initWorld (mkGameState playing 0 (Fin 0) (Fin 0)
                           ["standard"] "standard" None)) in
  let w1 := powerUpStep RefHost.host 5000 a 0 w in
  let w2 := powerUpStep RefHost.host 5000 c 1 w1 in
  updatePowerUps RefHost.host 5000 w = w2
  /\ buffsOf w = []
  /\ buffsOf w1 = [Buff.mk shield 15000]
  /\ powerUps w1 = [b; c]
  /\ powerUpTaken c w1 = true
  /\ buffsOf w2 = [Buff.mk shield 15000]
  /\ buffsOf (tick RefHost.host 5000 w) = [Buff.mk shield 15000].
Proof.
  vm_compute. repeat split.
Qed.

(** C5, amended.  The active buffs hold at most one entry per buff type at
    every point of a run: the list is empty at start-up and at every start
    of a run, and no event (frame, key, click) breaks the property.  A
    power-up that the player picks up while its type is active adds no
    entry: the list keeps its length and its types, the entry of that type
    gets the expiry [adjusted time + 10000], and the other entries are
    untouched; while its type is not active, one entry with that expiry is
    appended.  Expiries set up to an adjusted time [T] are at most
    [T + 10000], and a tick keeps that bound for its own time; so a pick-up
    at adjusted time [t >= T] never makes the expiry earlier than it was,
    and a pick-up at a later time [t > T] makes it strictly later. *)
Theorem C5_buffs_one_per_type_and_refreshed :
  forall host : Host,
    (forall g, oneEntryPerType (initWorld g))
    /\ (forall evs w, oneEntryPerType w -> oneEntryPerType (run host evs w))
    /\ (forall T t w, T <= t -> expiriesBy T w -> expiriesBy t (tick host t w))
    /\ (forall t pu i w,
           oneEntryPerType w -> powerUpTaken pu w = true ->
           let l := buffsOf w in
           let l' := buffsOf (powerUpStep host t pu i w) in
           oneEntryPerType (powerUpStep host t pu i w)
           /\ (exists b', In b' l' /\ Buff.type b' = PowerUp.type pu
                          /\ Buff.endTime b' = t + 10000)
           /\ (forall b', In b' l' -> Buff.type b' = PowerUp.type pu ->
                          Buff.endTime b' = t + 10000)
           /\ (forall b, In b l -> Buff.type b <> PowerUp.type pu -> In b l')
           /\ (hasBuff (PowerUp.type pu) l = true ->
               List.length l' = List.length l
               /\ map Buff.type l' = map Buff.type l)
           /\ (hasBuff (PowerUp.type pu) l = false ->
               l' = l ++ [Buff.mk (PowerUp.type pu) (t + 10000)])
           /\ (forall T b b',
                  T <= t -> expiriesBy T w ->
                  In b l -> Buff.type b = PowerUp.type pu ->
                  In b' l' -> Buff.type b' = PowerUp.type pu ->
                  Buff.endTime b <= Buff.endTime b'
                  /\ (T < t -> Buff.endTime b < Buff.endTime b'))).
Proof.
  intros host. split; [|split; [|split]].
  - intros g. constructor.
  - apply run_oneEntryPerType.
  - apply tick_expiriesBy.
  - intros t pu i w Hnd Htaken l l'.
    assert (Hl' : l' = applyBuff (PowerUp.type pu) (t + 10000) l).
    { subst l l'. now rewrite powerUpStep_buffs, Htaken. }
    assert (Hrefreshed : forall b', In b' l' -> Buff.type b' = PowerUp.type pu ->
                                    Buff.endTime b' = t + 10000).
    { intros b' Hin Hty. rewrite Hl' in Hin.
      exact (applyBuff_refreshed _ _ _ _ Hnd Hin Hty). }
    split; [|split; [|split; [|split; [|split; [|split]]]]].
    + unfold oneEntryPerType. fold l'. rewrite Hl'. now apply applyBuff_NoDup.
    + rewrite Hl'. apply applyBuff_present.
    + exact Hrefreshed.
    + intros b Hin Hne. rewrite Hl'. now apply applyBuff_others.
    + intros Hhas. rewrite Hl'. split; [now apply applyBuff_length|].
      now rewrite applyBuff_types, Hhas.
    + intros Hhas. rewrite Hl'. now apply applyBuff_absent.
    + intros T b b' HT Hexp Hin Hty Hin' Hty'.
      rewrite (Hrefreshed b' Hin' Hty'). specialize (Hexp b Hin).
      split; [lra | intros HT'; lra].
Qed.

(** A shield picked up at adjusted time 2000 and again at 5000. *)
Lemma C5_buffs_one_per_type_and_refreshed_witness :
  let pu := PowerUp.mk 225 565 30 30 1.2 shield in
  let w := set_powerUps [pu]
             (set_player
                (Player.mk 220 560 40 40 2.5 "standard" 100 100 0 0 200
                   [Buff.mk rapidFire 11000; Buff.mk shield 12000])
                (initWorld (mkGameState playing 0 (Fin 0) (Fin 0)
                              ["standard"] "standard" None))) in
  map Buff.type (buffsOf (powerUpStep RefHost.host 5000 pu 0 w))
  = [rapidFire; shield]
  /\ forall b', In b' (buffsOf (powerUpStep RefHost.host 5000 pu 0 w)) ->
                Buff.type b' = shield -> 12000 < Buff.endTime b'.
Proof.
  intros pu w.
  destruct (C5_buffs_one_per_type_and_refreshed RefHost.host)
    as (_ & _ & _ & H).
  destruct (H 5000 pu 0%nat w) as (_ & _ & _ & _ & Hsame & _ & Hlater).
  - repeat constructor; cbn; intuition discriminate.
  - vm_compute. reflexivity.
  - split.
    + apply Hsame. reflexivity.
    + intros b' Hin Hty.
      apply (Hlater 2000 (Buff.mk shield 12000) b'); auto.
      * vm_compute. discriminate.
      * intros b [<- | [<- | []]]; cbn; lra.
      * right. now left.
      * reflexivity.
Defined.


(** * Further properties of the simulation *)

(** ** Frames outside of play, the countdown, the spawner *)

(** X1.  A frame that arrives while the game is not being played moves
    nothing of the simulation: player, entities, spawn clocks, random
    draws, sounds, storage and HUD are as before.  Only a frame of the
    countdown changes anything at all, and the only change of status it can
    make is from countdown to playing. *)
Theorem X_update_outside_play_keeps_entities :
  forall (host : Host) (f : Frame) (w : World),
    status (gameState w) <> playing ->
    entities (update host f w) = entities w
    /\ (status (gameState w) <> countdown -> update host f w = w)
    /\ (status (gameState (update host f w)) = status (gameState w)
        \/ (status (gameState w) = countdown
            /\ status (gameState (update host f w)) = playing)).
Proof.
  intros host f w Hst. unfold update.
  destruct (status (gameState w)) eqn:E; try congruence;
    try (split; [reflexivity | split; [reflexivity | now left]]).
  destruct (_ <=? 0)%Z.
  - split; [reflexivity|]. split; [congruence|]. right. split; reflexivity.
  - destruct (_ =? 3)%Z; (split; [reflexivity|]; split; [congruence|]; left);
      exact E.
Qed.

Lemma Qfloor_eq_iff (x : Q) (k : Z) :
  Qfloor x = k <-> inject_Z k <= x /\ x < inject_Z (k + 1).
Proof.
  split.
  - intros <-. split; [apply Qfloor_le | apply Qlt_floor].
  - intros [Hlo Hhi].
    assert (H1 : (k <= Qfloor x)%Z) by (apply Qfloor_ge; exact Hlo).
    assert (H2 : (Qfloor x < k + 1)%Z).
    { rewrite Zlt_Qlt. eapply Qle_lt_trans; [apply Qfloor_le | exact Hhi]. }
    lia.
Qed.


Lemma unitValue_range (u : Unit01) : 0 <= unitValue u /\ unitValue u < 1.
Proof.
  unfold unitValue.
  pose proof (Z.mod_pos_bound (Z.of_N (u_num u)) (Zpos (u_den u)) eq_refl)
    as [Hlo Hhi].
  split.
  - unfold Qle. cbn. lia.
  - unfold Qlt. cbn. lia.
Qed.

Section SpawnShape.
Variable host : Host.

(** X3.  The spawn interval of the enemies falls from 3000 ms to 800 ms
    over the first two minutes of a run and stays at 800 ms afterwards. *)
Theorem X_spawn_interval_ramp t w :
  gameStartTime w <= t ->
  800 <= spawnInterval t w /\ spawnInterval t w <= 3000
  /\ (gameStartTime w + 120000 <= t -> spawnInterval t w == 800).
Proof.
  intros Ht. unfold spawnInterval.
  set (x := (t - gameStartTime w) / 120000).
  assert (Hx : 0 <= x).
  { unfold x. apply Qle_shift_div_l; [reflexivity|]. lra. }
  assert (Hm : Qmin x 1 <= 1).
  { destruct (Qmin_case x 1) as [E | E]; rewrite E.
    - rewrite <- E. unfold Qmin.
      destruct (Qle_bool x 1) eqn:B; [now apply Qle_bool_iff | apply Qle_refl].
    - apply Qle_refl. }
  assert (Hm0 : 0 <= Qmin x 1).
  { destruct (Qmin_case x 1) as [E | E]; rewrite E; [exact Hx | discriminate]. }
  split; [lra|]. split; [lra|].
  intros Hlate.
  assert (H1 : 1 <= x).
  { unfold x. apply Qle_shift_div_l; [reflexivity|]. lra. }
  assert (E : Qmin x 1 == 1).
  { unfold Qmin. destruct (Qle_bool x 1) eqn:B; [|reflexivity].
    apply Qle_bool_iff in B. lra. }
  rewrite E. reflexivity.
Qed.

(** X4.  [spawnEnemy] adds an enemy exactly when no boss is present and
    more than the spawn interval has passed since the last spawn.  The
    enemy is basic, fast or heavy, lies inside the width of the field above
    its top edge, has full health, and costs two random draws; otherwise
    the world is unchanged. *)
Theorem X_spawnEnemy_shape :
  forall (t : Q) (w : World),
    let w' := spawnEnemy host t w in
    (bossActive w = false /\ Qgtb (t - lastEnemySpawn w) (spawnInterval t w) = true ->
     exists e,
       enemies w' = enemies w ++ [e]
       /\ lastEnemySpawn w' = t
       /\ randomCalls w' = (2 + randomCalls w)%nat
       /\ (Enemy.type e = basic \/ Enemy.type e = fast \/ Enemy.type e = heavy)
       /\ 0 <= Enemy.x e /\ Enemy.x e < CANVAS_WIDTH - Enemy.width e
       /\ Enemy.y e == -50
       /\ Enemy.width e == 40 /\ Enemy.height e == 40
       /\ Enemy.lastShot e == 0
       /\ Enemy.health e = Enemy.maxHealth e
       /\ (Enemy.type e = heavy ->
           Enemy.speed e == 0.6 /\ Enemy.health e == 50
           /\ Enemy.fireRate e == 1500)
       /\ (Enemy.type e = fast ->
           Enemy.speed e == 1.5 /\ Enemy.health e == 20
           /\ Enemy.fireRate e == 2500)
       /\ (Enemy.type e = basic ->
           Enemy.speed e == 1 /\ Enemy.health e == 20
           /\ Enemy.fireRate e == 2500))
    /\ (bossActive w = true \/ Qgtb (t - lastEnemySpawn w) (spawnInterval t w) = false ->
        w' = w).
Proof.
  intros t w w'. subst w'. unfold spawnEnemy. fold (spawnInterval t w). split.
  - intros [Hb Hg]. rewrite Hb, Hg. cbn [random fst snd set_randomCalls randomCalls].
    eexists. split; [reflexivity|]. split; [reflexivity|]. split; [reflexivity|].
    cbn [Enemy.type Enemy.x Enemy.y Enemy.width Enemy.height Enemy.lastShot
         Enemy.health Enemy.maxHealth Enemy.speed Enemy.fireRate].
    destruct (unitValue_range (Math_random host (S (randomCalls w)))) as [Hlo Hhi].
    set (r := unitValue (Math_random host (S (randomCalls w)))) in *.
    split.
    { unfold pickEnemyType. destruct (Qfloor _) as [|[| |]|]; auto. }
    split; [unfold CANVAS_WIDTH; nra|].
    split; [unfold CANVAS_WIDTH; nra|].
    split; [reflexivity|]. split; [reflexivity|]. split; [reflexivity|].
    split; [reflexivity|]. split; [reflexivity|].
    destruct (pickEnemyType _); repeat split; intros; try discriminate;
      repeat split; reflexivity.
  - intros [Hb | Hg]; [now rewrite Hb|].
    destruct (bossActive w); [reflexivity|]. now rewrite Hg.
Qed.

End SpawnShape.

Section ForEachAt.
Context {St A : Type}.
Variable get : St -> list A.
Variable callback : A -> nat -> St -> St.

(** As [forEach_invariant], with the callback knowing that its argument is
    the element at its index. *)
Lemma forEachFrom_invariant_at (P : St -> Prop) :
  (forall a k s, nth_error (get s) k = Some a -> P s -> P (callback a k s)) ->
  forall n k s, P s -> P (forEachFrom get callback n k s).
Proof.
  intros Hcb. induction n as [|n IH]; intros k s Hs; cbn; [exact Hs|].
  apply IH. unfold visit. destruct (nth_error (get s) k) eqn:E; auto.
Qed.

Lemma forEach_invariant_at (P : St -> Prop) :
  (forall a k s, nth_error (get s) k = Some a -> P s -> P (callback a k s)) ->
  forall s, P s -> P (forEach get callback s).
Proof. intros Hcb s. apply forEachFrom_invariant_at, Hcb. Qed.
End ForEachAt.

Section BossFacts.
Variable host : Host.

Lemma countBoss_app l1 l2 : countBoss (l1 ++ l2) = (countBoss l1 + countBoss l2)%nat.
Proof. unfold countBoss. now rewrite filter_app, length_app. Qed.

Lemma countBoss_zero l : existsb (fun e => isBoss (Enemy.type e)) l = false -> countBoss l = 0%nat.
Proof.
  unfold countBoss. induction l as [|e l IH]; cbn; [reflexivity|].
  destruct (isBoss (Enemy.type e)); cbn; [discriminate | exact IH].
Qed.

Lemma countBoss_splice i l : (countBoss (splice i l) <= countBoss l)%nat.
Proof.
  unfold splice. rewrite <- (firstn_skipn i l) at 3.
  rewrite !countBoss_app.
  destruct (skipn i l) as [|x r] eqn:E.
  - rewrite skipn_all2; [cbn; lia|].
    apply (f_equal (@List.length _)) in E. rewrite length_skipn in E. cbn in E. lia.
  - replace (skipn (S i) l) with r.
    + change (x :: r) with ([x] ++ r). rewrite countBoss_app. lia.
    + change (S i) with (1 + i)%nat. rewrite <- skipn_skipn, E. reflexivity.
Qed.

Lemma countBoss_store i e l a :
  nth_error l i = Some a -> Enemy.type e = Enemy.type a ->
  countBoss (store i e l) = countBoss l.
Proof.
  unfold countBoss. revert i. induction l as [|x l IH]; intros [|i]; cbn; try discriminate.
  - intros [= ->] ->. destruct (isBoss (Enemy.type a)); reflexivity.
  - intros Hn Ht. destruct (isBoss (Enemy.type x)); cbn; auto.
Qed.

Lemma enemyStep_countBoss t a i w :
  nth_error (enemies w) i = Some a ->
  (countBoss (enemies (enemyStep host t a i w)) <= countBoss (enemies w))%nat.
Proof.
  intros Hn. rewrite enemyStep_enemies.
  destruct (enemyGone _); [apply countBoss_splice|].
  rewrite (countBoss_store i _ _ a Hn); [lia | apply enemyAfter_type].
Qed.

Lemma updateEnemies_countBoss t w :
  (countBoss (enemies (updateEnemies host t w)) <= countBoss (enemies w))%nat.
Proof.
  unfold updateEnemies.
  apply (forEach_invariant_at enemies (enemyStep host t)
           (fun s => (countBoss (enemies s) <= countBoss (enemies w))%nat));
    [|lia].
  intros a k s Hn Hs. pose proof (enemyStep_countBoss t a k s Hn). lia.
Qed.

Lemma bulletHitsEnemy_countBoss e i s :
  nth_error (enemies (snd s)) i = Some e ->
  countBoss (enemies (snd (bulletHitsEnemy host e i s))) = countBoss (enemies (snd s)).
Proof.
  destruct s as [b w]. cbn [snd]. intros Hn. unfold bulletHitsEnemy.
  destruct (overlapNum _ _ _ _ _ _ _ _); [|reflexivity].
  cbn [snd]. rewrite createExplosion_eq. cbn [enemies set_particles set_randomCalls set_enemies].
  now apply (countBoss_store i _ _ e).
Qed.

Lemma bulletHitsPlayer_enemies b w :
  enemies (snd (bulletHitsPlayer host b w)) = enemies w.
Proof.
  unfold bulletHitsPlayer.
  destruct (overlapNum _ _ _ _ _ _ _ _); [|reflexivity].
  destruct (hasBuff _ _); cbn [snd]; rewrite createExplosion_eq; reflexivity.
Qed.

Lemma bulletResolved_countBoss b w :
  countBoss (enemies (snd (bulletResolved host b w))) = countBoss (enemies w).
Proof.
  unfold bulletResolved. destruct (Bullet.owner _).
  - apply (forEach_invariant_at (fun s => enemies (snd s)) (bulletHitsEnemy host)
             (fun s => countBoss (enemies (snd s)) = countBoss (enemies w)));
      [|reflexivity].
    intros e k s Hn Hs. now rewrite bulletHitsEnemy_countBoss.
  - now rewrite bulletHitsPlayer_enemies.
Qed.

Lemma bulletStep_countBoss b i w :
  countBoss (enemies (bulletStep host b i w)) = countBoss (enemies w).
Proof.
  unfold bulletStep.
  pose proof (bulletResolved_countBoss b w) as Hb. unfold bulletResolved in Hb.
  destruct (Bullet.owner (moveBullet b)).
  - destruct (forEach _ _ _) as [b1 w1]. cbn [fst snd] in *.
    destruct (bulletOut b1); exact Hb.
  - destruct (bulletHitsPlayer _ _ _) as [b1 w1]. cbn [fst snd] in *.
    destruct (bulletOut b1); exact Hb.
Qed.

Lemma updateBullets_countBoss w :
  countBoss (enemies (updateBullets host w)) = countBoss (enemies w).
Proof.
  unfold updateBullets.
  apply (forEach_invariant bullets (bulletStep host)
           (fun s => countBoss (enemies s) = countBoss (enemies w)));
    [|reflexivity].
  intros b k s Hs. now rewrite bulletStep_countBoss.
Qed.

Lemma powerUpStep_enemies t pu i w : enemies (powerUpStep host t pu i w) = enemies w.
Proof.
  unfold powerUpStep. cbn [player set_powerUps].
  destruct (overlap _ _ _ _ _ _ _ _);
    destruct (Qgtb _ _); rewrite ?createExplosion_eq; reflexivity.
Qed.

Lemma updatePowerUps_enemies t w : enemies (updatePowerUps host t w) = enemies w.
Proof.
  unfold updatePowerUps.
  apply (forEach_invariant powerUps (powerUpStep host t)
           (fun s => enemies s = enemies w)); [|reflexivity].
  intros pu k s Hs. now rewrite powerUpStep_enemies.
Qed.

Lemma particleStep_enemies p i w : enemies (particleStep p i w) = enemies w.
Proof.
  unfold particleStep.
  match goal with |- context [if ?c then _ else _] => destruct c end; reflexivity.
Qed.

Lemma updateParticles_enemies w : enemies (updateParticles w) = enemies w.
Proof.
  unfold updateParticles.
  apply (forEach_invariant particles particleStep
           (fun s => enemies s = enemies w)); [|reflexivity].
  intros p k s Hs. now rewrite particleStep_enemies.
Qed.

Lemma movePlayer_enemies w : enemies (movePlayer w) = enemies w.
Proof. reflexivity. Qed.

Lemma shoot_enemies t w : enemies (shoot t w) = enemies w.
Proof. unfold shoot. destruct (held w "Space" && _); reflexivity. Qed.

Lemma checkGameOver_enemies w : enemies (checkGameOver w) = enemies w.
Proof. unfold checkGameOver. destruct (Qle_bool _ _); reflexivity. Qed.

Lemma spawnEnemy_countBoss t w :
  countBoss (enemies (spawnEnemy host t w)) = countBoss (enemies w).
Proof.
  destruct (spawnEnemy_enemies host t w) as [-> | (e & -> & Ht & _)];
    [reflexivity|].
  rewrite countBoss_app. unfold countBoss at 2. cbn.
  destruct (Enemy.type e); cbn; try lia. congruence.
Qed.

Lemma spawnBoss_countBoss t w :
  (countBoss (enemies w) <= 1 -> countBoss (enemies (spawnBoss t w)) <= 1)%nat.
Proof.
  unfold spawnBoss. destruct (bossActive w) eqn:Hb; [auto|].
  destruct (Qgtb _ _); [|auto]. intros _.
  cbn [enemies set_enemies set_bossCount]. rewrite countBoss_app.
  rewrite (countBoss_zero _ Hb). cbn. lia.
Qed.

Lemma updateHud_enemies t w : enemies (updateHud t w) = enemies w.
Proof. reflexivity. Qed.

Lemma updateBackground_enemies w : enemies (updateBackground w) = enemies w.
Proof. reflexivity. Qed.

Lemma updateBuffs_enemies t w : enemies (updateBuffs t w) = enemies w.
Proof. reflexivity. Qed.

Lemma tick_countBoss t w :
  (countBoss (enemies w) <= 1 -> countBoss (enemies (tick host t w)) <= 1)%nat.
Proof.
  intros H. rewrite tick_simulate, updateHud_enemies, checkGameOver_enemies.
  unfold simulate.
  rewrite updateBackground_enemies, updateParticles_enemies,
    updateBullets_countBoss.
  eapply Nat.le_trans; [apply updateEnemies_countBoss|].
  rewrite updatePowerUps_enemies, updateBuffs_enemies.
  apply spawnBoss_countBoss.
  rewrite spawnPowerUp_enemies, spawnEnemy_countBoss, shoot_enemies, movePlayer_enemies.
  exact H.
Qed.
End BossFacts.

Section BossRun.
Variable host : Host.

Lemma step_countBoss ev w :
  (countBoss (enemies w) <= 1 -> countBoss (enemies (step host ev w)) <= 1)%nat.
Proof.
  intros H. destruct ev as [f | code | code | now | now | | | plane];
    cbn [step]; try exact H.
  - unfold update. destruct (status (gameState w)); try exact H.
    + now apply tick_countBoss.
    + destruct (_ <=? 0)%Z; [exact H|].
      destruct (_ =? 3)%Z; exact H.
  - unfold togglePause. destruct (status (gameState w)); exact H.
  - destruct (status (gameState w)); try exact H; cbn; lia.
  - destruct (status (gameState w)); exact H.
  - destruct (status (gameState w)); exact H.
  - destruct (status (gameState w)); try exact H.
    destruct (Shop.cardClick plane (gameState w)). exact H.
Qed.

(** X5.  At every point of every run there is at most one boss among the
    enemies. *)
Theorem X_at_most_one_boss :
  forall (evs : list Event) (g : GameState),
    (countBoss (enemies (run host evs (initWorld g))) <= 1)%nat.
Proof.
  intros evs g.
  assert (H : forall w, (countBoss (enemies w) <= 1)%nat ->
                        (countBoss (enemies (run host evs w)) <= 1)%nat).
  { induction evs as [|ev evs IH]; intros w Hw; [exact Hw|].
    unfold run in *. cbn [fold_left]. apply IH. now apply step_countBoss. }
  apply H. cbn. lia.
Qed.

End BossRun.

Section ShootFacts.

(** X6.  The player fires only with Space held and more than the fire
    interval after the last shot, the interval being halved under rapid
    fire.  A shot adds one bullet, or three under spread shot, with the
    damage of the craft (25 for blast, 15 for tech, 10 otherwise), stamps
    the time of the shot, and no further shot follows within the
    interval. *)
Theorem X_shoot_rate_limit :
  forall (t : Q) (w : World),
    let p := player w in
    let w' := shoot t w in
    let interval := if hasBuff rapidFire (Player.activeBuffs p)
                    then Player.fireRate p / 2 else Player.fireRate p in
    (fires t w = false -> w' = w)
    /\ (fires t w = true ->
        (exists new,
            bullets w' = bullets w ++ new
            /\ List.length new
               = (if hasBuff spreadShot (Player.activeBuffs p) then 3 else 1)%nat
            /\ forall b, In b new ->
                 Bullet.owner b = byPlayer
                 /\ Bullet.damage b
                    = (if String.eqb (Player.type p) "blast" then 25
                       else if String.eqb (Player.type p) "tech" then 15
                            else 10))
        /\ Player.lastShot (player w') = t
        /\ cues w' = cues w ++ [playShoot]
        /\ forall t', t' - t <= interval -> shoot t' w' = w').
Proof.
  intros t w p w' interval. subst p w' interval. unfold fires. split.
  - unfold shoot. intros ->. reflexivity.
  - intros Hf. split; [|split; [|split]].
    + unfold shoot. rewrite Hf.
      destruct (hasBuff spreadShot (Player.activeBuffs (player w))).
      * eexists. split; [reflexivity|]. split; [reflexivity|].
        intros b [<- | [<- | [<- | []]]]; split; reflexivity.
      * eexists. split; [reflexivity|]. split; [reflexivity|].
        intros b [<- | []]; split; reflexivity.
    + unfold shoot. rewrite Hf. reflexivity.
    + unfold shoot. rewrite Hf. reflexivity.
    + intros t' Ht'.
      assert (E : shoot t w
                  = play playShoot
                      (set_player (Player.set_lastShot t (player w))
                         (set_bullets (bullets (shoot t w)) w))).
      { unfold shoot. rewrite Hf. reflexivity. }
      rewrite E. generalize (bullets (shoot t w)). intros bs.
      unfold shoot at 1.
      cbn [play set_cues set_player set_bullets player held keys
           Player.set_lastShot Player.activeBuffs Player.lastShot
           Player.fireRate].
      apply Qltb_ge in Ht'. unfold Qgtb. rewrite Ht'.
      now rewrite andb_false_r.
Qed.

End ShootFacts.

Section ResetFacts.

Lemma selectedPlaneData_catalog (g : GameState) :
  In (selectedPlaneData g) PLANES
  /\ (In (selectedPlane g) (map pd_id PLANES) ->
      pd_id (selectedPlaneData g) = selectedPlane g)
  /\ (~ In (selectedPlane g) (map pd_id PLANES) ->
      pd_id (selectedPlaneData g) = "standard").
Proof.
  unfold selectedPlaneData.
  destruct (find _ PLANES) as [d|] eqn:E.
  - apply find_some in E as [Hin Heq]. apply String.eqb_eq in Heq.
    split; [exact Hin|]. split; [intros _; exact Heq|].
    intros Hn. exfalso. apply Hn. rewrite <- Heq. now apply in_map.
  - split; [now left|]. split; [|reflexivity].
    intros Hin. apply in_map_iff in Hin as (d & Hd & Hin).
    apply (find_none _ _ E) in Hin. rewrite Hd, String.eqb_refl in Hin.
    discriminate.
Qed.

(** X7.  [resetGame] starts a run from a craft of the catalog: the
    selected one when its id is in the catalog, the standard one
    otherwise.  The player has the full, positive health of that craft, no
    score and no buff; the field is empty; the high score, the currency and
    the owned crafts are untouched. *)
Theorem X_resetGame_loadout :
  forall (now : Q) (w : World),
    let w' := resetGame now w in
    let p := player w' in
    exists d,
      In d PLANES
      /\ (In (selectedPlane (gameState w)) (map pd_id PLANES) ->
          pd_id d = selectedPlane (gameState w))
      /\ (~ In (selectedPlane (gameState w)) (map pd_id PLANES) ->
          pd_id d = "standard")
      /\ Player.type p = pd_id d
      /\ Player.health p = pd_health d /\ Player.maxHealth p = pd_health d
      /\ Player.speed p = pd_speed d /\ Player.fireRate p = pd_fireRate d
      /\ 0 < Player.health p
      /\ Player.score p == 0 /\ Player.activeBuffs p = []
      /\ enemies w' = [] /\ bullets w' = [] /\ powerUps w' = []
      /\ particles w' = []
      /\ status (gameState w') = playing
      /\ totalPausedTime w' == 0 /\ gameStartTime w' = now
      /\ bossCount w' = 0%Z
      /\ highScore (gameState w') = highScore (gameState w)
      /\ totalCurrency (gameState w') = totalCurrency (gameState w)
      /\ ownedPlanes (gameState w') = ownedPlanes (gameState w).
Proof.
  intros now w w' p. subst p w'.
  destruct (selectedPlaneData_catalog (gameState w)) as (Hin & Hk & Hu).
  exists (selectedPlaneData (gameState w)).
  split; [exact Hin|]. split; [exact Hk|]. split; [exact Hu|].
  cbn. repeat split; try reflexivity.
  destruct Hin as [<- | [<- | [<- | [<- | [<- | []]]]]]; reflexivity.
Qed.

End ResetFacts.

Section PatternFacts.

Lemma Qfloor_sub_Z (x : Q) (n : Z) :
  Qfloor (x - inject_Z n) = (Qfloor x - n)%Z.
Proof.
  apply Qfloor_eq_iff.
  pose proof (Qfloor_le x) as Hlo. pose proof (Qlt_floor x) as Hhi.
  rewrite inject_Z_plus in Hhi. change (inject_Z 1) with 1 in Hhi.
  replace (Qfloor x - n + 1)%Z with ((Qfloor x + - n) + 1)%Z by lia.
  unfold Z.sub. rewrite !inject_Z_plus, inject_Z_opp.
  change (inject_Z 1) with 1. split; lra.
Qed.

(** X8.  From time 0 on, the firing pattern of the boss is
    [floor (t / 5000) mod 3]: one of three patterns, changing every five
    seconds with a period of fifteen. *)
Theorem X_bossPattern_rotation :
  forall t : Q,
    0 <= t ->
    bossPattern t = (Qfloor (t / 5000) mod 3)%Z
    /\ (0 <= bossPattern t < 3)%Z
    /\ bossPattern (t + 15000) = bossPattern t.
Proof.
  assert (Hmain : forall t, 0 <= t ->
                    bossPattern t = (Qfloor (t / 5000) mod 3)%Z).
  { intros t Ht. unfold bossPattern, Qrem.
    set (x := t / 5000).
    assert (Hx : 0 <= x) by (unfold x; apply Qle_shift_div_l; [reflexivity | lra]).
    assert (Hx3 : 0 <= x / 3) by (apply Qle_shift_div_l; [reflexivity | lra]).
    assert (Htr : Qtrunc (x / 3) = Qfloor (x / 3)).
    { unfold Qtrunc. destruct (Qltb (x / 3) 0) eqn:E; [|reflexivity].
      apply Qltb_lt in E. lra. }
    rewrite Htr. set (q := Qfloor (x / 3)).
    assert (Hq : inject_Z q <= x / 3 /\ x / 3 < inject_Z (q + 1))
      by (apply Qfloor_eq_iff; reflexivity).
    destruct Hq as [Hq1 Hq2]. rewrite inject_Z_plus in Hq2.
    change (inject_Z 1) with 1 in Hq2.
    assert (H1 : 3 * inject_Z q <= x).
    { apply (Qmult_le_compat_r _ _ 3) in Hq1; [|discriminate].
      setoid_replace (x / 3 * 3) with x in Hq1 by field. lra. }
    assert (H2 : x < 3 * inject_Z q + 3).
    { apply (Qmult_lt_compat_r _ _ 3) in Hq2; [|reflexivity].
      setoid_replace (x / 3 * 3) with x in Hq2 by field. lra. }
    assert (E : x - 3 * inject_Z q == x - inject_Z (3 * q)).
    { rewrite inject_Z_mult. reflexivity. }
    rewrite (Qfloor_comp _ _ E), Qfloor_sub_Z.
    assert (F1 : (3 * q <= Qfloor x)%Z).
    { apply Qfloor_ge. rewrite inject_Z_mult. exact H1. }
    assert (F2 : (Qfloor x < 3 * q + 3)%Z).
    { rewrite Zlt_Qlt. eapply Qle_lt_trans; [apply Qfloor_le|].
      rewrite inject_Z_plus, inject_Z_mult. exact H2. }
    apply (Z.mod_unique _ _ q); [left; lia | lia]. }
  intros t Ht. split; [now apply Hmain|]. split.
  - rewrite (Hmain t Ht). apply Z.mod_pos_bound. lia.
  - rewrite (Hmain t Ht), (Hmain (t + 15000)) by lra.
    assert (E : (t + 15000) / 5000 == t / 5000 - inject_Z (-3)).
    { change (inject_Z (-3)) with (-3). field. }
    rewrite (Qfloor_comp _ _ E), Qfloor_sub_Z.
    replace (Qfloor (t / 5000) - -3)%Z with (Qfloor (t / 5000) + 1 * 3)%Z by lia.
    apply Z.mod_add. lia.
Qed.

End PatternFacts.

Section GameOverFacts.
Variable host : Host.

(** X9.  When the health of the player is 0 or less, the status becomes
    [gameover], the final score is recorded, a finite high score becomes the
    larger of itself and the score, the score is added to the currency, both
    are written to storage, and no later frame changes the world.  With
    positive health nothing happens. *)
Theorem X_game_over_reconciliation :
  forall (w : World),
    let p := player w in
    let g := gameState w in
    let w' := checkGameOver w in
    let g' := gameState w' in
    (Player.health p <= 0 ->
     status g' = gameover
     /\ gs_score g' = Player.score p
     /\ highScore g' = Num.max (highScore g) (Fin (Player.score p))
     /\ totalCurrency g' = Num.add (totalCurrency g) (Fin (Player.score p))
     /\ ownedPlanes g' = ownedPlanes g /\ selectedPlane g' = selectedPlane g
     /\ storage w'
        = storage w ++ [("1942_highScore", StoredNum (highScore g'));
                        ("1942_currency", StoredNum (totalCurrency g'))]
     /\ (forall h, highScore g = Fin h ->
                   exists h', highScore g' = Fin h'
                              /\ h <= h' /\ Player.score p <= h'
                              /\ (h' = h \/ h' = Player.score p))
     /\ (forall c, totalCurrency g = Fin c ->
                   totalCurrency g' = Fin (c + Player.score p))
     /\ (forall f, update host f w' = w'))
    /\ (0 < Player.health p -> w' = w).
Proof.
  intros w p g w' g'. subst p g w' g'. unfold checkGameOver. split.
  - intros Hh. apply Qle_bool_iff in Hh. rewrite Hh.
    cbn [gameState set_gameState set_storage storage status gs_score highScore
         totalCurrency ownedPlanes selectedPlane].
    do 7 (split; [reflexivity|]). split; [|split].
    + intros h Eh. rewrite Eh. cbn.
      destruct (Qle_bool h (Player.score (player w))) eqn:E.
      * apply Qle_bool_iff in E. eexists. split; [reflexivity|].
        split; [exact E|]. split; [apply Qle_refl | now right].
      * eexists. split; [reflexivity|]. split; [apply Qle_refl|].
        split; [|now left].
        apply Qlt_le_weak, Qltb_lt. unfold Qltb. now rewrite E.
    + intros c Ec. rewrite Ec. reflexivity.
    + intros f. apply update_gameover. reflexivity.
  - intros Hh. destruct (Qle_bool _ _) eqn:E; [|reflexivity].
    apply Qle_bool_iff in E. lra.
Qed.

(** X10.  An enemy that is not a boss moves straight down by its speed.
    A boss descends until [y >= 80] and then only moves sideways, never
    closer than 20 to the left edge, nor (when it fits) to the right
    edge. *)
Theorem X_enemy_movement :
  forall (t : Q) (e : Enemy.t) (w : World),
    let e' := fst (enemyAct host t e w) in
    (Enemy.type e <> boss ->
     Enemy.x e' = Enemy.x e /\ Enemy.y e' = Enemy.y e + Enemy.speed e)
    /\ (Enemy.type e = boss -> Enemy.y e < 80 ->
        Enemy.x e' = Enemy.x e /\ Enemy.y e' = Enemy.y e + Enemy.speed e)
    /\ (Enemy.type e = boss -> 80 <= Enemy.y e ->
        Enemy.y e' = Enemy.y e
        /\ 20 <= Enemy.x e'
        /\ (Enemy.width e <= CANVAS_WIDTH - 40 ->
            Enemy.x e' <= CANVAS_WIDTH - Enemy.width e - 20)).
Proof.
  intros t e w e'. subst e'. unfold enemyAct. split; [|split].
  - intros Hnb. destruct (Enemy.type e) eqn:Ety; try congruence; cbn [isBoss];
      match goal with |- context [if Qgtb ?a ?b then _ else _] =>
        destruct (Qgtb a b) end; split; reflexivity.
  - intros Hb Hy. rewrite Hb. cbn [isBoss].
    apply Qltb_lt in Hy. rewrite Hy.
    match goal with |- context [if Qgtb ?a ?b then _ else _] =>
      destruct (Qgtb a b) end; split; reflexivity.
  - intros Hb Hy. rewrite Hb. cbn [isBoss].
    apply Qltb_ge in Hy. rewrite Hy.
    match goal with |- context [if Qgtb ?a ?b then _ else _] =>
      destruct (Qgtb a b) end; cbn [fst Enemy.x Enemy.y Enemy.set_x
                                     Enemy.set_lastShot Enemy.width];
      (split; [reflexivity|]; split; [apply Qmax_lub_l|]; intros Hw;
       apply clamp_bounds; lra).
Qed.

End GameOverFacts.

(** ** The player stays in the field; the shield *)

Section PlaceFacts.
Variable host : Host.

Lemma shoot_place t w : placeOf (shoot t w) = placeOf w.
Proof. unfold shoot, placeOf. destruct (held w "Space" && _); reflexivity. Qed.

Lemma spawnEnemy_place t w : placeOf (spawnEnemy host t w) = placeOf w.
Proof.
  unfold spawnEnemy, placeOf. destruct (bossActive w); [reflexivity|].
  destruct (Qgtb _ _); reflexivity.
Qed.

Lemma spawnPowerUp_place t w : placeOf (spawnPowerUp host t w) = placeOf w.
Proof. unfold spawnPowerUp, placeOf. destruct (Qgtb _ _); reflexivity. Qed.

Lemma spawnBoss_place t w : placeOf (spawnBoss t w) = placeOf w.
Proof.
  unfold spawnBoss, placeOf. destruct (bossActive w); [reflexivity|].
  destruct (Qgtb _ _); reflexivity.
Qed.

Lemma updateBuffs_place t w : placeOf (updateBuffs t w) = placeOf w.
Proof. reflexivity. Qed.

Lemma powerUpStep_place t pu i w : placeOf (powerUpStep host t pu i w) = placeOf w.
Proof.
  unfold powerUpStep, placeOf. cbn [player set_powerUps].
  destruct (overlap _ _ _ _ _ _ _ _);
    destruct (Qgtb _ _); rewrite ?createExplosion_eq; reflexivity.
Qed.

Lemma updatePowerUps_place t w : placeOf (updatePowerUps host t w) = placeOf w.
Proof.
  unfold updatePowerUps.
  apply (forEach_invariant powerUps (powerUpStep host t)
           (fun s => placeOf s = placeOf w)); [|reflexivity].
  intros pu k s Hs. now rewrite powerUpStep_place.
Qed.

Lemma enemyContact_place e w : placeOf (snd (enemyContact host e w)) = placeOf w.
Proof.
  unfold enemyContact, placeOf. destruct (overlap _ _ _ _ _ _ _ _); [|reflexivity].
  destruct (hasBuff _ _); cbn [snd]; rewrite createExplosion_eq; reflexivity.
Qed.

Lemma enemyRemoval_place t e i w : placeOf (enemyRemoval host t e i w) = placeOf w.
Proof.
  unfold enemyRemoval, placeOf. destruct (_ || _); [|reflexivity].
  destruct (Qle_bool _ _), (isBoss _); rewrite ?createExplosion_eq; reflexivity.
Qed.

Lemma enemyStep_place t a i w : placeOf (enemyStep host t a i w) = placeOf w.
Proof.
  unfold enemyStep.
  pose proof (enemyAct_player host t a w) as Hp.
  destruct (enemyAct host t a w) as [e1 w1]. cbn [fst snd] in *.
  pose proof (enemyContact_place e1 w1) as Hc.
  destruct (enemyContact host e1 w1) as [e2 w2]. cbn [fst snd] in *.
  rewrite enemyRemoval_place. unfold placeOf in *. cbn [player set_enemies].
  now rewrite Hc, Hp.
Qed.

Lemma updateEnemies_place t w : placeOf (updateEnemies host t w) = placeOf w.
Proof.
  unfold updateEnemies.
  apply (forEach_invariant enemies (enemyStep host t)
           (fun s => placeOf s = placeOf w)); [|reflexivity].
  intros a k s Hs. now rewrite enemyStep_place.
Qed.

Lemma bulletHitsPlayer_place b w :
  placeOf (snd (bulletHitsPlayer host b w)) = placeOf w.
Proof.
  unfold bulletHitsPlayer, placeOf.
  destruct (overlapNum _ _ _ _ _ _ _ _); [|reflexivity].
  destruct (hasBuff _ _); cbn [snd]; rewrite createExplosion_eq; reflexivity.
Qed.

Lemma bulletResolved_place b w : placeOf (snd (bulletResolved host b w)) = placeOf w.
Proof.
  unfold bulletResolved. destruct (Bullet.owner _).
  - apply (forEach_invariant (fun s => enemies (snd s)) (bulletHitsEnemy host)
             (fun s => placeOf (snd s) = placeOf w)); [|reflexivity].
    intros e k s Hs. unfold placeOf in *. now rewrite bulletHitsEnemy_player.
  - apply bulletHitsPlayer_place.
Qed.

Lemma bulletStep_place b i w : placeOf (bulletStep host b i w) = placeOf w.
Proof.
  unfold bulletStep.
  pose proof (bulletResolved_place b w) as Hb. unfold bulletResolved in Hb.
  destruct (Bullet.owner (moveBullet b)).
  - destruct (forEach _ _ _) as [b1 w1]. cbn [fst snd] in *.
    destruct (bulletOut b1); exact Hb.
  - destruct (bulletHitsPlayer _ _ _) as [b1 w1]. cbn [fst snd] in *.
    destruct (bulletOut b1); exact Hb.
Qed.

Lemma updateBullets_place w : placeOf (updateBullets host w) = placeOf w.
Proof.
  unfold updateBullets.
  apply (forEach_invariant bullets (bulletStep host)
           (fun s => placeOf s = placeOf w)); [|reflexivity].
  intros b k s Hs. now rewrite bulletStep_place.
Qed.

Lemma particleStep_place p i w : placeOf (particleStep p i w) = placeOf w.
Proof.
  unfold particleStep, placeOf.
  match goal with |- context [if ?c then _ else _] => destruct c end; reflexivity.
Qed.

Lemma updateParticles_place w : placeOf (updateParticles w) = placeOf w.
Proof.
  unfold updateParticles.
  apply (forEach_invariant particles particleStep
           (fun s => placeOf s = placeOf w)); [|reflexivity].
  intros b k s Hs. now rewrite particleStep_place.
Qed.

Lemma updateBackground_place w : placeOf (updateBackground w) = placeOf w.
Proof. reflexivity. Qed.

Lemma checkGameOver_place w : placeOf (checkGameOver w) = placeOf w.
Proof. unfold checkGameOver, placeOf. destruct (Qle_bool _ _); reflexivity. Qed.

Lemma updateHud_place t w : placeOf (updateHud t w) = placeOf w.
Proof. reflexivity. Qed.

(** After the movement phase nothing in the tick moves the player. *)
Lemma tick_place t w : placeOf (tick host t w) = placeOf (movePlayer w).
Proof.
  rewrite tick_simulate, updateHud_place, checkGameOver_place. unfold simulate.
  now rewrite updateBackground_place, updateParticles_place, updateBullets_place,
    updateEnemies_place, updatePowerUps_place, updateBuffs_place,
    spawnBoss_place, spawnPowerUp_place, spawnEnemy_place, shoot_place.
Qed.

Lemma inField_place w w' : placeOf w' = placeOf w -> inField w -> inField w'.
Proof.
  unfold placeOf, inField. intros [= Hx Hy Hw Hh]. now rewrite Hx, Hy, Hw, Hh.
Qed.

Lemma fitsField_place w w' : placeOf w' = placeOf w -> fitsField w -> fitsField w'.
Proof.
  unfold placeOf, fitsField. intros [= Hx Hy Hw Hh]. now rewrite Hw, Hh.
Qed.

Lemma movePlayer_inField w : fitsField w -> inField (movePlayer w).
Proof.
  intros [Hw Hh].
  assert (Hx : 0 <= CANVAS_WIDTH - Player.width (player w)) by lra.
  assert (Hy : 0 <= CANVAS_HEIGHT - Player.height (player w)) by lra.
  unfold inField, movePlayer.
  destruct (held w "ArrowLeft" || held w "KeyA"),
           (held w "ArrowRight" || held w "KeyD"),
           (held w "ArrowUp" || held w "KeyW"),
           (held w "ArrowDown" || held w "KeyS"); cbn;
    (split; [|split; [|split]]); apply clamp_bounds; assumption.
Qed.

Lemma tick_inField t w :
  fitsField w -> inField (tick host t w) /\ fitsField (tick host t w).
Proof.
  intros Hf. destruct (movePlayer_size w) as [Ew Eh]. split.
  - apply (inField_place (movePlayer w)); [apply tick_place|].
    now apply movePlayer_inField.
  - apply (fitsField_place (movePlayer w)); [apply tick_place|].
    destruct Hf as [Hw Hh]. unfold fitsField. now rewrite Ew, Eh.
Qed.

Lemma step_inField ev w :
  inField w /\ fitsField w -> inField (step host ev w) /\ fitsField (step host ev w).
Proof.
  intros H. destruct ev as [f | code | code | now | now | | | plane];
    cbn [step]; try exact H.
  - unfold update. destruct (status (gameState w)); try exact H.
    + apply tick_inField, H.
    + destruct (_ <=? 0)%Z; [exact H|].
      destruct (_ =? 3)%Z; exact H.
  - unfold togglePause. destruct (status (gameState w)); exact H.
  - destruct (status (gameState w)); try exact H;
      (split; [unfold inField | unfold fitsField]; cbn; repeat split; discriminate).
  - destruct (status (gameState w)); exact H.
  - destruct (status (gameState w)); exact H.
  - destruct (status (gameState w)); try exact H.
    destruct (Shop.cardClick plane (gameState w)). exact H.
Qed.

(** X11.  At every point of every run the player is inside the playfield. *)
Theorem X_player_stays_in_field :
  forall (evs : list Event) (g : GameState),
    let p := player (run host evs (initWorld g)) in
    0 <= Player.x p /\ Player.x p <= CANVAS_WIDTH - Player.width p
    /\ 0 <= Player.y p /\ Player.y p <= CANVAS_HEIGHT - Player.height p.
Proof.
  intros evs g.
  assert (H : forall w, inField w /\ fitsField w ->
                        inField (run host evs w) /\ fitsField (run host evs w)).
  { induction evs as [|ev evs IH]; intros w Hw; [exact Hw|].
    unfold run in *. cbn [fold_left]. apply IH. now apply step_inField. }
  apply H.
  split; [unfold inField | unfold fitsField]; cbn; repeat split; discriminate.
Qed.

End PlaceFacts.

Section ShieldFacts.
Variable host : Host.

Lemma movePlayer_health w : healthOf (movePlayer w) = healthOf w.
Proof.
  unfold movePlayer, healthOf.
  destruct (held w "ArrowLeft" || held w "KeyA"),
           (held w "ArrowRight" || held w "KeyD"),
           (held w "ArrowUp" || held w "KeyW"),
           (held w "ArrowDown" || held w "KeyS"); reflexivity.
Qed.

Lemma shoot_health t w : healthOf (shoot t w) = healthOf w.
Proof. unfold shoot, healthOf. destruct (held w "Space" && _); reflexivity. Qed.

Lemma spawnEnemy_health t w : healthOf (spawnEnemy host t w) = healthOf w.
Proof.
  unfold spawnEnemy, healthOf. destruct (bossActive w); [reflexivity|].
  destruct (Qgtb _ _); reflexivity.
Qed.

Lemma spawnPowerUp_health t w : healthOf (spawnPowerUp host t w) = healthOf w.
Proof. unfold spawnPowerUp, healthOf. destruct (Qgtb _ _); reflexivity. Qed.

Lemma spawnBoss_health t w : healthOf (spawnBoss t w) = healthOf w.
Proof.
  unfold spawnBoss, healthOf. destruct (bossActive w); [reflexivity|].
  destruct (Qgtb _ _); reflexivity.
Qed.

Lemma powerUpStep_health t pu i w : healthOf (powerUpStep host t pu i w) = healthOf w.
Proof.
  unfold powerUpStep, healthOf. cbn [player set_powerUps].
  destruct (overlap _ _ _ _ _ _ _ _);
    destruct (Qgtb _ _); rewrite ?createExplosion_eq; reflexivity.
Qed.

Lemma hasBuff_applyBuff ty ty' e l :
  hasBuff ty l = true -> hasBuff ty (applyBuff ty' e l) = true.
Proof.
  intros H. apply hasBuff_In. rewrite applyBuff_types.
  apply hasBuff_In in H. destruct (hasBuff ty' l); [exact H|].
  apply in_or_app. now left.
Qed.

Lemma powerUpStep_shielded t pu i w :
  shielded w -> shielded (powerUpStep host t pu i w).
Proof.
  unfold shielded. intros H.
  change (Player.activeBuffs (player ?x)) with (buffsOf x).
  rewrite powerUpStep_buffs.
  destruct (powerUpTaken pu w); [now apply hasBuff_applyBuff | exact H].
Qed.

Lemma updatePowerUps_shielded t w h :
  healthOf w = h /\ shielded w ->
  healthOf (updatePowerUps host t w) = h /\ shielded (updatePowerUps host t w).
Proof.
  unfold updatePowerUps.
  apply (forEach_invariant powerUps (powerUpStep host t)
           (fun s => healthOf s = h /\ shielded s)).
  intros pu k s [Hh Hs]. split.
  - now rewrite powerUpStep_health.
  - now apply powerUpStep_shielded.
Qed.

Lemma enemyContact_shielded e w :
  shielded w -> player (snd (enemyContact host e w)) = player w.
Proof.
  unfold shielded, enemyContact. intros ->.
  destruct (overlap _ _ _ _ _ _ _ _); [|reflexivity].
  cbn [snd]. rewrite createExplosion_eq. reflexivity.
Qed.

Lemma enemyRemoval_health t e i w :
  healthOf (enemyRemoval host t e i w) = healthOf w.
Proof.
  unfold enemyRemoval, healthOf. destruct (_ || _); [|reflexivity].
  destruct (Qle_bool _ _), (isBoss _); rewrite ?createExplosion_eq; reflexivity.
Qed.

Lemma enemyStep_shielded t a i w h :
  healthOf w = h /\ shielded w ->
  healthOf (enemyStep host t a i w) = h /\ shielded (enemyStep host t a i w).
Proof.
  intros [Hh Hs]. split.
  - unfold enemyStep.
    pose proof (enemyAct_player host t a w) as Hp.
    destruct (enemyAct host t a w) as [e1 w1]. cbn [fst snd] in *.
    assert (Hs1 : shielded w1) by (unfold shielded; now rewrite Hp).
    pose proof (enemyContact_shielded e1 w1 Hs1) as Hc.
    destruct (enemyContact host e1 w1) as [e2 w2]. cbn [fst snd] in *.
    rewrite enemyRemoval_health. unfold healthOf in *. cbn [player set_enemies].
    now rewrite Hc, Hp.
  - unfold shielded.
    change (Player.activeBuffs (player ?x)) with (buffsOf x).
    rewrite enemyStep_buffs. exact Hs.
Qed.

Lemma updateEnemies_shielded t w h :
  healthOf w = h /\ shielded w ->
  healthOf (updateEnemies host t w) = h /\ shielded (updateEnemies host t w).
Proof.
  unfold updateEnemies.
  apply (forEach_invariant enemies (enemyStep host t)
           (fun s => healthOf s = h /\ shielded s)).
  intros a k s. apply enemyStep_shielded.
Qed.

Lemma bulletHitsPlayer_shielded b w :
  shielded w -> player (snd (bulletHitsPlayer host b w)) = player w.
Proof.
  unfold shielded, bulletHitsPlayer. intros ->.
  destruct (overlapNum _ _ _ _ _ _ _ _); [|reflexivity].
  cbn [snd]. rewrite createExplosion_eq. reflexivity.
Qed.

Lemma bulletResolved_shielded b w :
  shielded w -> player (snd (bulletResolved host b w)) = player w.
Proof.
  intros Hs. unfold bulletResolved. destruct (Bullet.owner _).
  - apply (forEach_invariant (fun s => enemies (snd s)) (bulletHitsEnemy host)
             (fun s => player (snd s) = player w)); [|reflexivity].
    intros e k s Hp. now rewrite bulletHitsEnemy_player.
  - now apply bulletHitsPlayer_shielded.
Qed.

Lemma bulletStep_shielded b i w :
  shielded w -> player (bulletStep host b i w) = player w.
Proof.
  intros Hs. unfold bulletStep.
  pose proof (bulletResolved_shielded b w Hs) as Hb. unfold bulletResolved in Hb.
  destruct (Bullet.owner (moveBullet b)).
  - destruct (forEach _ _ _) as [b1 w1]. cbn [fst snd] in *.
    destruct (bulletOut b1); exact Hb.
  - destruct (bulletHitsPlayer _ _ _) as [b1 w1]. cbn [fst snd] in *.
    destruct (bulletOut b1); exact Hb.
Qed.

Lemma updateBullets_shielded w :
  shielded w -> player (updateBullets host w) = player w.
Proof.
  intros Hs. unfold updateBullets.
  apply (forEach_invariant bullets (bulletStep host)
           (fun s => player s = player w)); [|reflexivity].
  intros b k s Hp. rewrite bulletStep_shielded; [exact Hp|].
  unfold shielded. now rewrite Hp.
Qed.

Lemma particleStep_health p i w : healthOf (particleStep p i w) = healthOf w.
Proof.
  unfold particleStep, healthOf.
  match goal with |- context [if ?c then _ else _] => destruct c end; reflexivity.
Qed.

Lemma updateParticles_health w : healthOf (updateParticles w) = healthOf w.
Proof.
  unfold updateParticles.
  apply (forEach_invariant particles particleStep
           (fun s => healthOf s = healthOf w)); [|reflexivity].
  intros b k s Hs. now rewrite particleStep_health.
Qed.

Lemma checkGameOver_health w : healthOf (checkGameOver w) = healthOf w.
Proof. unfold checkGameOver, healthOf. destruct (Qle_bool _ _); reflexivity. Qed.

Lemma updateHud_health t w : healthOf (updateHud t w) = healthOf w.
Proof. reflexivity. Qed.

Lemma updateBackground_health w : healthOf (updateBackground w) = healthOf w.
Proof. reflexivity. Qed.

Lemma updateBuffs_health t w : healthOf (updateBuffs t w) = healthOf w.
Proof. reflexivity. Qed.

Lemma updateBuffs_shielded t w :
  (exists b, In b (Player.activeBuffs (player w))
             /\ Buff.type b = shield /\ t < Buff.endTime b) ->
  shielded (updateBuffs t w).
Proof.
  intros (b & Hin & Hty & Ht). unfold shielded, updateBuffs.
  cbn [player set_player Player.activeBuffs Player.set_activeBuffs].
  unfold hasBuff. apply existsb_exists. exists b. split.
  - apply filter_In. split; [exact Hin|]. now apply Qltb_lt.
  - now rewrite Hty.
Qed.

Lemma spawns_health_buffs t w :
  let w5 := spawnBoss t (spawnPowerUp host t (spawnEnemy host t (shoot t (movePlayer w)))) in
  healthOf w5 = healthOf w /\ buffsOf w5 = buffsOf w.
Proof.
  cbv zeta. split.
  - now rewrite spawnBoss_health, spawnPowerUp_health, spawnEnemy_health,
      shoot_health, movePlayer_health.
  - now rewrite spawnBoss_buffs, spawnPowerUp_buffs, spawnEnemy_buffs,
      shoot_buffs, movePlayer_buffs.
Qed.

Lemma loops_shielded t w5 h :
  healthOf w5 = h ->
  (exists b, In b (buffsOf w5) /\ Buff.type b = shield /\ t < Buff.endTime b) ->
  let w10 := updateBackground
               (updateParticles
                  (updateBullets host
                     (updateEnemies host t
                        (updatePowerUps host t (updateBuffs t w5))))) in
  healthOf w10 = h /\ shielded w10.
Proof.
  intros Hh Hb. cbv zeta.
  assert (H6 : healthOf (updateBuffs t w5) = h /\ shielded (updateBuffs t w5)).
  { split; [now rewrite updateBuffs_health | now apply updateBuffs_shielded]. }
  apply (updatePowerUps_shielded t) in H6.
  apply (updateEnemies_shielded t) in H6.
  revert H6.
  generalize (updateEnemies host t (updatePowerUps host t (updateBuffs t w5))).
  intros w8 [H8 Hs].
  pose proof (updateBullets_shielded w8 Hs) as Hpl.
  split.
  - rewrite updateBackground_health, updateParticles_health.
    unfold healthOf in *. now rewrite Hpl.
  - unfold shielded. change (Player.activeBuffs (player ?x)) with (buffsOf x).
    rewrite updateBackground_buffs, updateParticles_buffs.
    unfold buffsOf. rewrite Hpl. exact Hs.
Qed.

(** X12.  A shield that outlasts the tick keeps the health of the player
    as it is, whatever touches the player during the tick; the HUD shows
    that health and the shield is still active afterwards. *)
Theorem X_shield_blocks_damage :
  forall (t : Q) (w : World),
    (exists b, In b (Player.activeBuffs (player w))
               /\ Buff.type b = shield /\ t < Buff.endTime b) ->
    Player.health (player (tick host t w)) = Player.health (player w)
    /\ Hud.health (hud (tick host t w)) = Player.health (player w)
    /\ hasBuff shield (Player.activeBuffs (player (tick host t w))) = true.
Proof.
  intros t w Hb.
  destruct (spawns_health_buffs t w) as [Hh5 Hb5].
  assert (Hb' : exists b, In b (buffsOf (spawnBoss t (spawnPowerUp host t
                   (spawnEnemy host t (shoot t (movePlayer w))))))
                          /\ Buff.type b = shield /\ t < Buff.endTime b)
    by (rewrite Hb5; exact Hb).
  pose proof (loops_shielded t _ _ Hh5 Hb') as [Hh Hs].
  fold (simulate host t w) in Hh, Hs.
  revert Hh Hs. rewrite tick_simulate.
  generalize (simulate host t w). intros ws Hh Hs.
  assert (E : healthOf (updateHud t (checkGameOver ws)) = healthOf w)
    by now rewrite updateHud_health, checkGameOver_health.
  split; [exact E|]. split.
  - change (Player.health (player w)) with (healthOf w).
    rewrite <- Hh. unfold updateHud. cbn [hud set_hud Hud.health].
    apply checkGameOver_health.
  - change (Player.activeBuffs (player ?x)) with (buffsOf x).
    rewrite updateHud_buffs, checkGameOver_buffs. exact Hs.
Qed.

End ShieldFacts.

(** ** Expiry of buffs; the score *)

Section ExpiryFacts.
Variable host : Host.

Lemma tick_buffs_after_loop t w :
  buffsOf (tick host t w)
  = buffsOf (updatePowerUps host t
               (updateBuffs t
                  (spawnBoss t
                     (spawnPowerUp host t
                        (spawnEnemy host t (shoot t (movePlayer w))))))).
Proof.
  rewrite tick_simulate, updateHud_buffs, checkGameOver_buffs. unfold simulate.
  now rewrite updateBackground_buffs, updateParticles_buffs, updateBullets_buffs,
    updateEnemies_buffs.
Qed.

(** X13.  No expired buff survives a tick: every buff left expires after
    the time of the tick, and it is an older buff or expires exactly ten
    seconds after the tick. *)
Theorem X_tick_drops_expired_buffs :
  forall (t : Q) (w : World) (b : Buff.t),
    In b (buffsOf (tick host t w)) ->
    t < Buff.endTime b
    /\ (Buff.endTime b = t + 10000 \/ In b (buffsOf w)).
Proof.
  intros t w b.
  rewrite tick_buffs_after_loop.
  assert (H5 : buffsOf (spawnBoss t (spawnPowerUp host t
                 (spawnEnemy host t (shoot t (movePlayer w))))) = buffsOf w).
  { now rewrite spawnBoss_buffs, spawnPowerUp_buffs,
      spawnEnemy_buffs, shoot_buffs, movePlayer_buffs. }
  revert H5.
  generalize (spawnBoss t (spawnPowerUp host t
                 (spawnEnemy host t (shoot t (movePlayer w))))).
  intros w5 H5.
  revert b.
  apply (updatePowerUps_buffs_invariant host t
           (fun l => forall b, In b l ->
                       t < Buff.endTime b
                       /\ (Buff.endTime b = t + 10000 \/ In b (buffsOf w)))).
  - intros ty l Hl b Hb.
    destruct (applyBuff_In _ _ _ _ Hb) as [[_ E] | Hin]; [|auto].
    split; [rewrite E; lra | now left].
  - intros b Hb. rewrite updateBuffs_buffs in Hb.
    apply filter_In in Hb as [Hin Hgt]. apply Qltb_lt in Hgt.
    split; [exact Hgt|]. right. now rewrite <- H5.
Qed.

End ExpiryFacts.

Section ScoreRun.
Variable host : Host.

Lemma movePlayer_score w : scoreOf (movePlayer w) = scoreOf w.
Proof.
  unfold movePlayer, scoreOf.
  destruct (held w "ArrowLeft" || held w "KeyA"),
           (held w "ArrowRight" || held w "KeyD"),
           (held w "ArrowUp" || held w "KeyW"),
           (held w "ArrowDown" || held w "KeyS"); reflexivity.
Qed.

Lemma shoot_score t w : scoreOf (shoot t w) = scoreOf w.
Proof. unfold shoot, scoreOf. destruct (held w "Space" && _); reflexivity. Qed.

Lemma spawnEnemy_score t w : scoreOf (spawnEnemy host t w) = scoreOf w.
Proof.
  unfold spawnEnemy, scoreOf. destruct (bossActive w); [reflexivity|].
  destruct (Qgtb _ _); reflexivity.
Qed.

Lemma spawnPowerUp_score t w : scoreOf (spawnPowerUp host t w) = scoreOf w.
Proof. unfold spawnPowerUp, scoreOf. destruct (Qgtb _ _); reflexivity. Qed.

Lemma spawnBoss_score t w : scoreOf (spawnBoss t w) = scoreOf w.
Proof.
  unfold spawnBoss, scoreOf. destruct (bossActive w); [reflexivity|].
  destruct (Qgtb _ _); reflexivity.
Qed.

Lemma updateBuffs_score t w : scoreOf (updateBuffs t w) = scoreOf w.
Proof. reflexivity. Qed.

Lemma powerUpStep_score t pu i w : scoreOf (powerUpStep host t pu i w) = scoreOf w.
Proof.
  unfold powerUpStep, scoreOf. cbn [player set_powerUps].
  destruct (overlap _ _ _ _ _ _ _ _);
    destruct (Qgtb _ _); rewrite ?createExplosion_eq; reflexivity.
Qed.

Lemma updatePowerUps_score t w : scoreOf (updatePowerUps host t w) = scoreOf w.
Proof.
  unfold updatePowerUps.
  apply (forEach_invariant powerUps (powerUpStep host t)
           (fun s => scoreOf s = scoreOf w)); [|reflexivity].
  intros pu k s Hs. now rewrite powerUpStep_score.
Qed.

Lemma particleStep_score p i w : scoreOf (particleStep p i w) = scoreOf w.
Proof.
  unfold particleStep, scoreOf.
  match goal with |- context [if ?c then _ else _] => destruct c end; reflexivity.
Qed.

Lemma updateParticles_score w : scoreOf (updateParticles w) = scoreOf w.
Proof.
  unfold updateParticles.
  apply (forEach_invariant particles particleStep
           (fun s => scoreOf s = scoreOf w)); [|reflexivity].
  intros p k s Hs. now rewrite particleStep_score.
Qed.

Lemma updateBackground_score w : scoreOf (updateBackground w) = scoreOf w.
Proof. reflexivity. Qed.

Lemma checkGameOver_score w : scoreOf (checkGameOver w) = scoreOf w.
Proof. unfold checkGameOver, scoreOf. destruct (Qle_bool _ _); reflexivity. Qed.

Lemma updateHud_score t w : scoreOf (updateHud t w) = scoreOf w.
Proof. reflexivity. Qed.

Lemma award_hundreds ty : exists k : nat, award ty == 100 * inject_Z (Z.of_nat k).
Proof.
  destruct ty; [exists 1%nat | exists 1%nat | exists 5%nat | exists 50%nat];
    reflexivity.
Qed.

Lemma updateEnemies_score_hundreds t w :
  exists k : nat,
    scoreOf (updateEnemies host t w) == scoreOf w + 100 * inject_Z (Z.of_nat k).
Proof.
  unfold updateEnemies.
  apply (forEach_invariant enemies (enemyStep host t)
           (fun s => exists k : nat,
                       scoreOf s == scoreOf w + 100 * inject_Z (Z.of_nat k))).
  - intros a i s [k Hk]. unfold scoreOf in *. rewrite enemyStep_score.
    destruct (Qle_bool _ _); [|now exists k].
    destruct (award_hundreds (Enemy.type a)) as [j Hj].
    exists (k + j)%nat. rewrite Hk, Hj, Nat2Z.inj_add, inject_Z_plus. ring.
  - exists 0%nat. cbn. ring.
Qed.

Lemma simulate_score_hundreds t w :
  exists k : nat,
    scoreOf (simulate host t w) == scoreOf w + 100 * inject_Z (Z.of_nat k).
Proof.
  assert (H5 : scoreOf (updatePowerUps host t (updateBuffs t (spawnBoss t
                 (spawnPowerUp host t (spawnEnemy host t (shoot t (movePlayer w)))))))
               = scoreOf w).
  { now rewrite updatePowerUps_score, updateBuffs_score, spawnBoss_score,
      spawnPowerUp_score, spawnEnemy_score, shoot_score, movePlayer_score. }
  revert H5. unfold simulate.
  generalize (updatePowerUps host t (updateBuffs t (spawnBoss t
                 (spawnPowerUp host t (spawnEnemy host t (shoot t (movePlayer w))))))).
  intros w7 H7.
  destruct (updateEnemies_score_hundreds t w7) as [k Hk].
  exists k.
  rewrite updateBackground_score, updateParticles_score.
  unfold scoreOf at 1. rewrite updateBullets_score.
  fold (scoreOf (updateEnemies host t w7)). now rewrite Hk, H7.
Qed.

Lemma tick_score_eq t w : scoreOf (tick host t w) = scoreOf (simulate host t w).
Proof. now rewrite tick_simulate, updateHud_score, checkGameOver_score. Qed.

Lemma updateHud_shows t w :
  Hud.score (hud (updateHud t w)) = scoreOf (updateHud t w).
Proof. reflexivity. Qed.

Lemma tick_hud_score t w :
  Hud.score (hud (tick host t w)) = scoreOf (tick host t w).
Proof. rewrite tick_simulate. apply updateHud_shows. Qed.

(** X14.  The score moves by awards only: a tick adds a multiple of 100 to
    it, and the HUD shows the score after the tick. *)
Theorem X_tick_score_by_hundreds :
  forall (t : Q) (w : World),
    exists k : nat,
      scoreOf (tick host t w) == scoreOf w + 100 * inject_Z (Z.of_nat k)
      /\ Hud.score (hud (tick host t w)) = scoreOf (tick host t w).
Proof.
  intros t w. destruct (simulate_score_hundreds t w) as [k Hk].
  exists k. split; [rewrite tick_score_eq; exact Hk | apply tick_hud_score].
Qed.

End ScoreRun.

(** ** Saved numbers *)

Section RoundTrip.
Import Persist.
Import Decimal.

Lemma digit_cases d :
  (0 <= d < 10)%Z ->
  (d = 0 \/ d = 1 \/ d = 2 \/ d = 3 \/ d = 4 \/ d = 5 \/ d = 6
   \/ d = 7 \/ d = 8 \/ d = 9)%Z.
Proof. lia. Qed.

Lemma digitValue_digitChar d :
  (0 <= d < 10)%Z -> digitValue 10 (digitChar d) = Some d.
Proof.
  intros H. pose proof (digit_cases d H) as E.
  repeat (destruct E as [-> | E]; [reflexivity|]). subst. reflexivity.
Qed.

Lemma digits_step d s acc :
  (0 <= d < 10)%Z ->
  digits 10 (String (digitChar d) s) acc
  = digits 10 s (Some (match acc with Some a => a * 10 + d | None => d end)%Z).
Proof.
  intros H. cbn [digits]. now rewrite digitValue_digitChar.
Qed.

Lemma natDigits_S f n acc :
  natDigits (S f) n acc
  = if (n <? 10)%Z then String (digitChar (n mod 10)) acc
    else natDigits f (n / 10) (String (digitChar (n mod 10)) acc).
Proof. reflexivity. Qed.

Lemma digits_natDigits f :
  forall n s, (0 <= n < 2 ^ Z.of_nat (S f))%Z ->
    digits 10 (natDigits (S f) n s) None = digits 10 s (Some n).
Proof.
  induction f as [|f IH]; intros n s Hn; rewrite natDigits_S.
  - change (2 ^ Z.of_nat 1)%Z with 2%Z in Hn.
    assert (E : (n <? 10)%Z = true) by (apply Z.ltb_lt; lia).
    rewrite E, digits_step by (apply Z.mod_pos_bound; lia).
    now rewrite Z.mod_small by lia.
  - destruct (n <? 10)%Z eqn:E.
    + apply Z.ltb_lt in E.
      rewrite digits_step by (apply Z.mod_pos_bound; lia).
      now rewrite Z.mod_small by lia.
    + apply Z.ltb_ge in E.
      rewrite IH.
      * rewrite digits_step by (apply Z.mod_pos_bound; lia).
        f_equal. f_equal. pose proof (Z.div_mod n 10). lia.
      * split; [apply Z.div_pos; lia|].
        rewrite Nat2Z.inj_succ, Z.pow_succ_r in Hn by lia.
        apply Z.div_lt_upper_bound; lia.
Qed.

Lemma log2_fuel z :
  (0 <= z)%Z -> (0 <= z < 2 ^ Z.of_nat (S (Z.to_nat (Z.log2 z))))%Z.
Proof.
  intros H. split; [exact H|].
  rewrite Nat2Z.inj_succ, Z2Nat.id by apply Z.log2_nonneg.
  destruct (Z.eq_dec z 0) as [-> | Hz]; [reflexivity|].
  apply Z.log2_spec. lia.
Qed.

Lemma natDigits_allDigits f :
  forall n acc, (0 <= n)%Z -> allDigits acc -> allDigits (natDigits f n acc).
Proof.
  induction f as [|f IH]; intros n acc Hn Ha; [exact Ha|].
  rewrite natDigits_S.
  assert (Hs : allDigits (String (digitChar (n mod 10)) acc)).
  { split; [|exact Ha]. exists (n mod 10)%Z.
    split; [apply Z.mod_pos_bound; lia | reflexivity]. }
  destruct (n <? 10)%Z; [exact Hs|].
  apply IH; [apply Z.div_pos; lia | exact Hs].
Qed.

Lemma natDigits_nonempty f :
  forall n acc, natDigits (S f) n acc <> "".
Proof.
  induction f as [|f IH]; intros n acc; rewrite natDigits_S.
  - now destruct (n <? 10)%Z.
  - destruct (n <? 10)%Z; [discriminate | apply IH].
Qed.

Lemma unsigned_digits sign s :
  allDigits s ->
  unsigned sign s = match digits 10 s None with
                    | Some n => Fin (inject_Z (sign * n))
                    | None => NaN
                    end.
Proof.
  destruct s as [|c r]; [reflexivity|].
  intros [[d [Hd ->]] Hr].
  destruct (digit_cases d Hd) as [E|E];
    [|repeat (destruct E as [E|E]; [subst d; reflexivity|]);
      subst d; reflexivity].
  subst d. destruct r as [|c2 r2]; [reflexivity|].
  destruct Hr as [[d2 [Hd2 ->]] _].
  pose proof (digit_cases d2 Hd2) as E.
  repeat (destruct E as [E|E]; [subst d2; reflexivity|]).
  subst d2; reflexivity.
Qed.

Lemma parseInt_digits s :
  allDigits s -> s <> "" -> parseInt s = unsigned 1 s.
Proof.
  destruct s as [|c r]; [congruence|].
  intros [[d [Hd ->]] Hr] _.
  pose proof (digit_cases d Hd) as E.
  repeat (destruct E as [E|E]; [subst d; reflexivity|]).
  subst d; reflexivity.
Qed.

Lemma parseInt_minus s : parseInt (String "-" s) = unsigned (-1) s.
Proof. reflexivity. Qed.

Lemma parseInt_intToString (z : Z) :
  parseInt (intToString z) = Fin (inject_Z z).
Proof.
  unfold intToString. destruct (z <? 0)%Z eqn:E.
  - apply Z.ltb_lt in E.
    rewrite parseInt_minus, unsigned_digits
      by (apply natDigits_allDigits; [lia | exact I]).
    rewrite digits_natDigits by (apply log2_fuel; lia).
    cbn [digits]. do 2 f_equal. lia.
  - apply Z.ltb_ge in E.
    rewrite parseInt_digits, unsigned_digits;
      try (apply natDigits_allDigits; [lia | exact I]);
      try apply natDigits_nonempty.
    rewrite digits_natDigits by (apply log2_fuel; lia).
    cbn [digits]. do 2 f_equal. lia.
Qed.
Lemma ifTruthy_intToString {A : Type} (z : Z) (f : string -> A) (d : A) :
  ifTruthy (Some (intToString z)) f d = f (intToString z).
Proof.
  unfold ifTruthy.
  assert (H : intToString z <> "").
  { unfold intToString. destruct (z <? 0)%Z; [discriminate|].
    apply natDigits_nonempty. }
  destruct (intToString z); [congruence | reflexivity].
Qed.

(** X15.  An integer written to storage by [toString] is read back by
    [parseInt] as the same number (below [10^21], where [toString] switches
    to the exponent notation); so a high score and a currency saved as
    integers are the ones that the next start-up shows. *)
Theorem X_saved_number_round_trip :
  forall (JSON_parse : string -> option (list PlaneType))
         (hs cur : Z) (planes sel : option string),
    (Z.abs hs < 10 ^ 21)%Z -> (Z.abs cur < 10 ^ 21)%Z ->
    parseInt (intToString hs) = Fin (inject_Z hs)
    /\ forall g,
         initGameState JSON_parse
           (mkSaved (Some (intToString hs)) (Some (intToString cur)) planes sel)
         = Some g ->
         highScore g = Fin (inject_Z hs)
         /\ totalCurrency g = Fin (inject_Z cur).
Proof.
  intros JSON_parse hs cur planes sel _ _.
  split; [apply parseInt_intToString|].
  intros g. unfold initGameState.
  cbn [savedHighScore savedCurrency savedPlanes savedSelected].
  rewrite !ifTruthy_intToString, !parseInt_intToString.
  destruct (ifTruthy planes JSON_parse (Some ["standard"])); [|discriminate].
  intros [= <-]. split; reflexivity.
Qed.

End RoundTrip.

(** ** What is carried from run to run *)

Section Progress.
Variable host : Host.

Lemma keepsProgress_refl g : keepsProgress g g.
Proof.
  split; [exists []; now rewrite app_nil_r|].
  intros h H. exists h. split; [exact H | apply Qle_refl].
Qed.

Lemma keepsProgress_trans g1 g2 g3 :
  keepsProgress g1 g2 -> keepsProgress g2 g3 -> keepsProgress g1 g3.
Proof.
  intros [[m1 H1] K1] [[m2 H2] K2]. split.
  - exists (m1 ++ m2). now rewrite H2, H1, app_assoc.
  - intros h Hh. destruct (K1 h Hh) as (h1 & E1 & L1).
    destruct (K2 h1 E1) as (h2 & E2 & L2).
    exists h2. split; [exact E2 | lra].
Qed.

Lemma keepsProgress_same g g' :
  ownedPlanes g' = ownedPlanes g -> highScore g' = highScore g ->
  keepsProgress g g'.
Proof.
  intros Ho Hh. split; [exists []; now rewrite app_nil_r|].
  intros h H. exists h. split; [congruence | apply Qle_refl].
Qed.

Lemma max_Fin h s :
  exists h', Num.max (Fin h) (Fin s) = Fin h' /\ h <= h' /\ s <= h'.
Proof.
  unfold Num.max, Num.leb. destruct (Qle_bool h s) eqn:E.
  - apply Qle_bool_iff in E. exists s. repeat split; [exact E | apply Qle_refl].
  - exists h. repeat split; [apply Qle_refl|].
    destruct (Qlt_le_dec h s) as [L | L]; [|exact L].
    apply Qlt_le_weak, Qle_bool_iff in L. congruence.
Qed.

Lemma checkGameOver_keepsProgress w :
  keepsProgress (gameState w) (gameState (checkGameOver w)).
Proof.
  unfold checkGameOver. destruct (Qle_bool _ _); [|apply keepsProgress_refl].
  split; [exists []; cbn; now rewrite app_nil_r|].
  intros h Hh. cbn. rewrite Hh.
  destruct (max_Fin h (Player.score (player w))) as (h' & E & L & _).
  exists h'. split; assumption.
Qed.

Lemma simulate_gameState t w : gameState (simulate host t w) = gameState w.
Proof.
  exact (proj2 (proj2 (sim_outside (simulate host t)
                         (fun ps tp g w => simulate_T host ps tp g t w) w))).
Qed.

Lemma updateHud_gameState t w : gameState (updateHud t w) = gameState w.
Proof. reflexivity. Qed.

Lemma tick_gameState t w :
  gameState (tick host t w) = gameState (checkGameOver (simulate host t w)).
Proof. rewrite tick_simulate. apply updateHud_gameState. Qed.

Lemma tick_keepsProgress t w :
  keepsProgress (gameState w) (gameState (tick host t w)).
Proof.
  rewrite tick_gameState. rewrite <- (simulate_gameState t w) at 1.
  apply checkGameOver_keepsProgress.
Qed.

Lemma update_keepsProgress f w :
  keepsProgress (gameState w) (gameState (update host f w)).
Proof.
  unfold update. destruct (status (gameState w));
    try apply keepsProgress_refl; [apply tick_keepsProgress|].
  destruct (_ <=? 0)%Z; [now apply keepsProgress_same|].
  destruct (_ =? 3)%Z; now apply keepsProgress_same.
Qed.

Lemma cardClick_keepsProgress plane g :
  keepsProgress g (fst (Shop.cardClick plane g)).
Proof.
  unfold Shop.cardClick, Shop.purchaseClick, Shop.selectClick.
  destruct (Shop.isOwned _ _); [now apply keepsProgress_same|].
  destruct (Shop.canAfford _ _); [|apply keepsProgress_refl].
  split; [now exists [pd_id plane]|].
  intros h Hh. exists h. split; [exact Hh | apply Qle_refl].
Qed.

Lemma step_keepsProgress ev w :
  keepsProgress (gameState w) (gameState (step host ev w)).
Proof.
  destruct ev as [f | c | c | now | now | | | plane]; unfold step.
  - apply update_keepsProgress.
  - apply keepsProgress_refl.
  - apply keepsProgress_refl.
  - unfold togglePause.
    destruct (status (gameState w)); try apply keepsProgress_refl;
      now apply keepsProgress_same.
  - destruct (status (gameState w)); try apply keepsProgress_refl;
      now apply keepsProgress_same.
  - destruct (status (gameState w)); try apply keepsProgress_refl;
      now apply keepsProgress_same.
  - destruct (status (gameState w)); try apply keepsProgress_refl;
      now apply keepsProgress_same.
  - destruct (status (gameState w)); try apply keepsProgress_refl.
    pose proof (cardClick_keepsProgress plane (gameState w)) as H.
    destruct (Shop.cardClick plane (gameState w)) as [g out]. exact H.
Qed.

Lemma run_keepsProgress evs :
  forall w, keepsProgress (gameState w) (gameState (run host evs w)).
Proof.
  induction evs as [|ev evs IH]; intros w; [apply keepsProgress_refl|].
  change (run host (ev :: evs) w) with (run host evs (step host ev w)).
  eapply keepsProgress_trans; [apply step_keepsProgress | apply IH].
Qed.

(** X16.  Whatever happens, the crafts owned are never lost (the list
    only grows at its end) and a finite high score never goes down. *)
Theorem X_progress_is_kept :
  forall (evs : list Event) (w : World),
    (exists more,
        ownedPlanes (gameState (run host evs w))
        = ownedPlanes (gameState w) ++ more)
    /\ (forall h, highScore (gameState w) = Fin h ->
                  exists h', highScore (gameState (run host evs w)) = Fin h'
                             /\ h <= h').
Proof. intros evs w. exact (run_keepsProgress evs w). Qed.


Lemma simulate_score_nonneg t w :
  0 <= scoreOf w -> 0 <= scoreOf (simulate host t w).
Proof.
  intros H. destruct (simulate_score_hundreds host t w) as [k Hk]. rewrite Hk.
  assert (0 <= inject_Z (Z.of_nat k)).
  { change 0 with (inject_Z 0). rewrite <- Zle_Qle. lia. }
  nra.
Qed.

Lemma solvent_same g g' :
  totalCurrency g' = totalCurrency g -> solvent g -> solvent g'.
Proof. intros E (c & Hc & Hp). exists c. split; [congruence | exact Hp]. Qed.

Lemma checkGameOver_sound w : sound w -> sound (checkGameOver w).
Proof.
  intros [(c & Hc & Hp) Hs]. unfold checkGameOver.
  destruct (Qle_bool _ _); [|split; [now exists c | exact Hs]].
  split; [|exact Hs].
  exists (c + Player.score (player w)). cbn. rewrite Hc. cbn.
  split; [reflexivity|]. unfold scoreOf in Hs. lra.
Qed.

Lemma tick_sound t w : sound w -> sound (tick host t w).
Proof.
  intros [Hc Hs].
  assert (H : sound (checkGameOver (simulate host t w))).
  { apply checkGameOver_sound. split.
    - now rewrite simulate_gameState.
    - now apply simulate_score_nonneg. }
  destruct H as [H1 H2]. split.
  - now rewrite tick_gameState.
  - now rewrite tick_score_eq, <- checkGameOver_score.
Qed.

Lemma update_sound f w : sound w -> sound (update host f w).
Proof.
  intros H. unfold update. destruct (status (gameState w)); try exact H;
    [now apply tick_sound|].
  destruct H as [Hc Hs].
  destruct (_ <=? 0)%Z; [split; [revert Hc; now apply solvent_same | exact Hs]|].
  destruct (_ =? 3)%Z;
    (split; [revert Hc; now apply solvent_same | exact Hs]).
Qed.

Lemma cardClick_solvent plane g :
  solvent g -> solvent (fst (Shop.cardClick plane g)).
Proof.
  intros (c & Hc & Hp).
  unfold Shop.cardClick, Shop.purchaseClick, Shop.selectClick.
  destruct (Shop.isOwned _ _); [now exists c|].
  destruct (Shop.canAfford g plane) eqn:E; [|now exists c].
  unfold Shop.canAfford in E. rewrite Hc in E. cbn in E.
  apply Qle_bool_iff in E.
  exists (c + - pd_price plane). cbn. rewrite Hc. cbn.
  split; [reflexivity | lra].
Qed.

Lemma step_sound ev w : sound w -> sound (step host ev w).
Proof.
  intros H.
  destruct ev as [f | c | c | now | now | | | plane]; unfold step.
  - now apply update_sound.
  - exact H.
  - exact H.
  - unfold togglePause. destruct H as [Hc Hs].
    destruct (status (gameState w)); try (split; assumption);
      (split; [revert Hc; now apply solvent_same | exact Hs]).
  - destruct H as [Hc Hs].
    destruct (status (gameState w)); try (split; assumption);
      (split; [revert Hc; now apply solvent_same | apply Qle_refl]).
  - destruct H as [Hc Hs].
    destruct (status (gameState w)); try (split; assumption);
      (split; [revert Hc; now apply solvent_same | exact Hs]).
  - destruct H as [Hc Hs].
    destruct (status (gameState w)); try (split; assumption);
      (split; [revert Hc; now apply solvent_same | exact Hs]).
  - destruct H as [Hc Hs].
    destruct (status (gameState w)); try (split; assumption).
    pose proof (cardClick_solvent plane (gameState w) Hc) as H.
    destruct (Shop.cardClick plane (gameState w)) as [g out].
    split; [exact H | exact Hs].
Qed.

Lemma run_sound evs : forall w, sound w -> sound (run host evs w).
Proof.
  induction evs as [|ev evs IH]; intros w H; [exact H|].
  change (run host (ev :: evs) w) with (run host evs (step host ev w)).
  apply IH, step_sound, H.
Qed.

(** X17.  No sequence of events puts the player in debt: from a currency
    that is a number and not negative, the currency stays a number and not
    negative, and the score of the player is never negative. *)
Theorem X_currency_never_negative :
  forall (evs : list Event) (g : GameState) (c : Q),
    totalCurrency g = Fin c -> 0 <= c ->
    exists c',
      totalCurrency (gameState (run host evs (initWorld g))) = Fin c'
      /\ 0 <= c'
      /\ 0 <= Player.score (player (run host evs (initWorld g))).
Proof.
  intros evs g c Hc Hp.
  destruct (run_sound evs (initWorld g)) as [(c' & Hc' & Hp') Hs].
  - split; [now exists c | apply Qle_refl].
  - exists c'. repeat split; assumption.
Qed.

End Progress.

(** ** The graph of the statuses *)

Section StatusGraph.
Variable host : Host.

Lemma follows_refl s : follows s s = true.
Proof. now destruct s. Qed.

Lemma update_follows f w :
  follows (status (gameState w)) (status (gameState (update host f w))) = true.
Proof.
  unfold update. destruct (status (gameState w)) eqn:E;
    rewrite ?E; try reflexivity.
  - destruct (tick_status host (adjusted host (timestamp f) w) w) as [H | H];
      rewrite H, ?E; reflexivity.
  - destruct (_ <=? 0)%Z; [reflexivity|].
    destruct (_ =? 3)%Z; cbn; rewrite ?E; reflexivity.
Qed.

Lemma step_follows ev w :
  follows (status (gameState w)) (status (gameState (step host ev w))) = true.
Proof.
  destruct ev as [f | c | c | now | now | | | plane]; unfold step.
  - apply update_follows.
  - apply follows_refl.
  - apply follows_refl.
  - unfold togglePause. destruct (status (gameState w)) eqn:E;
      cbn; rewrite ?E; reflexivity.
  - destruct (status (gameState w)) eqn:E; cbn; rewrite ?E; reflexivity.
  - destruct (status (gameState w)) eqn:E; cbn; rewrite ?E; reflexivity.
  - destruct (status (gameState w)) eqn:E; cbn; rewrite ?E; reflexivity.
  - destruct (status (gameState w)) eqn:E; cbn; rewrite ?E; try reflexivity.
    pose proof (cardClick_status plane (gameState w)) as H.
    destruct (Shop.cardClick plane (gameState w)) as [g out].
    cbn in *. rewrite H, E. reflexivity.
Qed.

End StatusGraph.


(** ** Power-ups *)

(** X19.  A power-up appears exactly when more than 8 seconds have passed
    since the last one: inside the width of the field, just above its top
    edge, at the cost of two random draws, and without touching the enemies
    or the player.  Otherwise nothing changes. *)
Theorem X_spawnPowerUp_shape :
  forall (host : Host) (t : Q) (w : World),
    let w' := spawnPowerUp host t w in
    (8000 < t - lastPowerUpSpawn w ->
     exists pu,
       powerUps w' = powerUps w ++ [pu]
       /\ lastPowerUpSpawn w' = t
       /\ randomCalls w' = (2 + randomCalls w)%nat
       /\ 0 <= PowerUp.x pu
       /\ PowerUp.x pu + PowerUp.width pu < CANVAS_WIDTH
       /\ PowerUp.y pu + PowerUp.height pu == 0
       /\ PowerUp.speed pu == 1.2
       /\ enemies w' = enemies w /\ player w' = player w)
    /\ (t - lastPowerUpSpawn w <= 8000 -> w' = w).
Proof.
  intros host t w w'. subst w'. unfold spawnPowerUp. split.
  - intros H. unfold Qgtb. rewrite (proj2 (Qltb_lt _ _) H).
    cbn [random fst snd set_randomCalls randomCalls].
    eexists. split; [reflexivity|]. split; [reflexivity|]. split; [reflexivity|].
    cbn [PowerUp.x PowerUp.y PowerUp.width PowerUp.height PowerUp.speed].
    destruct (unitValue_range (Math_random host (S (randomCalls w)))) as [Hlo Hhi].
    set (r := unitValue (Math_random host (S (randomCalls w)))) in *.
    split; [unfold CANVAS_WIDTH; nra|].
    split; [unfold CANVAS_WIDTH; nra|].
    repeat split; reflexivity.
  - intros H. unfold Qgtb. now rewrite (proj2 (Qltb_ge _ _) H).
Qed.

(** ** The properties above at concrete inputs *)

Lemma X_update_outside_play_keeps_entities_witness :
  update RefHost.host (mkFrame 16 16 16 16) (initWorld (freshState menu))
  = initWorld (freshState menu).
Proof.
  destruct (X_update_outside_play_keeps_entities RefHost.host
              (mkFrame 16 16 16 16) (initWorld (freshState menu)))
    as (_ & H & _); [cbn; discriminate | apply H; cbn; discriminate].
Defined.


Lemma X_spawn_interval_ramp_witness :
  800 <= spawnInterval 60000 (initWorld (freshState playing)).
Proof.
  destruct (X_spawn_interval_ramp 60000 (initWorld (freshState playing)))
    as [H _]; [vm_compute; discriminate | exact H].
Defined.

Lemma X_spawnEnemy_shape_witness :
  exists e,
    enemies (spawnEnemy RefHost.host 4000 (initWorld (freshState playing)))
    = [] ++ [e]
    /\ 0 <= Enemy.x e.
Proof.
  destruct (X_spawnEnemy_shape RefHost.host 4000
              (initWorld (freshState playing))) as [H _].
  destruct H as (e & He & _ & _ & _ & Hx & _).
  - split; vm_compute; reflexivity.
  - exists e. split; [exact He | exact Hx].
Defined.

Lemma X_shoot_rate_limit_witness :
  Player.lastShot
    (player (shoot 1000 (setKey "Space" true (initWorld (freshState playing)))))
  = 1000.
Proof.
  destruct (X_shoot_rate_limit 1000
              (setKey "Space" true (initWorld (freshState playing))))
    as [_ H].
  destruct H as (_ & H & _); [vm_compute; reflexivity | exact H].
Defined.

Lemma X_resetGame_loadout_witness :
  exists d,
    Player.type (player (resetGame 0 (initWorld (freshState menu)))) = pd_id d
    /\ pd_id d = "standard".
Proof.
  destruct (X_resetGame_loadout 0 (initWorld (freshState menu)))
    as (d & _ & Hsel & _ & Hty & _).
  exists d. split; [exact Hty | apply Hsel; left; reflexivity].
Defined.

Lemma X_bossPattern_rotation_witness :
  bossPattern (7000 + 15000) = bossPattern 7000.
Proof.
  destruct (X_bossPattern_rotation 7000) as (_ & _ & H);
    [vm_compute; discriminate | exact H].
Defined.

Lemma X_game_over_reconciliation_witness :
  status (gameState (checkGameOver
                       (set_player
                          (Player.mk 220 560 40 40 2.5 "standard" 0 100 300 0
                             250 [])
                          (initWorld (freshState playing))))) = gameover.
Proof.
  destruct (X_game_over_reconciliation RefHost.host
              (set_player
                 (Player.mk 220 560 40 40 2.5 "standard" 0 100 300 0 250 [])
                 (initWorld (freshState playing)))) as [H _].
  destruct H as [H _]; [vm_compute; discriminate | exact H].
Defined.

Lemma X_enemy_movement_witness :
  20 <= Enemy.x (fst (enemyAct RefHost.host 1000
                        (Enemy.mk 200 80 80 80 0.4 boss 500 500 0 800)
                        (initWorld (freshState playing)))).
Proof.
  destruct (X_enemy_movement RefHost.host 1000
              (Enemy.mk 200 80 80 80 0.4 boss 500 500 0 800)
              (initWorld (freshState playing))) as (_ & _ & H).
  destruct H as (_ & H & _);
    [reflexivity | vm_compute; discriminate | exact H].
Defined.

Lemma X_shield_blocks_damage_witness :
  Player.health (player (tick RefHost.host 5000 shieldedWorld))
  = Player.health (player shieldedWorld).
Proof.
  destruct (X_shield_blocks_damage RefHost.host 5000 shieldedWorld) as [H _].
  - exists (Buff.mk shield 12000).
    split; [left; reflexivity | split; [reflexivity | vm_compute; reflexivity]].
  - exact H.
Defined.

Lemma X_tick_drops_expired_buffs_witness :
  5000 < Buff.endTime (Buff.mk shield 12000).
Proof.
  destruct (X_tick_drops_expired_buffs RefHost.host 5000 shieldedWorld
              (Buff.mk shield 12000)) as [H _].
  - vm_compute. left. reflexivity.
  - exact H.
Defined.

Lemma X_saved_number_round_trip_witness :
  Persist.parseInt (Decimal.intToString 5000) = Fin (inject_Z 5000).
Proof.
  destruct (X_saved_number_round_trip (fun _ => None) 5000 120 None None)
    as [H _]; [reflexivity | reflexivity | exact H].
Defined.

Lemma X_progress_is_kept_witness :
  exists h',
    highScore (gameState (run RefHost.host [ClickShop; ClickMenu]
                            (initWorld (freshState menu)))) = Fin h'
    /\ 0 <= h'.
Proof.
  destruct (X_progress_is_kept RefHost.host [ClickShop; ClickMenu]
              (initWorld (freshState menu))) as [_ H].
  apply H. reflexivity.
Defined.

Lemma X_currency_never_negative_witness :
  exists c',
    totalCurrency (gameState (run RefHost.host [ClickShop; ClickMenu]
                                (initWorld (freshState menu)))) = Fin c'
    /\ 0 <= c'
    /\ 0 <= Player.score (player (run RefHost.host [ClickShop; ClickMenu]
                                    (initWorld (freshState menu)))).
Proof.
  apply (X_currency_never_negative RefHost.host [ClickShop; ClickMenu]
           (freshState menu) 0); [reflexivity | apply Qle_refl].
Defined.


Lemma X_spawnPowerUp_shape_witness :
  exists pu,
    powerUps (spawnPowerUp RefHost.host 9000 (initWorld (freshState playing)))
    = [] ++ [pu]
    /\ 0 <= PowerUp.x pu.
Proof.
  destruct (X_spawnPowerUp_shape RefHost.host 9000
              (initWorld (freshState playing))) as [H _].
  destruct H as (pu & Hp & _ & _ & Hx & _).
  - vm_compute. reflexivity.
  - exists pu. split; [exact Hp | exact Hx].
Defined.
